(** * promonet / promovits: grid interpolation and the evaluation pipeline

    A shallow embedding of

    - [promonet/interpolate/core.py] ([pitch], [grid_sample]);
    - [promovits/evaluate/core.py] ([speaker], [datasets],
      [default_metrics]): the copy of the original files, the derivation of
      the pitch-shifted, time-stretched and loudness-scaled conditions, the
      alignment retry stage, the objective evaluation loop, the sample
      counts and the benchmark averaging;
    - [promonet/load.py] ([phonemes], [pitch]);
    - [promovits/write.py] ([writer] and the four logging functions);
    - [promonet/synthesize/core.py] ([from_file], [from_file_to_file],
      [from_files_to_files], [generate]);
    - [promonet/adapt.py] (the volume normalisation of [speaker]);
    - [promonet/model/discriminator.py] (the reshaping of
      [DiscriminatorP.forward]).

    Conventions of the embedding:

    - a tensor is the list of its elements along the last axis; the elements
      are real numbers ([R]), so floating point rounding, infinities and NaN
      are outside the model;
    - an integer tensor is a [list Z];
    - Python exceptions are the constructor [Raise] of the [result] monad;
    - the file system is a finite map from paths to file contents;
      directories are not represented ([mkdir] is a no-op of the model);
    - collaborators that are not part of the repository (the [ppgs] sampler,
      the two aligners, the [pysodic] metrics, the module constants
      [FMIN], [FMAX]) are section variables. *)

From Stdlib Require Import Reals Lra Lia ZArith QArith Qreals String Ascii List.
From stdpp Require Import base gmap strings list.

Open Scope string_scope.

(* ===================================================================== *)
(** * Python strings *)
(* ===================================================================== *)

Module PyStr.

(** [s.replace(old, new)] for a non-empty [old]: the occurrences of [old]
    are replaced from the left and do not overlap.  [skip] counts the
    characters of an occurrence that remain to be dropped. *)
Fixpoint replace_from (skip : nat) (old new s : string) : string :=
  match s with
  | EmptyString => EmptyString
  | String c s' =>
      match skip with
      | S k => replace_from k old new s'
      | O =>
          if String.prefix old s
          then new +:+ replace_from (String.length old - 1) old new s'
          else String c (replace_from 0 old new s')
      end
  end.

Definition replace (old new s : string) : string := replace_from 0 old new s.

(** [s.rfind(c)] for a single character: index of the last occurrence *)
Fixpoint rfind (c : ascii) (s : string) : option nat :=
  match s with
  | EmptyString => None
  | String a s' =>
      match rfind c s' with
      | Some i => Some (S i)
      | None => if Ascii.eqb a c then Some 0%nat else None
      end
  end.

(** [s[:n]] for [0 <= n] *)
Definition take (n : nat) (s : string) : string := substring 0 n s.

(** [s[n:]] for [0 <= n] *)
Definition drop (n : nat) (s : string) : string :=
  substring n (String.length s - n) s.

(** [s.split(c)] for a single character *)
Fixpoint split (c : ascii) (s : string) : list string :=
  match s with
  | EmptyString => [EmptyString]
  | String a s' =>
      if Ascii.eqb a c then EmptyString :: split c s'
      else match split c s' with
           | w :: ws => String a w :: ws
           | [] => [String a EmptyString]
           end
  end.

(** [sep.join(l)] *)
Fixpoint join (sep : string) (l : list string) : string :=
  match l with
  | [] => EmptyString
  | [w] => w
  | w :: l' => w +:+ sep +:+ join sep l'
  end.

(** [c in s] for a single character *)
Fixpoint contains (c : ascii) (s : string) : bool :=
  match s with
  | EmptyString => false
  | String a s' => Ascii.eqb a c || contains c s'
  end.

Definition is_digit (c : ascii) : bool :=
  let n := nat_of_ascii c in (48 <=? n)%nat && (n <=? 57)%nat.

Fixpoint all_digits (s : string) : bool :=
  match s with
  | EmptyString => true
  | String a s' => is_digit a && all_digits s'
  end.

(** One decimal digit. *)
Definition digit (n : Z) : string :=
  String (ascii_of_nat (48 + Z.to_nat (n mod 10))) EmptyString.

(** Decimal digits of a non-negative integer ([fuel] bounds their
    number). *)
Fixpoint digits (fuel : nat) (n : Z) : string :=
  match fuel with
  | O => EmptyString
  | S k => if (n <? 10)%Z then digit n else digits k (n / 10) +:+ digit n
  end.

Definition str_of_nonneg (n : Z) : string :=
  digits (S (Z.to_nat (Z.log2 n))) n.

Fixpoint zeros (k : nat) : string :=
  match k with O => EmptyString | S k' => String "0" (zeros k') end.

(** [f'{n:03d}']: sign, then the digits padded with zeros to a total
    width of three *)
Definition format_03d (n : Z) : string :=
  if (n <? 0)%Z
  then let d := str_of_nonneg (- n) in
       "-" +:+ zeros (2 - String.length d) +:+ d
  else let d := str_of_nonneg n in
       zeros (3 - String.length d) +:+ d.

End PyStr.

(* ===================================================================== *)
(** * pathlib *)
(* ===================================================================== *)

Module Pathlib.

(** A path is the list of its components, outermost first. *)
Abbreviation Path := (list string).

(** [path.name] *)
Definition name (p : Path) : string := List.last p "".

(** [path.parent] *)
Definition parent (p : Path) : Path := List.removelast p.

(** [path / s] for a non-empty component [s] without separator *)
Definition join (p : Path) (s : string) : Path := (p ++ [s])%list.

(** The suffix of a file name starts at its last dot, unless that dot is
    the first or the last character. *)
Definition suffix_index (nm : string) : option nat :=
  match PyStr.rfind "." nm with
  | Some i =>
      if (0 <? i)%nat && (i <? String.length nm - 1)%nat then Some i else None
  | None => None
  end.

(** [PurePath.stem] on the file name *)
Definition stem_of_name (nm : string) : string :=
  match suffix_index nm with
  | Some i => PyStr.take i nm
  | None => nm
  end.

(** [PurePath.suffix] on the file name *)
Definition suffix_of_name (nm : string) : string :=
  match suffix_index nm with
  | Some i => PyStr.drop i nm
  | None => ""
  end.

(** [path.stem], [path.suffix] *)
Definition stem (p : Path) : string := stem_of_name (name p).
Definition suffix (p : Path) : string := suffix_of_name (name p).

(** [path.with_suffix(suffix)] for a suffix starting with a dot *)
Definition with_suffix (p : Path) (sfx : string) : Path :=
  join (parent p) (stem p +:+ sfx).

End Pathlib.

Notation "p // s" := (Pathlib.join p s) (at level 40, left associativity).

(* ===================================================================== *)
(** * Exceptions *)
(* ===================================================================== *)

Inductive exn : Type :=
| IndexError
| KeyError (key : string)
| ValueError (msg : string)
| FileNotFoundError (p : list string)
| SameFileError (p : list string)
| ZeroDivisionError
| UnpicklingError (p : list string)
| RuntimeError (msg : string)
| BdbQuit.

Inductive result (A : Type) : Type :=
| Ok (a : A)
| Raise (e : exn).
Arguments Ok {A} a.
Arguments Raise {A} e.

#[global] Instance result_ret : MRet result := @Ok.
#[global] Instance result_bind : MBind result :=
  fun A B f m => match m with Ok a => f a | Raise e => Raise e end.
#[global] Instance result_fmap : FMap result :=
  fun A B f m => match m with Ok a => Ok (f a) | Raise e => Raise e end.

(** Run [f] on every element, left to right, stopping at the first
    exception. *)
Fixpoint for_each {A B : Type} (f : A -> result B) (l : list A)
  : result (list B) :=
  match l with
  | [] => Ok []
  | a :: l' => b ← f a; bs ← for_each f l'; Ok (b :: bs)
  end.

(* ===================================================================== *)
(** * Tensors *)
(* ===================================================================== *)

Module Torch.

Open Scope R_scope.

(** [t[i]] with Python's negative indices *)
Definition index {A : Type} (t : list A) (i : Z) : result A :=
  let n := Z.of_nat (length t) in
  let j := if (i <? 0)%Z then (n + i)%Z else i in
  if ((0 <=? j) && (j <? n))%Z
  then match t !! Z.to_nat j with Some a => Ok a | None => Raise IndexError end
  else Raise IndexError.

(** [torch.arange(n)] *)
Definition arange (n : nat) : list Z := map Z.of_nat (seq 0 n).

(** [torch.clip(i, lo, hi)] on an integer: [min(max(i, lo), hi)] *)
Definition clip (i lo hi : Z) : Z := Z.min (Z.max i lo) hi.

Definition Rleb (x y : R) : bool := if Rle_dec x y then true else false.
Definition Rltb (x y : R) : bool := if Rlt_dec x y then true else false.

(** [torch.searchsorted(xp, x, right=True)] on a sorted [xp]: the number
    of leading elements that are at most [x] *)
Fixpoint searchsorted_right (xp : list Z) (x : R) : Z :=
  match xp with
  | [] => 0%Z
  | v :: xp' =>
      if Rleb (IZR v) x then (1 + searchsorted_right xp' x)%Z else 0%Z
  end.

(** [torch.round(x).to(torch.long)]: half-way cases go to the even
    neighbour *)
Definition round (x : R) : Z :=
  let f := Int_part x in
  let d := x - IZR f in
  if Rltb d (1 / 2) then f
  else if Rltb (1 / 2) d then (f + 1)%Z
  else if Z.even f then f else (f + 1)%Z.

(** [torch.log2], [2 ** y] *)
Definition log2 (x : R) : R := ln x / ln 2.
Definition exp2 (y : R) : R := Rpower 2 y.

End Torch.

(* ===================================================================== *)
(** * promonet/interpolate/core.py *)
(* ===================================================================== *)

Module Interpolate.

Import Torch.
Open Scope R_scope.

Section GridSampling.

(** [ppgs.edit.grid.sample], from the [ppgs] package *)
Variable ppgs_edit_grid_sample : list R -> list R -> result (list R).

(** The bracketing index of one grid entry (line 35). *)
Definition bracket (xp : list Z) (x : R) : Z :=
  clip (searchsorted_right xp x) 1 (Z.of_nat (length xp) - 1).

(** The divisor [xp[i] - xp[i - 1]] of one grid entry (line 38). *)
Definition divisor (xp : list Z) (i : Z) : result Z :=
  xi ← index xp i;
  xi1 ← index xp (i - 1);
  Ok (xi - xi1)%Z.

(** One entry of the linear branch (lines 34 to 38). *)
Definition linear_at (fp : list R) (x : R) : result R :=
  let xp := arange (length fp) in
  let i := bracket xp x in
  fp_i1 ← index fp (i - 1);
  xp_i ← index xp i;
  fp_i ← index fp i;
  xp_i1 ← index xp (i - 1);
  d ← divisor xp i;
  Ok ((fp_i1 * (IZR xp_i - x) + fp_i * (x - IZR xp_i1)) / IZR d).

(** One entry of the nearest-neighbours branch (line 42). *)
Definition nearest_at (fp : list R) (x : R) : result R :=
  index fp (round x).

(** [grid_sample(sequence, grid, method)] *)
Definition grid_sample (sequence grid : list R) (method : string)
  : result (list R) :=
  let x := grid in
  let fp := sequence in
  if String.eqb method "linear" then for_each (linear_at fp) x
  else if String.eqb method "nearest" then for_each (nearest_at fp) x
  else if String.eqb method "slerp" then ppgs_edit_grid_sample sequence grid
  else Raise (ValueError ("Grid sampling method " +:+ method +:+ " is not defined")).

(** [pitch(sequence, grid)] *)
Definition pitch (sequence grid : list R) : result (list R) :=
  map exp2 <$> grid_sample (map log2 sequence) grid "linear".

End GridSampling.

End Interpolate.

(* ===================================================================== *)
(** * The file system *)
(* ===================================================================== *)

Module Files.

Import Pathlib.

Inductive Content : Type :=
| Tensor (t : list R)
| Text (s : string)
| Blob (data : string).

Abbreviation FS := (gmap (list string) Content).

(** [path.exists()] *)
Definition exists_ (p : Path) (fs : FS) : bool :=
  match fs !! p with Some _ => true | None => false end.

(** [path.unlink(missing_ok=True)] *)
Definition unlink (p : Path) (fs : FS) : FS := delete p fs.

(** [torch.load(path)]; a file that holds no tensor does not unpickle to
    one *)
Definition torch_load (p : Path) (fs : FS) : result (list R) :=
  match fs !! p with
  | Some (Tensor t) => Ok t
  | Some _ => Raise (UnpicklingError p)
  | None => Raise (FileNotFoundError p)
  end.

(** [torch.save(tensor, path)] *)
Definition torch_save (t : list R) (p : Path) (fs : FS) : FS :=
  <[p := Tensor t]> fs.

(** [shutil.copyfile(src, dst)] *)
Definition copyfile (src dst : Path) (fs : FS) : result FS :=
  match fs !! src with
  | None => Raise (FileNotFoundError src)
  | Some c =>
      if decide (src = dst) then Raise (SameFileError src)
      else Ok (<[dst := c]> fs)
  end.

(** [f'{prefix}{tail}']: the text of a path followed by [tail] *)
Definition fstring (prefix : Path) (tail : string) : Path :=
  parent prefix // (name prefix +:+ tail).

(** A loop whose body may raise: the state is threaded from left to right
    and the first exception ends the loop. *)
Fixpoint for_fold {A S : Type} (body : A -> S -> result S) (l : list A)
  (s : S) : result S :=
  match l with
  | [] => Ok s
  | a :: l' => s' ← body a s; for_fold body l' s'
  end.

End Files.

(* ===================================================================== *)
(** * promovits/evaluate/core.py *)
(* ===================================================================== *)

Module Evaluate.

Import Pathlib Files Torch.

(** Constant ratios at which we evaluate prosody *)
Definition RATIOS : list Q := [5 # 10; 717 # 1000; 1414 # 1000; 2 # 1]%Q.

(** [int(x)]: truncation towards zero *)
Definition py_int (x : Q) : Z := Z.quot (Qnum x) (Zpos (Qden x)).

(** [f'{int(ratio * 100):03d}'] *)
Definition percent (ratio : Q) : string :=
  PyStr.format_03d (py_int (ratio * 100)%Q).

(** The keys and the copied features of the shifted and of the scaled
    conditions, for the ratios of [RATIOS]. *)
Definition shifted_keys : list string :=
  ["shifted-050"; "shifted-071"; "shifted-141"; "shifted-200"].

Definition shifted_features : list string :=
  ["loudness"; "periodicity"; "phonemes"; "text"; "voicing"].

Definition scaled_keys : list string :=
  ["scaled-050"; "scaled-071"; "scaled-141"; "scaled-200"].

Definition scaled_features : list string :=
  ["periodicity"; "phonemes"; "pitch"; "text"; "voicing"].

(** [pitch[mask] = value] *)
Definition masked_assign (mask : R -> bool) (value : R) (t : list R)
  : list R :=
  map (fun x => if mask x then value else x) t.

(** [suffix = '.txt' if feature == 'text' else '.pt'] *)
Definition feature_suffix (feature : string) : string :=
  if String.eqb feature "text" then ".txt" else ".pt".

(* ------------------------------------------------------------------- *)
(** ** Derived conditions (lines 152 to 186 and 289 to 319) *)
(* ------------------------------------------------------------------- *)

Section Conditions.

(** [promovits.FMIN], [promovits.FMAX] *)
Variables FMIN FMAX : R.

Variable original_objective_directory : Path.

(** Lines 176 to 186: copy one unchanged feature of a shifted file. *)
Definition shift_copy (key : string)
  (original_pitch_file shifted_pitch_file : Path)
  (feature : string) (fs : FS) : result FS :=
  let suffix := feature_suffix feature in
  let input_file :=
    with_suffix
      (parent original_pitch_file //
         PyStr.replace "pitch" feature
           (PyStr.replace key "original-100" (name original_pitch_file)))
      suffix in
  let output_file :=
    with_suffix
      (parent shifted_pitch_file //
         PyStr.replace "pitch" feature (name shifted_pitch_file))
      suffix in
  copyfile input_file output_file fs.

(** Lines 159 to 169: the file that receives the shifted pitch. *)
Definition shifted_file (ratio : Q) (original_pitch_file : Path) : Path :=
  let stem := PyStr.take 6 (Pathlib.stem original_pitch_file) in
  let key := "shifted-" +:+ percent ratio in
  original_objective_directory //
    name (parent original_pitch_file) //
    (stem +:+ "-" +:+ key +:+ "-pitch.pt").

(** Lines 159 to 186: the body of the loop over the original pitch
    files, for one ratio. *)
Definition shift_file (ratio : Q) (original_pitch_file : Path) (fs : FS)
  : result FS :=
  let key := "shifted-" +:+ percent ratio in
  loaded ← torch_load original_pitch_file fs;
  let pitch := map (Rmult (Q2R ratio)) loaded in
  let pitch := masked_assign (fun x => Rltb x FMIN) FMIN pitch in
  let pitch := masked_assign (fun x => Rltb FMAX x) FMAX pitch in
  let shifted_pitch_file := shifted_file ratio original_pitch_file in
  let fs := torch_save pitch shifted_pitch_file fs in
  let features := ["loudness"; "periodicity"; "phonemes"; "text"; "voicing"] in
  for_fold (shift_copy key original_pitch_file shifted_pitch_file)
    features fs.

(** Lines 158 to 186: shift every original pitch file by one ratio. *)
Definition shift_files (ratio : Q) (original_pitch_files : list Path)
  (fs : FS) : result FS :=
  for_fold (shift_file ratio) original_pitch_files fs.

(** Lines 310 to 319: copy one unchanged feature of a scaled file. *)
Definition scale_copy (key : string)
  (original_loudness_file scaled_loudness_file : Path)
  (feature : string) (fs : FS) : result FS :=
  let suffix := feature_suffix feature in
  let input_file :=
    with_suffix
      (parent original_loudness_file //
         PyStr.replace "loudness" feature
           (PyStr.replace key "original-100" (name original_loudness_file)))
      suffix in
  let output_file :=
    with_suffix
      (parent scaled_loudness_file //
         PyStr.replace "loudness" feature (name scaled_loudness_file))
      suffix in
  copyfile input_file output_file fs.

(** Lines 300 to 303: the file that receives the scaled loudness. *)
Definition scaled_file (ratio : Q) (original_loudness_file : Path) : Path :=
  let key := "scaled-" +:+ percent ratio in
  original_objective_directory //
    name (parent original_loudness_file) //
    (PyStr.take 6 (Pathlib.stem original_loudness_file)
       +:+ "-" +:+ key +:+ "-loudness.pt").

(** Lines 297 to 319: the body of the loop over the original loudness
    files, for one ratio. *)
Definition scale_file (ratio : Q) (original_loudness_file : Path)
  (fs : FS) : result FS :=
  let key := "scaled-" +:+ percent ratio in
  let gain := (10 * log2 (Q2R ratio))%R in
  loaded ← torch_load original_loudness_file fs;
  let loudness := map (Rplus gain) loaded in
  let scaled_loudness_file := scaled_file ratio original_loudness_file in
  let fs := torch_save loudness scaled_loudness_file fs in
  let features := ["periodicity"; "phonemes"; "pitch"; "text"; "voicing"] in
  for_fold (scale_copy key original_loudness_file scaled_loudness_file)
    features fs.

(** Lines 296 to 319: scale every original loudness file by one ratio. *)
Definition scale_files (ratio : Q) (original_loudness_files : list Path)
  (fs : FS) : result FS :=
  for_fold (scale_file ratio) original_loudness_files fs.

End Conditions.

(* ------------------------------------------------------------------- *)
(** ** Alignment of the generated files (lines 340 to 406) *)
(* ------------------------------------------------------------------- *)

(** The calls made to the two aligners, in order. *)
Inductive call : Type :=
| Primary (audio_files output_prefixes text_files : list Path)
| Fallback (text_files audio_files output_files : list Path).

(** [zip(a, b, c)] *)
Fixpoint zip3 {A B C : Type} (a : list A) (b : list B) (c : list C)
  : list (A * B * C) :=
  match a, b, c with
  | x :: a', y :: b', z :: c' => (x, y, z) :: zip3 a' b' c'
  | _, _, _ => []
  end.

(** [zip] of the unpacked list of triples *)
Definition unzip3 {A B C : Type} (l : list (A * B * C))
  : list A * list B * list C :=
  (map (fun t => fst (fst t)) l, map (fun t => snd (fst t)) l, map snd l).

Section Alignment.

Variables objective_directory original_objective_directory : Path.

(** [promovits.HOPSIZE], [promovits.SAMPLE_RATE] *)
Variables HOPSIZE SAMPLE_RATE : Z.

(** [pysodic.from_files_to_files], which runs the primary aligner *)
Variable pysodic_from_files_to_files :
  list Path -> list Path -> list Path -> FS -> result FS.

(** [pyfoal.from_files_to_files] under the [p2fa] backend *)
Variable pyfoal_from_files_to_files :
  list Path -> list Path -> list Path -> FS -> result FS.

(** [pyfoal.convert.alignment_to_indices] on a loaded alignment *)
Variable alignment_to_indices : string -> R -> list R -> list Z.

(** Lines 341 to 343 *)
Definition output_prefixes (value : list Path) : list Path :=
  map (fun file => objective_directory // name (parent file) // stem file)
    value.

(** Lines 344 to 348 *)
Definition text_files (value : list Path) : list Path :=
  map (fun file =>
         original_objective_directory // name (parent file) //
           (stem file +:+ "-text.txt"))
    value.

(** [prefix.parent / f'{prefix.stem}-alignment.json'] (lines 352, 370) *)
Definition alignment_file (prefix : Path) : Path :=
  parent prefix // (stem prefix +:+ "-alignment.json").

(** Lines 350 to 353: make sure alignments don't already exist. *)
Definition unlink_alignments (value : list Path) (fs : FS) : FS :=
  foldl (fun fs prefix => unlink (alignment_file prefix) fs)
    fs (output_prefixes value).

(** Lines 366 to 372: get any failed alignments to retry. *)
Definition failed_alignments (value : list Path) (fs : FS)
  : list (Path * Path * Path) :=
  let iterator := zip3 (text_files value) value (output_prefixes value) in
  flat_map
    (fun '(text_file, audio_file, prefix) =>
       let output_file := alignment_file prefix in
       if negb (exists_ output_file fs)
       then [(text_file, audio_file, output_file)]
       else [])
    iterator.

(** Spec: the subset of the batch whose expected alignment artifact is
    absent. *)
Definition failed_subset (value : list Path) (fs : FS) : list Path :=
  List.filter
    (fun file =>
       negb (exists_
               (alignment_file
                  (objective_directory // name (parent file) // stem file))
               fs))
    value.

(** Lines 384 to 406: convert one alignment to phoneme indices. *)
Definition convert_alignment (file : Path) (fs : FS) : result FS :=
  alignment ←
    match fs !! file with
    | Some (Blob data) => Ok data
    | Some _ => Raise (ValueError "alignment")
    | None => Raise (FileNotFoundError file)
    end;
  pitch ← torch_load
    (parent file // PyStr.replace "alignment.json" "pitch.pt" (name file))
    fs;
  let hopsize := (IZR HOPSIZE / IZR SAMPLE_RATE)%R in
  let times :=
    map (fun i => (IZR i * hopsize)%R) (arange (length pitch)) in
  let indices := alignment_to_indices alignment hopsize times in
  let indices_file :=
    parent file //
      (PyStr.replace "alignment" "phonemes" (stem file) +:+ ".pt") in
  Ok (torch_save (map IZR indices) indices_file fs).

(** Lines 366 to 406: retry the failures of the primary aligner. *)
Definition retry_alignments (value : list Path) (fs : FS)
  : list call * result FS :=
  let p2fa_args := failed_alignments value fs in
  match p2fa_args with
  | [] => ([], Ok fs)
  | _ :: _ =>
      let '(texts, audios, outputs) := unzip3 p2fa_args in
      ([Fallback texts audios outputs],
       fs ← pyfoal_from_files_to_files texts audios outputs fs;
       for_fold convert_alignment (map snd p2fa_args) fs)
  end.

(** Lines 341 to 406: the body of the loop over the conditions.  The
    first component lists the aligner calls that were made. *)
Definition align_files (value : list Path) (fs : FS)
  : list call * result FS :=
  let prefixes := output_prefixes value in
  let texts := text_files value in
  let fs := unlink_alignments value fs in
  let primary := Primary value prefixes texts in
  match pysodic_from_files_to_files value prefixes texts fs with
  | Raise e => ([primary], Raise e)
  | Ok fs =>
      let '(calls, r) := retry_alignments value fs in
      (primary :: calls, r)
  end.

End Alignment.

(* ------------------------------------------------------------------- *)
(** ** Objective evaluation (lines 408 to 458) *)
(* ------------------------------------------------------------------- *)

(** What the operator types at the prompt of [pdb]. *)
Inductive pdb_command : Type := pdb_continue | pdb_quit.

(** How a run ends: it returns, it is stopped by an exception, or it
    waits at the prompt of the debugger for a command that never comes. *)
Inductive outcome (S : Type) : Type :=
| Completed (s : S)
| Aborted (e : exn) (s : S)
| Blocked (s : S).
Arguments Completed {S} s.
Arguments Aborted {S} e s.
Arguments Blocked {S} s.

Section Objective.

Variables objective_directory original_objective_directory : Path.

(** [pysodic.metrics.Prosody]: the accumulator, a fresh instance, its
    [update], and the scores that calling it returns *)
Variable Prosody : Type.
Variable Score : Type.
Variable Prosody_new : Prosody.
Variable Prosody_update : list (list R) -> Prosody -> result Prosody.
Variable Prosody_call : Prosody -> Score.

Record EvalState : Type := mkEvalState {
  metrics : gmap string Prosody;
  speaker_metrics : gmap string Prosody;
  raw : gmap string (list (string * Score));
  stdout : list exn;
  stdin : list pdb_command
}.

(** [d[key]] *)
Definition getitem {V : Type} (d : gmap string V) (key : string)
  : result V :=
  match d !! key with Some v => Ok v | None => Raise (KeyError key) end.

(** Lines 433 to 443: the arguments of the update. *)
Definition load_args (predicted_prefix target_prefix : Path) (fs : FS)
  : result (list (list R)) :=
  for_each (fun p => torch_load p fs)
    [ fstring predicted_prefix "-pitch.pt";
      fstring predicted_prefix "-periodicity.pt";
      fstring predicted_prefix "-loudness.pt";
      fstring predicted_prefix "-voicing.pt";
      fstring target_prefix "-pitch.pt";
      fstring target_prefix "-periodicity.pt";
      fstring target_prefix "-loudness.pt";
      fstring target_prefix "-voicing.pt";
      fstring predicted_prefix "-phonemes.pt";
      fstring target_prefix "-phonemes.pt" ].

(** [d[condition].update] on the unpacked arguments: the accumulator is
    updated in place. *)
Definition update_in (d : gmap string Prosody) (condition : string)
  (args : list (list R)) : result (gmap string Prosody) :=
  m ← getitem d condition;
  m' ← Prosody_update args m;
  Ok (<[condition := m']> d).

(** Lines 432 to 447: the body of [try].  The state is the one reached
    when the body ends, normally or at the exception that is returned
    with it. *)
Definition try_update (predicted_prefix target_prefix : Path) (fs : FS)
  (file_metrics : Prosody) (st : EvalState)
  : EvalState * Prosody * option exn :=
  match load_args predicted_prefix target_prefix fs with
  | Raise e => (st, file_metrics, Some e)
  | Ok args =>
      let condition :=
        PyStr.join "-"
          (take 2 (drop 1 (PyStr.split "-" (stem target_prefix)))) in
      match update_in (metrics st) condition args with
      | Raise e => (st, file_metrics, Some e)
      | Ok d =>
          let st :=
            mkEvalState d (speaker_metrics st) (raw st) (stdout st)
              (stdin st) in
          match update_in (speaker_metrics st) condition args with
          | Raise e => (st, file_metrics, Some e)
          | Ok d =>
              let st :=
                mkEvalState (metrics st) d (raw st) (stdout st)
                  (stdin st) in
              match Prosody_update args file_metrics with
              | Raise e => (st, file_metrics, Some e)
              | Ok file_metrics => (st, file_metrics, None)
              end
          end
      end
  end.

(** Lines 453 to 455: [results['objective']['raw'][key].append(...)] *)
Definition append_raw (key : string) (entry : string * Score)
  (st : EvalState) : EvalState :=
  mkEvalState (metrics st) (speaker_metrics st)
    (<[key := (default [] (raw st !! key) ++ [entry])%list]> (raw st))
    (stdout st) (stdin st).

(** Lines 416 to 458: the body of the loop over the files of one
    condition.  The accumulator [file_metrics] is created by the iteration
    and is not used after it, so its [reset] at line 458 is left out. *)
Definition evaluate_file (fs : FS) (key : string) (file : Path)
  (st : EvalState) : outcome EvalState :=
  let file_metrics := Prosody_new in
  let target_prefix :=
    original_objective_directory // name (parent file) // stem file in
  let predicted_prefix :=
    objective_directory // name (parent file) // stem file in
  let finish file_metrics st :=
    Completed (append_raw key (stem file, Prosody_call file_metrics) st) in
  match try_update predicted_prefix target_prefix fs file_metrics st with
  | (st, file_metrics, None) => finish file_metrics st
  | (st, file_metrics, Some error) =>
      (* print(error) *)
      let st :=
        mkEvalState (metrics st) (speaker_metrics st) (raw st)
          (stdout st ++ [error])%list (stdin st) in
      (* import pdb; pdb.set_trace() *)
      match stdin st with
      | [] => Blocked st
      | pdb_quit :: _ => Aborted BdbQuit st
      | pdb_continue :: commands =>
          let st :=
            mkEvalState (metrics st) (speaker_metrics st) (raw st)
              (stdout st) commands in
          (* pass *)
          finish file_metrics st
      end
  end.

(** A loop whose body may stop the run. *)
Fixpoint run_loop {A S : Type} (body : A -> S -> outcome S) (l : list A)
  (s : S) : outcome S :=
  match l with
  | [] => Completed s
  | a :: l' =>
      match body a s with
      | Completed s' => run_loop body l' s'
      | stopped => stopped
      end
  end.

(** Lines 411 to 458: the loop over [files.items()]. *)
Definition evaluate_files (fs : FS) (files : list (string * list Path))
  (st : EvalState) : outcome EvalState :=
  run_loop
    (fun '(key, value) st =>
       let st :=
         mkEvalState (metrics st) (speaker_metrics st)
           (<[key := []]> (raw st)) (stdout st) (stdin st) in
       run_loop (evaluate_file fs key) value st)
    files st.

End Objective.

(* ------------------------------------------------------------------- *)
(** ** Sample counts and benchmark averages (lines 460 to 463, 549 to 565) *)
(* ------------------------------------------------------------------- *)

(** Line 462: [sum([file.stat().st_size for file in files]) // 4] *)
Definition count_samples (sizes : list Z) : Z :=
  (foldr Z.add 0 sizes / 4)%Z.

(** The two counts read from one [results.json]. *)
Record Counts : Type := mkCounts { num_samples : Z; num_frames : Z }.

(** Lines 549 to 557: the counts summed over the files that
    [results_directory.rglob('results.json')] yields. *)
Definition sum_counts (found : list Counts) : Counts :=
  foldl
    (fun results result =>
       mkCounts (num_samples results + num_samples result)
         (num_frames results + num_frames result))
    (mkCounts 0 0) found.

(** [value / n] for a float and an integer *)
Definition py_div (value : R) (n : Z) : result R :=
  if (n =? 0)%Z then Raise ZeroDivisionError else Ok (value / IZR n)%R.

(** Lines 562 to 565: average the benchmark over the samples.  [timer] is
    the list of the items of [promovits.TIMER()]. *)
Definition benchmark_average (timer : list (string * R)) (found : list Counts)
  : result (list (string * R)) :=
  let results := sum_counts found in
  for_each
    (fun '(key, value) =>
       average ← py_div value (num_samples results); Ok (key, average))
    timer.

End Evaluate.

(* ===================================================================== *)
(** * Example data *)
(* ===================================================================== *)

Module Example.

Import Pathlib Files Evaluate.

Definition objective : Path := ["eval"; "objective"; "vctk"; "promovits"; "00"].
Definition original : Path := ["eval"; "objective"; "vctk"; "original"; "00"].
Definition subjective : Path := ["eval"; "subjective"; "vctk"; "promovits"; "00"].

(** An accumulator that counts its updates. *)
Definition counter_update (args : list (list R)) (n : nat) : result nat :=
  Ok (S n).

Definition counters : gmap string nat :=
  {[ "original-100" := 0%nat ]}.

Definition two_files : list (string * list Path) :=
  [("reconstructed",
    [subjective // "0001" // "000001-original-100.wav";
     subjective // "0001" // "000002-original-100.wav"])].

Definition start (commands : list pdb_command) : EvalState nat nat :=
  mkEvalState nat nat counters counters ∅ [] commands.

(** The five tensors of one prefix that the metrics read. *)
Definition artifacts (prefix : Path) : list (Path * Content) :=
  map (fun feature =>
         (fstring prefix ("-" +:+ feature +:+ ".pt"), Tensor [1; 2]%R))
    ["pitch"; "periodicity"; "loudness"; "voicing"; "phonemes"].

(** The artifacts of the second file are all there, none of the first. *)
Definition second_only : FS :=
  list_to_map
    (artifacts (objective // "0001" // "000002-original-100") ++
     artifacts (original // "0001" // "000002-original-100")).

(** The objective evaluation of the two files, the first of which has no
    artifact, with the given commands waiting at the prompt of the
    debugger. *)
Definition run (commands : list pdb_command) : outcome (EvalState nat nat) :=
  evaluate_files objective original nat nat 0%nat counter_update (fun n => n)
    second_only two_files (start commands).

Definition missing_file (stem : string) : Path :=
  objective // "0001" // (stem +:+ "-original-100-pitch.pt").

(** A primary aligner that succeeds on the first file of a batch only. *)
Definition align_first (audio prefixes texts : list Path) (fs : FS)
  : result FS :=
  Ok match prefixes with
     | prefix :: _ =>
         <[alignment_file prefix := Blob "first"]> fs
     | [] => fs
     end.

(** A primary aligner that fails on every file. *)
Definition align_none (audio prefixes texts : list Path) (fs : FS)
  : result FS :=
  Ok fs.

(** A fallback aligner that succeeds on every file. *)
Definition align_all (texts audio outputs : list Path) (fs : FS)
  : result FS :=
  Ok (foldr (fun output fs => <[output := Blob "p2fa"]> fs) fs outputs).

Definition no_indices (alignment : string) (hopsize : R) (times : list R)
  : list Z := [].

Definition batch : list Path :=
  [subjective // "0001" // "000001-shifted-050.wav";
   subjective // "0001" // "000002-shifted-050.wav"].

(** A stale alignment of the second file, left by an earlier run. *)
Definition stale : FS :=
  {[ objective // "0001" // "000002-shifted-050-alignment.json" := Blob "stale" ]}.

Definition speaker_directory : Path := original // "0001".

(** The features of one utterance. *)
Definition utterance : FS :=
  <[speaker_directory // "000001-original-100-pitch.pt" := Tensor [30; 100; 400]%R]>
  (<[speaker_directory // "000001-original-100-loudness.pt" := Tensor [-20; -30; -25]%R]>
  (<[speaker_directory // "000001-original-100-periodicity.pt" := Tensor [1; 0; 1]%R]>
  (<[speaker_directory // "000001-original-100-phonemes.pt" := Tensor [3; 3; 7]%R]>
  (<[speaker_directory // "000001-original-100-text.txt" := Text "hello"]>
  (<[speaker_directory // "000001-original-100-voicing.pt" := Tensor [1; 0; 1]%R]>
   ∅))))).

(** A sampler that repeats the first frame. *)
Definition first_frame (sequence grid : list R) : result (list R) :=
  match sequence with
  | x :: _ => Ok (map (fun _ => x) grid)
  | [] => Raise IndexError
  end.

End Example.

(* ===================================================================== *)
(** * promonet/load.py *)
(* ===================================================================== *)

Module Load.

Import Pathlib Files Torch.

(** [torch.unique_consecutive(t)] on a one-dimensional tensor: one element
    is kept of every run of equal elements *)
Fixpoint unique_consecutive (t : list R) : list R :=
  match t with
  | [] => []
  | x :: t' =>
      match t' with
      | [] => [x]
      | y :: _ =>
          if Req_dec_T x y then unique_consecutive t'
          else x :: unique_consecutive t'
      end
  end.

(** [interleaved[:, 1::2] = values]: the entry [k] of [values] goes to the
    position [2 * k + 1], from the entry [start] on *)
Fixpoint assign_odd (start : nat) (values interleaved : list R) : list R :=
  match values with
  | [] => interleaved
  | v :: values' =>
      assign_odd (S start) values' (<[(2 * start + 1)%nat := v]> interleaved)
  end.

(** [phonemes(file)]: load phonemes and interleave blanks *)
Definition phonemes (file : Path) (fs : FS) : result (list R) :=
  loaded ← torch_load file fs;
  let phonemes := unique_consecutive loaded in
  let interleaved := replicate (length phonemes * 2 + 1) 0%R in
  Ok (assign_odd 0 phonemes interleaved).

Section Pitch.

(** [promonet.FMIN], [promonet.FMAX] *)
Variables FMIN FMAX : R.

(** [pitch(file)]: load pitch from file and bound it to the range *)
Definition pitch (file : Path) (fs : FS) : result (list R) :=
  pitch ← torch_load file fs;
  let pitch := Evaluate.masked_assign (fun x => Rltb x FMIN) FMIN pitch in
  let pitch := Evaluate.masked_assign (fun x => Rltb FMAX x) FMAX pitch in
  Ok pitch.

End Pitch.

End Load.

(* ===================================================================== *)
(** * promovits/write.py *)
(* ===================================================================== *)

Module Write.

Import Pathlib.

Section Tensorboard.

(** What is logged: a waveform, a figure, an image or a scalar. *)
Variable Payload : Type.

(** One call of [add_audio], [add_figure], [add_image] or [add_scalar]. *)
Inductive kind : Type := Audio | Figure | Image | Scalar.

Record entry : Type := mkEntry {
  entry_kind : kind;
  entry_name : string;
  entry_payload : Payload;
  entry_step : Z
}.

(** The attributes [writer.writer] and [writer.directory] of the function
    [writer]; the [SummaryWriter] is the list of what was added to it. *)
Record attributes : Type := mkAttributes {
  summary : list entry;
  log_dir : Path
}.

(** The state is [None] as long as the function has no attribute. *)
Definition state : Type := option attributes.

(** [str(path)] *)
Definition path_str (p : Path) : string :=
  match p with
  | [] => "."
  | _ :: _ => PyStr.join "/" p
  end.

(** The message of the exception of [writer] *)
Definition changed (directory previous : Path) : string :=
  "TensorBoard log directory " +:+ path_str directory +:+
  " has changed from previous " +:+ path_str previous.

(** [writer(directory)]: get the writer object.  The state that is returned
    is the one after the call, also when the call raises. *)
Definition writer (directory : Path) (st : state) : state * result attributes :=
  let w :=
    match st with
    | None => mkAttributes [] directory
    | Some w => w
    end in
  if decide (directory <> log_dir w)
  then (Some w, Raise (ValueError (changed directory (log_dir w))))
  else (Some w, Ok w).

(** [writer(directory).add_x(name, payload, step)] *)
Definition add (k : kind) (directory : Path) (step : Z)
  (item : string * Payload) (st : state) : state * option exn :=
  match writer directory st with
  | (st, Raise e) => (st, Some e)
  | (_, Ok w) =>
      (Some (mkAttributes
               (summary w ++ [mkEntry k (fst item) (snd item) step])%list
               (log_dir w)),
       None)
  end.

(** The loop over the items of a dictionary, which the first exception
    ends. *)
Fixpoint add_all (k : kind) (directory : Path) (step : Z)
  (items : list (string * Payload)) (st : state) : state * option exn :=
  match items with
  | [] => (st, None)
  | item :: items' =>
      match add k directory step item st with
      | (st, None) => add_all k directory step items' st
      | stopped => stopped
      end
  end.

(** The entries that one call adds for its items, in their order. *)
Definition entries (k : kind) (step : Z) (items : list (string * Payload))
  : list entry :=
  map (fun item => mkEntry k (fst item) (snd item) step) items.

(** [audio], [figure], [images], [scalars] *)
Definition audio := add_all Audio.
Definition figure := add_all Figure.
Definition images := add_all Image.
Definition scalars := add_all Scalar.

End Tensorboard.

End Write.

(* ===================================================================== *)
(** * promonet/synthesize/core.py *)
(* ===================================================================== *)

Module Synthesize.

Import Pathlib Files.

(** [zip(a, b, c, d, e, f)] *)
Fixpoint zip6 {A B C D E F : Type} (a : list A) (b : list B) (c : list C)
  (d : list D) (e : list E) (f : list F) : list (A * B * C * D * E * F) :=
  match a, b, c, d, e, f with
  | x1 :: a', x2 :: b', x3 :: c', x4 :: d', x5 :: e', x6 :: f' =>
      (x1, x2, x3, x4, x5, x6) :: zip6 a' b' c' d' e' f'
  | _, _, _, _, _, _ => []
  end.

(** The argument [checkpoint] is a string or a path. *)
Inductive checkpoint_arg : Type :=
| AsStr (s : string)
| AsPath (p : Path).

Section Generate.

(** The generator and the audio that is generated *)
Variables Model Audio : Type.

(** [torch.device('cpu' if gpu is None else f'cuda:{gpu}')] *)
Definition Device : Type := option Z.

(** [promonet.model.Generator().to(device)] *)
Variable Generator : Device -> Model.

(** [Path(checkpoint)] for a string *)
Variable Path_of_str : string -> Path.

(** [checkpoint.is_dir()] *)
Variable is_dir : Path -> bool.

(** [torchutil.checkpoint.latest_path(checkpoint, 'generator-*.pt')] *)
Variable latest_path : Path -> Path.

(** [torchutil.checkpoint.load(checkpoint, model)], first component *)
Variable checkpoint_load : Path -> Model -> result Model.

(** The forward pass of the generator on the features of one utterance,
    for a speaker and the two ratios *)
Variable forward : Model -> list (list R) -> Z -> R -> R -> result Audio.

(** The attributes [generate.model], [generate.checkpoint] and
    [generate.device] of the function [generate]. *)
Record cache : Type := mkCache {
  cached_model : Model;
  cached_checkpoint : Path;
  cached_device : Device
}.

(** The state of [generate]: its attributes, if any, and the checkpoints
    that were loaded so far. *)
Record state : Type := mkState {
  attributes : option cache;
  loaded : list Path
}.

(** [generate.checkpoint != checkpoint]: a path never equals a string *)
Definition checkpoint_differs (stored : Path) (checkpoint : checkpoint_arg)
  : bool :=
  match checkpoint with
  | AsStr _ => true
  | AsPath p => bool_decide (stored <> p)
  end.

(** Lines 220 to 230: load the model of a checkpoint and cache it.  The
    attributes are only assigned when the checkpoint has loaded. *)
Definition reload (checkpoint : checkpoint_arg) (device : Device)
  (st : state) : state * result Model :=
  let model := Generator device in
  let checkpoint :=
    match checkpoint with AsStr s => Path_of_str s | AsPath p => p end in
  let checkpoint :=
    if is_dir checkpoint then latest_path checkpoint else checkpoint in
  match checkpoint_load checkpoint model with
  | Raise e => (st, Raise e)
  | Ok model =>
      (mkState (Some (mkCache model checkpoint device))
         (loaded st ++ [checkpoint])%list,
       Ok model)
  end.

(** Lines 214 to 230: cache model.  The model that is used is returned with
    the state. *)
Definition load_model (checkpoint : checkpoint_arg) (device : Device)
  (st : state) : state * result Model :=
  match attributes st with
  | None => reload checkpoint device st
  | Some c =>
      if checkpoint_differs (cached_checkpoint c) checkpoint ||
         bool_decide (cached_device c <> device)
      then reload checkpoint device st
      else (st, Ok (cached_model c))
  end.

(** [generate(pitch, periodicity, loudness, ppg, speaker, formant_ratio,
    loudness_ratio, checkpoint)] on tensors of the device [device] *)
Definition generate (features : list (list R)) (speaker : Z)
  (formant_ratio loudness_ratio : R) (checkpoint : checkpoint_arg)
  (device : Device) (st : state) : state * result Audio :=
  match load_model checkpoint device st with
  | (st, Raise e) => (st, Raise e)
  | (st, Ok model) =>
      (st, forward model features speaker formant_ratio loudness_ratio)
  end.

(** [promonet.load.ppg(ppg_file, resample_length=length)] *)
Variable load_ppg : Path -> nat -> FS -> result (list R).

(** What [torchaudio.save] writes for a generated waveform *)
Variable wav : Audio -> Content.

(** The state of a batch: the attributes of [generate] and the files. *)
Definition world : Type := state * FS.

(** [from_file] followed by [from_features]: load the features, then
    generate *)
Definition from_file (pitch_file periodicity_file loudness_file ppg_file : Path)
  (speaker : Z) (formant_ratio loudness_ratio : R)
  (checkpoint : checkpoint_arg) (gpu : option Z) (w : world)
  : world * result Audio :=
  let '(st, fs) := w in
  let device : Device := gpu in
  match
    (pitch ← torch_load pitch_file fs;
     periodicity ← torch_load periodicity_file fs;
     loudness ← torch_load loudness_file fs;
     ppg ← load_ppg ppg_file (length pitch) fs;
     Ok [pitch; periodicity; loudness; ppg])
  with
  | Raise e => (w, Raise e)
  | Ok features =>
      let '(st, r) :=
        generate features speaker formant_ratio loudness_ratio checkpoint
          device st in
      ((st, fs), r)
  end.

(** [from_file_to_file]: generate, then save *)
Definition from_file_to_file
  (item : Path * Path * Path * Path * Path * Z)
  (formant_ratio loudness_ratio : R) (checkpoint : checkpoint_arg)
  (gpu : option Z) (w : world) : world * option exn :=
  let '(pitch_file, periodicity_file, loudness_file, ppg_file, output_file,
        speaker) := item in
  match
    from_file pitch_file periodicity_file loudness_file ppg_file speaker
      formant_ratio loudness_ratio checkpoint gpu w
  with
  | (w, Raise e) => (w, Some e)
  | ((st, fs), Ok generated) =>
      ((st, <[output_file := wav generated]> fs), None)
  end.

(** The loop of lines 185 to 191, which the first exception ends. *)
Fixpoint synthesize_all
  (items : list (Path * Path * Path * Path * Path * Z))
  (formant_ratio loudness_ratio : R) (checkpoint : checkpoint_arg)
  (gpu : option Z) (w : world) : world * option exn :=
  match items with
  | [] => (w, None)
  | item :: items' =>
      match
        from_file_to_file item formant_ratio loudness_ratio checkpoint gpu w
      with
      | (w, None) =>
          synthesize_all items' formant_ratio loudness_ratio checkpoint gpu w
      | stopped => stopped
      end
  end.

(** [from_files_to_files] *)
Definition from_files_to_files
  (pitch_files periodicity_files loudness_files ppg_files output_files
     : list Path)
  (speakers : option (list Z)) (formant_ratio loudness_ratio : R)
  (checkpoint : checkpoint_arg) (gpu : option Z) (w : world)
  : world * option exn :=
  let speakers :=
    match speakers with
    | None => replicate (length pitch_files) 0%Z
    | Some speakers => speakers
    end in
  let iterator :=
    zip6 pitch_files periodicity_files loudness_files ppg_files output_files
      speakers in
  synthesize_all iterator formant_ratio loudness_ratio checkpoint gpu w.

End Generate.

End Synthesize.

(* ===================================================================== *)
(** * promonet/adapt.py *)
(* ===================================================================== *)

Module Adapt.

Import Torch.
Open Scope R_scope.

(** [torch.abs(audio).max()] of a tensor that is not empty *)
Definition peak (audio : list R) : result R :=
  match audio with
  | [] => Raise (RuntimeError "max of an empty tensor")
  | x :: audio' => Ok (fold_left (fun m y => Rmax m (Rabs y)) audio' (Rabs x))
  end.

(** Lines 35 to 38: if audio is too quiet, increase the volume. *)
Definition increase_volume (audio : list R) : result (list R) :=
  maximum ← peak audio;
  if Rltb maximum (35 / 100)
  then Ok (map (fun x => x * (35 / 100 / maximum)) audio)
  else Ok audio.

End Adapt.

(* ===================================================================== *)
(** * promonet/model/discriminator.py *)
(* ===================================================================== *)

Module Discriminator.

(** Lines 75 to 80 of [DiscriminatorP.forward], on the shape alone: the
    number of samples that are appended and the shape
    [(t // period, period)] of the view.  A reflected padding must be
    shorter than the signal, and a view keeps the number of elements. *)
Definition pad_to_period (period t : Z) : result (Z * (Z * Z)) :=
  let n_pad := if (t mod period =? 0)%Z then 0%Z else (period - t mod period)%Z in
  if negb (t mod period =? 0)%Z && (t <=? n_pad)%Z
  then Raise (RuntimeError "padding size should be less than the input")
  else
    let t := (t + n_pad)%Z in
    if (t / period * period =? t)%Z
    then Ok (n_pad, ((t / period)%Z, period))
    else Raise (RuntimeError "shape is invalid for input").

(** The periods of the multi-period discriminators (line 264). *)
Definition periods : list Z := [2; 3; 5; 7; 11]%Z.

End Discriminator.

(* ===================================================================== *)
(** * promovits/evaluate/core.py, continued *)
(* ===================================================================== *)

Module Pipeline.

Import Pathlib Files Torch Evaluate.

(** [path / s] for a relative [s] that may hold separators *)
Definition joinpath (p : Path) (s : string) : Path :=
  (p ++ List.filter
          (fun c => negb (String.eqb c "") && negb (String.eqb c "."))
          (PyStr.split "/" s))%list.

(** Lines 105 to 113: the file of the bucket [original] that receives the
    copy of one cached file of a stem. *)
Definition original_file (original_objective_directory : Path)
  (stem : string) (input_file : Path) : Path :=
  let feature :=
    if String.eqb (suffix input_file) ".json" then "alignment"
    else if String.eqb (suffix input_file) ".txt" then "text"
    else List.last (PyStr.split "-" (Pathlib.stem input_file)) "" in
  joinpath original_objective_directory
    (stem +:+ "-original-100-" +:+ feature +:+ suffix input_file).

Section Metrics.

Variable Prosody : Type.

(** [metric_fn()]: a fresh accumulator *)
Variable metric_fn : Prosody.

(** [default_metrics(gpus)]: the metrics dictionary for each condition *)
Definition default_metrics : gmap string Prosody :=
  foldl
    (fun metrics condition =>
       foldl
         (fun metrics ratio =>
            <[condition +:+ "-" +:+ percent ratio := metric_fn]> metrics)
         metrics RATIOS)
    {[ "original-100" := metric_fn ]}
    ["scaled"; "shifted"; "stretched"].

End Metrics.

Section Stretch.

Variable original_objective_directory : Path.

(** [ppgs.edit.grid.sample], which [grid_sample] refers to *)
Variable ppgs_edit_grid_sample : list R -> list R -> result (list R).

(** Lines 244 to 257: stretch one feature with its method. *)
Definition stretch_feature (feature : string) (original_feature grid : list R)
  : result (list R) :=
  if String.eqb feature "loudness" || String.eqb feature "periodicity"
  then Interpolate.grid_sample ppgs_edit_grid_sample original_feature grid "linear"
  else if String.eqb feature "phonemes" || String.eqb feature "voicing"
  then Interpolate.grid_sample ppgs_edit_grid_sample original_feature grid "nearest"
  else Interpolate.pitch ppgs_edit_grid_sample original_feature grid.

(** Lines 226 to 229: the file that receives the grid. *)
Definition grid_file (ratio : Q) (original_alignment_file : Path) : Path :=
  let key := "stretched-" +:+ percent ratio in
  original_objective_directory //
    name (parent original_alignment_file) //
    (PyStr.take 6 (Pathlib.stem original_alignment_file)
       +:+ "-" +:+ key +:+ "-grid.pt").

(** Lines 237 to 258: stretch and save one feature. *)
Definition stretch_save (key : string) (grid_file : Path) (grid : list R)
  (feature : string) (fs : FS) : result FS :=
  let input_file :=
    parent grid_file //
      PyStr.replace "grid" feature
        (PyStr.replace key "original-100" (name grid_file)) in
  let output_file :=
    parent grid_file // PyStr.replace "grid" feature (name grid_file) in
  original_feature ← torch_load input_file fs;
  stretched_feature ← stretch_feature feature original_feature grid;
  Ok (torch_save stretched_feature output_file fs).

(** Lines 225 to 269: the body of the loop over the original alignments,
    from the grid on.  The grid comes from the two alignments, through
    [pyfoal] and [promovits.interpolate.grid]. *)
Definition stretch_file (ratio : Q) (original_alignment_file : Path)
  (grid : list R) (fs : FS) : result FS :=
  let key := "stretched-" +:+ percent ratio in
  let grid_file := grid_file ratio original_alignment_file in
  let fs := torch_save grid grid_file fs in
  let features := ["loudness"; "periodicity"; "phonemes"; "pitch"; "voicing"] in
  fs ← for_fold (stretch_save key grid_file grid) features fs;
  let input_file :=
    with_suffix
      (parent grid_file //
         PyStr.replace "grid" "text"
           (PyStr.replace key "original-100" (name grid_file)))
      ".txt" in
  let output_file :=
    with_suffix
      (parent grid_file // PyStr.replace "grid" "text" (name grid_file))
      ".txt" in
  copyfile input_file output_file fs.

End Stretch.

(** Lines 460 to 463: the two counts of one speaker, from the sizes of the
    generated audio files. *)
Definition speaker_counts (HOPSIZE : Z) (sizes : list Z) : Counts :=
  let num_samples := count_samples sizes in
  mkCounts num_samples (num_samples / HOPSIZE).

End Pipeline.

(* ===================================================================== *)
(** * Sample collaborators and inputs *)
(* ===================================================================== *)

Module Samples.

Import Pathlib Files Evaluate Synthesize.

(** A generator that counts the checkpoints loaded into it, checkpoints
    that always load, and a forward pass that returns that count. *)
Definition Generator (device : Device) : nat := 0%nat.
Definition Path_of_str (s : string) : Path := [s].
Definition is_dir (p : Path) : bool := bool_decide (p = ["runs"]).
Definition latest_path (p : Path) : Path := p // "generator-00250000.pt".
Definition checkpoint_load (p : Path) (model : nat) : result nat :=
  Ok (S model).
Definition forward (model : nat) (features : list (list R)) (speaker : Z)
  (formant_ratio loudness_ratio : R) : result nat :=
  Ok model.
Definition load_ppg (file : Path) (resample_length : nat) (fs : FS)
  : result (list R) :=
  Ok (replicate resample_length 0%R).
Definition wav (generated : nat) : Content := Blob "wav".

(** The features and the output of one utterance. *)
Definition item (output : string) : Path * Path * Path * Path * Path * Z :=
  (Example.speaker_directory // "000001-original-100-pitch.pt",
   Example.speaker_directory // "000001-original-100-periodicity.pt",
   Example.speaker_directory // "000001-original-100-loudness.pt",
   Example.speaker_directory // "000001-original-100-ppg.pt",
   Example.subjective // "0001" // output,
   0%Z).

Definition fresh : world nat := (mkState nat None [], Example.utterance).

Definition synthesize (checkpoint : checkpoint_arg)
  (items : list (Path * Path * Path * Path * Path * Z))
  : world nat * option exn :=
  synthesize_all nat nat Generator Path_of_str is_dir latest_path
    checkpoint_load forward load_ppg wav items 1 1 checkpoint None fresh.

End Samples.

(* ===================================================================== *)
(** * Facts about tensors and the proofs for [promonet/interpolate] *)
(* ===================================================================== *)

Module TorchFacts.
Import Torch.
Open Scope R_scope.

Lemma for_each_map {A B : Type} (f : A -> result B) (g : A -> B) (l : list A) :
  (forall a, a ∈ l -> f a = Ok (g a)) -> for_each f l = Ok (map g l).
Proof.
  induction l as [|a l IH]; intros H; [reflexivity|].
  cbn [for_each]. rewrite (H a) by apply list_elem_of_here.
  rewrite IH by (intros b Hb; apply H, list_elem_of_further, Hb).
  reflexivity.
Qed.

Lemma for_each_lookup {A B : Type} (f : A -> result B) (l : list A) (l' : list B) :
  length l = length l' ->
  (forall k a b, l !! k = Some a -> l' !! k = Some b -> f a = Ok b) ->
  for_each f l = Ok l'.
Proof.
  revert l'. induction l as [|a l IH]; intros [|b l'] Hlen H; try discriminate.
  - reflexivity.
  - cbn [for_each]. rewrite (H 0%nat a b eq_refl eq_refl).
    rewrite (IH l').
    + reflexivity.
    + simpl in Hlen. lia.
    + intros k x y Hx Hy. apply (H (S k)); assumption.
Qed.

Lemma length_arange n : length (arange n) = n.
Proof. unfold arange. rewrite length_map, length_seq. reflexivity. Qed.

Lemma arange_lookup n k : (k < n)%nat -> arange n !! k = Some (Z.of_nat k).
Proof.
  intros H. unfold arange. rewrite list_lookup_fmap.
  rewrite lookup_seq_lt by exact H. reflexivity.
Qed.

Lemma index_nonneg {A : Type} (t : list A) (k : nat) (a : A) :
  t !! k = Some a -> index t (Z.of_nat k) = Ok a.
Proof.
  intros H. pose proof (lookup_lt_Some _ _ _ H) as Hlt.
  unfold index.
  destruct (Z.ltb_spec (Z.of_nat k) 0) as [Hn|_]; [lia|].
  destruct (Z.leb_spec 0 (Z.of_nat k)) as [_|Hn]; [|lia].
  destruct (Z.ltb_spec (Z.of_nat k) (Z.of_nat (length t))) as [_|Hn]; [|lia].
  cbn [andb]. rewrite Nat2Z.id, H. reflexivity.
Qed.

Lemma index_lookup {A : Type} (t : list A) (i : Z) (a : A) :
  (0 <= i)%Z -> t !! Z.to_nat i = Some a -> index t i = Ok a.
Proof.
  intros Hi H. rewrite <- (Z2Nat.id i) by exact Hi.
  apply index_nonneg, H.
Qed.

Lemma index_arange n (i : Z) :
  (0 <= i < Z.of_nat n)%Z -> index (arange n) i = Ok i.
Proof.
  intros H. rewrite <- (Z2Nat.id i) at 1 by lia.
  rewrite (index_nonneg (arange n) (Z.to_nat i) i); [reflexivity|].
  rewrite arange_lookup by lia. f_equal. lia.
Qed.

Lemma Rleb_true x y : x <= y -> Rleb x y = true.
Proof. intros H. unfold Rleb. destruct (Rle_dec x y); [reflexivity|contradiction]. Qed.

Lemma Rleb_false x y : y < x -> Rleb x y = false.
Proof. intros H. unfold Rleb. destruct (Rle_dec x y); [lra|reflexivity]. Qed.

Lemma Rltb_true x y : x < y -> Rltb x y = true.
Proof. intros H. unfold Rltb. destruct (Rlt_dec x y); [reflexivity|contradiction]. Qed.

Lemma Rltb_false x y : y <= x -> Rltb x y = false.
Proof. intros H. unfold Rltb. destruct (Rlt_dec x y); [lra|reflexivity]. Qed.

(** The search on the integer range [a, a + n): the result counts the
    leading entries that are at most [x]. *)
Lemma searchsorted_range (a n : nat) (x : R) :
  let s := searchsorted_right (map Z.of_nat (seq a n)) x in
  (0 <= s <= Z.of_nat n)%Z /\
  ((0 < s)%Z -> IZR (Z.of_nat a + s - 1) <= x) /\
  ((s < Z.of_nat n)%Z -> x < IZR (Z.of_nat a + s)).
Proof.
  revert a. induction n as [|n IH]; intros a; cbn [seq map searchsorted_right].
  - cbv zeta. repeat split; lia.
  - unfold Rleb. destruct (Rle_dec (IZR (Z.of_nat a)) x) as [Hle|Hgt].
    + specialize (IH (S a)). cbv zeta in IH.
      set (s := searchsorted_right (map Z.of_nat (seq (S a) n)) x) in *.
      destruct IH as (Hr & Hlo & Hhi). cbv zeta. repeat split; try lia.
      * intros _. destruct (Z.eq_dec s 0%Z) as [->|Hs].
        -- replace (Z.of_nat a + (1 + 0) - 1)%Z with (Z.of_nat a) by lia. exact Hle.
        -- replace (Z.of_nat a + (1 + s) - 1)%Z with (Z.of_nat (S a) + s - 1)%Z by lia.
           apply Hlo. lia.
      * intros Hs. replace (Z.of_nat a + (1 + s))%Z with (Z.of_nat (S a) + s)%Z by lia.
        apply Hhi. lia.
    + cbv zeta. repeat split; try lia.
      intros _. rewrite Z.add_0_r. lra.
Qed.

Lemma searchsorted_arange (n : nat) (x : R) :
  let s := searchsorted_right (arange n) x in
  (0 <= s <= Z.of_nat n)%Z /\
  ((0 < s)%Z -> IZR (s - 1) <= x) /\
  ((s < Z.of_nat n)%Z -> x < IZR s).
Proof. exact (searchsorted_range 0 n x). Qed.

Lemma searchsorted_arange_at (n : nat) (k : Z) :
  (0 <= k < Z.of_nat n)%Z -> searchsorted_right (arange n) (IZR k) = (k + 1)%Z.
Proof.
  intros Hk. destruct (searchsorted_arange n (IZR k)) as (Hr & Hlo & Hhi).
  set (s := searchsorted_right (arange n) (IZR k)) in *.
  assert (Hle : (s <= k + 1)%Z).
  { destruct (Z.eq_dec s 0%Z); [lia|].
    assert (Hs : IZR (s - 1) <= IZR k) by (apply Hlo; lia).
    apply le_IZR in Hs. lia. }
  assert (Hge : (k + 1 <= s)%Z).
  { destruct (Z.eq_dec s (Z.of_nat n)); [lia|].
    assert (Hs : IZR k < IZR s) by (apply Hhi; lia).
    apply lt_IZR in Hs. lia. }
  lia.
Qed.

Lemma round_range (x : R) (n : Z) : 0 <= x <= IZR n -> (0 <= round x <= n)%Z.
Proof.
  intros [H0 Hn]. destruct (base_Int_part x) as [Hf1 Hf2].
  assert (Hlo : (0 <= Int_part x)%Z).
  { assert (H : IZR (-1) < IZR (Int_part x)) by (simpl; lra). apply lt_IZR in H. lia. }
  assert (Hhi : (Int_part x <= n)%Z) by (apply le_IZR; lra).
  assert (Hup : 0 < x - IZR (Int_part x) -> (Int_part x + 1 <= n)%Z).
  { intros Hd. assert (H : IZR (Int_part x) < IZR n) by lra. apply lt_IZR in H. lia. }
  unfold round, Rltb.
  destruct (Rlt_dec _ _) as [_|Hge]; [lia|].
  destruct (Rlt_dec _ _) as [Hgt|_]; [split; [lia|apply Hup; lra]|].
  destruct (Z.even _); [lia|]. split; [lia|apply Hup; lra].
Qed.
Lemma Int_part_between (x : R) (z : Z) : IZR z <= x < IZR z + 1 -> Int_part x = z.
Proof. intros H. symmetry. apply Int_part_spec. lra. Qed.

(** Half-way cases are rounded to the even neighbour. *)
Example round_half_even :
  round (1 / 2) = 0%Z /\ round (3 / 2) = 2%Z /\ round (5 / 2) = 2%Z /\
  round (7 / 4) = 2%Z /\ round (5 / 4) = 1%Z.
Proof.
  unfold round.
  rewrite (Int_part_between (1 / 2) 0), (Int_part_between (3 / 2) 1),
    (Int_part_between (5 / 2) 2), (Int_part_between (7 / 4) 1),
    (Int_part_between (5 / 4) 1) by lra.
  repeat split.
  - rewrite Rltb_false, Rltb_false by lra. reflexivity.
  - rewrite Rltb_false, Rltb_false by lra. reflexivity.
  - rewrite Rltb_false, Rltb_false by lra. reflexivity.
  - rewrite Rltb_false, Rltb_true by lra. reflexivity.
  - rewrite Rltb_true by lra. reflexivity.
Qed.

End TorchFacts.

Module InterpolateSpec.
Import Torch TorchFacts Interpolate.
Open Scope R_scope.

Lemma bracket_arange (n : nat) (x : R) :
  (2 <= n)%nat ->
  (1 <= bracket (arange n) x <= Z.of_nat n - 1)%Z.
Proof.
  intros Hn. unfold bracket, clip. rewrite length_arange. lia.
Qed.

Lemma divisor_arange (n : nat) (i : Z) :
  (1 <= i <= Z.of_nat n - 1)%Z -> divisor (arange n) i = Ok 1%Z.
Proof.
  intros Hi. unfold divisor.
  rewrite !index_arange by lia. cbn. f_equal. lia.
Qed.

(** The linear branch at one grid entry, with the indices resolved. *)
Lemma linear_at_bracket (fp : list R) (x : R) :
  (2 <= length fp)%nat ->
  exists a b : R,
    let i := bracket (arange (length fp)) x in
    fp !! Z.to_nat (i - 1) = Some a /\
    fp !! Z.to_nat i = Some b /\
    linear_at fp x = Ok ((a * (IZR i - x) + b * (x - IZR (i - 1))) / 1).
Proof.
  intros Hn. pose proof (bracket_arange (length fp) x Hn) as Hi.
  set (i := bracket (arange (length fp)) x) in *.
  destruct (lookup_lt_is_Some_2 fp (Z.to_nat (i - 1))) as [a Ha]; [lia|].
  destruct (lookup_lt_is_Some_2 fp (Z.to_nat i)) as [b Hb]; [lia|].
  exists a, b. cbv zeta. split; [exact Ha|]. split; [exact Hb|].
  unfold linear_at. fold i.
  rewrite (index_lookup fp (i - 1) a) by (lia || exact Ha).
  rewrite (index_lookup fp i b) by (lia || exact Hb).
  rewrite !index_arange by lia.
  rewrite divisor_arange by lia.
  reflexivity.
Qed.

(** A sequence of length one is the degenerate case: the clipped index is
    0, [i - 1] wraps to the same entry and the divisor is 0. *)
Lemma divisor_length_one (x : R) :
  bracket (arange 1) x = 0%Z /\ divisor (arange 1) 0 = Ok 0%Z.
Proof.
  split; [|reflexivity].
  unfold bracket, clip. rewrite length_arange.
  pose proof (searchsorted_arange 1 x) as (H & _). cbv zeta in H. lia.
Qed.

(** C8: in linear grid sampling the index array is the integer range
    [0, N), so for a sequence of length N >= 2 and any grid, increasing or
    not, the clipped index [i] of every grid entry lies in [1, N - 1], the
    divisor [xp[i] - xp[i - 1]] is exactly 1, which is not zero, and the
    sampling returns one value per grid entry without raising. *)
Theorem C8_linear_divisor_is_one (sequence grid : list R) :
  (2 <= length sequence)%nat ->
  (forall x : R,
      x ∈ grid ->
      let xp := arange (length sequence) in
      let i := bracket xp x in
      (1 <= i <= Z.of_nat (length sequence) - 1)%Z /\
      divisor xp i = Ok 1%Z /\
      (exists y : R, linear_at sequence x = Ok y)) /\
  IZR 1 <> 0 /\
  (forall ppgs_edit_grid_sample,
    exists out : list R,
      grid_sample ppgs_edit_grid_sample sequence grid "linear" = Ok out /\
      length out = length grid).
Proof.
  intros Hn. split; [|split].
  - intros x _. cbv zeta.
    pose proof (bracket_arange (length sequence) x Hn) as Hi.
    split; [exact Hi|]. split; [apply divisor_arange; exact Hi|].
    destruct (linear_at_bracket sequence x Hn) as (a & b & _ & _ & Heq).
    eexists. exact Heq.
  - lra.
  - intros sample. unfold grid_sample. cbn [String.eqb Ascii.eqb Bool.eqb].
    induction grid as [|x grid IH].
    + exists []. split; reflexivity.
    + destruct IH as (out & Hout & Hlen).
      destruct (linear_at_bracket sequence x Hn) as (a & b & _ & _ & Heq).
      eexists (_ :: out). cbn [for_each]. rewrite Heq, Hout. cbn.
      split; [reflexivity|]. rewrite Hlen. reflexivity.
Qed.

(** C5: sampling a sequence of length N >= 2 with the identity grid
    [0, 1, ..., N - 1] and the method 'linear' returns the sequence
    unchanged. *)
Theorem C5_identity_grid (ppgs_edit_grid_sample : list R -> list R -> result (list R))
  (sequence : list R) :
  (2 <= length sequence)%nat ->
  grid_sample ppgs_edit_grid_sample sequence
    (map IZR (arange (length sequence))) "linear" = Ok sequence.
Proof.
  intros Hn. unfold grid_sample. cbn [String.eqb Ascii.eqb Bool.eqb].
  apply for_each_lookup.
  - rewrite length_map, length_arange. reflexivity.
  - intros k x y Hx Hy.
    pose proof (lookup_lt_Some _ _ _ Hy) as Hk.
    rewrite list_lookup_fmap, arange_lookup in Hx by exact Hk.
    injection Hx as <-.
    destruct (linear_at_bracket sequence (IZR (Z.of_nat k)) Hn)
      as (a & b & Ha & Hb & ->).
    unfold bracket in Ha, Hb |- *.
    rewrite length_arange, searchsorted_arange_at in Ha, Hb |- * by lia.
    unfold clip in Ha, Hb |- *. f_equal.
    destruct (Z.le_gt_cases (Z.of_nat k + 1) (Z.of_nat (length sequence) - 1))
      as [Hlt|Hlast].
    + replace (Z.min (Z.max (Z.of_nat k + 1) 1) (Z.of_nat (length sequence) - 1))
        with (Z.of_nat k + 1)%Z in * by lia.
      replace (Z.to_nat (Z.of_nat k + 1 - 1)) with k in Ha by lia.
      rewrite Hy in Ha. injection Ha as <-.
      rewrite plus_IZR, minus_IZR, plus_IZR. field.
    + replace (Z.min (Z.max (Z.of_nat k + 1) 1) (Z.of_nat (length sequence) - 1))
        with (Z.of_nat k) in * by lia.
      rewrite Nat2Z.id, Hy in Hb. injection Hb as <-.
      rewrite minus_IZR. field.
Qed.

Lemma linear_at_constant (c : R) (n : nat) (x : R) :
  (2 <= n)%nat -> linear_at (replicate n c) x = Ok c.
Proof.
  intros Hn.
  destruct (linear_at_bracket (replicate n c) x) as (a & b & Ha & Hb & ->);
    [rewrite length_replicate; exact Hn|].
  apply lookup_replicate in Ha as [-> _].
  apply lookup_replicate in Hb as [-> _].
  f_equal. rewrite minus_IZR. field.
Qed.

Lemma nearest_at_constant (c : R) (n : nat) (x : R) :
  0 <= x <= IZR (Z.of_nat n - 1) -> nearest_at (replicate n c) x = Ok c.
Proof.
  intros Hx. pose proof (round_range x _ Hx) as Hr.
  unfold nearest_at. apply index_lookup; [lia|].
  apply lookup_replicate_2. lia.
Qed.


Lemma log2_double (x : R) : 0 < x -> log2 (2 * x) = 1 + log2 x.
Proof.
  intros Hx. unfold log2. rewrite ln_mult by lra.
  assert (H2 : ln 2 <> 0).
  { rewrite <- ln_1. intros H. apply ln_inv in H; lra. }
  field. exact H2.
Qed.

Lemma exp2_log2 (x : R) : 0 < x -> exp2 (log2 x) = x.
Proof.
  intros Hx. unfold exp2, log2, Rpower.
  assert (H2 : ln 2 <> 0).
  { rewrite <- ln_1. intros H. apply ln_inv in H; lra. }
  replace (ln x / ln 2 * ln 2) with (ln x) by (field; exact H2).
  apply exp_ln, Hx.
Qed.

Lemma exp2_half_bounds : 14142 / 10000 < exp2 (1 / 2) < 14143 / 10000.
Proof.
  unfold exp2. replace (1 / 2) with (/ 2) by lra.
  rewrite Rpower_sqrt by lra.
  split.
  - replace (14142 / 10000) with (sqrt ((14142 / 10000) * (14142 / 10000)))
      by (apply sqrt_square; lra).
    apply sqrt_lt_1_alt. lra.
  - replace (14143 / 10000) with (sqrt ((14143 / 10000) * (14143 / 10000)))
      by (apply sqrt_square; lra).
    apply sqrt_lt_1_alt. lra.
Qed.

(** Between two frames the pitch is interpolated geometrically. *)
Lemma exp2_linear (a b t : R) :
  0 < a -> 0 < b ->
  exp2 ((log2 a * (1 - t) + log2 b * t) / 1) = Rpower a (1 - t) * Rpower b t.
Proof.
  intros Ha Hb.
  assert (H2 : ln 2 <> 0).
  { rewrite <- ln_1. intros H. apply ln_inv in H; lra. }
  unfold exp2, log2, Rpower. rewrite <- exp_plus. f_equal. field. exact H2.
Qed.

(** C4: [pitch(sequence, grid)] is two raised to the linear grid sample of
    the base-2 logarithm of the sequence; interpolating [100, 200] at the
    grid point 0.5 yields 100 * 2^0.5, which lies between 141.42 and 141.43
    and is not the arithmetic mean 150. *)
Theorem C4_pitch_log_linear
  (ppgs_edit_grid_sample : list R -> list R -> result (list R)) :
  (forall sequence grid : list R,
      pitch ppgs_edit_grid_sample sequence grid
      = map exp2 <$>
          grid_sample ppgs_edit_grid_sample (map log2 sequence) grid "linear") /\
  pitch ppgs_edit_grid_sample [100; 200] [1 / 2] = Ok [100 * exp2 (1 / 2)] /\
  14142 / 100 < 100 * exp2 (1 / 2) < 14143 / 100 /\
  100 * exp2 (1 / 2) <> 150.
Proof.
  pose proof exp2_half_bounds as Hb.
  split; [reflexivity|]. split; [|split; [lra|lra]].
  unfold pitch, grid_sample. cbn [String.eqb Ascii.eqb Bool.eqb map for_each].
  destruct (linear_at_bracket [log2 100; log2 200] (1 / 2))
    as (a & b & Ha & Hb' & ->); [simpl; lia|].
  unfold bracket in Ha, Hb' |- *.
  cbn [length arange seq map searchsorted_right] in Ha, Hb' |- *.
  change (Z.of_nat 0) with 0%Z in Ha, Hb' |- *.
  change (Z.of_nat 1) with 1%Z in Ha, Hb' |- *.
  rewrite (Rleb_true 0), (Rleb_false 1) in Ha, Hb' |- * by lra.
  change (clip (1 + 0) 1 (Z.of_nat 2 - 1)) with 1%Z in Ha, Hb' |- *.
  change (Z.to_nat (1 - 1)) with 0%nat in Ha.
  change (Z.to_nat 1) with 1%nat in Hb'.
  injection Ha as <-. injection Hb' as <-.
  change (1 - 1)%Z with 0%Z.
  cbn [fmap result_fmap mbind result_bind map]. do 2 f_equal.
  replace 200 with (2 * 100) by lra. rewrite log2_double by lra.
  match goal with
  | |- exp2 ?e = _ => replace e with (log2 100 + 1 / 2) by field
  end.
  unfold exp2 at 1. rewrite Rpower_plus. fold (exp2 (log2 100)) (exp2 (1 / 2)).
  rewrite exp2_log2 by lra. reflexivity.
Qed.
Lemma C8_witness :
  (2 <= length [1; 2; 4])%nat /\
  exists out : list R,
    grid_sample Example.first_frame [1; 2; 4] [2; 0; 2; 1 / 2] "linear" = Ok out /\
    length out = length [2; 0; 2; 1 / 2].
Proof.
  assert (H : (2 <= length [1; 2; 4])%nat) by (simpl; lia).
  split; [exact H|].
  exact (proj2 (proj2 (C8_linear_divisor_is_one [1; 2; 4] [2; 0; 2; 1 / 2] H))
           Example.first_frame).
Defined.

Lemma C5_witness :
  (2 <= length [3; 5; 4])%nat /\
  grid_sample Example.first_frame [3; 5; 4] (map IZR (arange 3)) "linear"
  = Ok [3; 5; 4].
Proof.
  assert (H : (2 <= length [3; 5; 4])%nat) by (simpl; lia).
  split; [exact H|].
  exact (C5_identity_grid Example.first_frame [3; 5; 4] H).
Defined.


End InterpolateSpec.

(* ===================================================================== *)
(** * Facts about strings, paths and files *)
(* ===================================================================== *)

Module PyStrFacts.
Import PyStr.

Lemma append_nil (b : string) : "" +:+ b = b.
Proof. reflexivity. Qed.

Lemma append_cons (x : ascii) (a b : string) :
  String x a +:+ b = String x (a +:+ b).
Proof. reflexivity. Qed.

Lemma append_assoc (a b c : string) : (a +:+ b) +:+ c = a +:+ (b +:+ c).
Proof.
  induction a as [|x a IH]; [reflexivity|].
  rewrite !append_cons, IH. reflexivity.
Qed.

Lemma append_inj_r (a b c : string) : a +:+ b = a +:+ c -> b = c.
Proof.
  induction a as [|x a IH]; intros H; [exact H|].
  rewrite !append_cons in H. injection H as H. apply IH, H.
Qed.

Lemma length_append (a b : string) :
  String.length (a +:+ b) = (String.length a + String.length b)%nat.
Proof.
  induction a as [|x a IH]; [reflexivity|].
  rewrite append_cons. cbn [String.length]. rewrite IH. reflexivity.
Qed.

Lemma contains_digits (c : ascii) (s : string) :
  is_digit c = false -> all_digits s = true -> contains c s = false.
Proof.
  intros Hc. induction s as [|a s IH]; cbn [contains all_digits]; [reflexivity|].
  intros H. apply andb_prop in H as [Ha Hs].
  rewrite (IH Hs), orb_false_r.
  destruct (Ascii.eqb_spec a c) as [->|_]; [congruence|reflexivity].
Qed.

Lemma prefix_head (c a : ascii) (old s : string) :
  Ascii.eqb a c = false -> String.prefix (String c old) (String a s) = false.
Proof.
  intros H. cbn [String.prefix]. destruct (ascii_dec c a) as [->|_]; [|reflexivity].
  rewrite Ascii.eqb_refl in H. discriminate.
Qed.

(** A replacement starts after a prefix in which the first character of
    the pattern does not occur. *)
Lemma replace_skip (c : ascii) (old new s1 s2 : string) :
  contains c s1 = false ->
  replace (String c old) new (s1 +:+ s2) = s1 +:+ replace (String c old) new s2.
Proof.
  unfold replace. induction s1 as [|a s1 IH]; intros H; [reflexivity|].
  cbn [contains] in H. apply orb_false_elim in H as [Ha Hs].
  rewrite !append_cons.
  cbn [replace_from]. rewrite (prefix_head c a old _ Ha).
  rewrite (IH Hs). reflexivity.
Qed.

Lemma rfind_skip (c : ascii) (s1 s2 : string) (j : nat) :
  rfind c s2 = Some j -> rfind c (s1 +:+ s2) = Some (String.length s1 + j)%nat.
Proof.
  intros H. induction s1 as [|a s1 IH]; [exact H|].
  rewrite append_cons. cbn [rfind String.length]. rewrite IH. reflexivity.
Qed.

Lemma take_append (s1 s2 : string) (j : nat) :
  take (String.length s1 + j) (s1 +:+ s2) = s1 +:+ take j s2.
Proof.
  unfold take. induction s1 as [|a s1 IH]; [reflexivity|].
  rewrite !append_cons. cbn [String.length Nat.add substring].
  rewrite IH. reflexivity.
Qed.

Lemma take_length (s1 s2 : string) : take (String.length s1) (s1 +:+ s2) = s1.
Proof.
  unfold take. induction s1 as [|a s1 IH].
  - rewrite append_nil. destruct s2; reflexivity.
  - rewrite append_cons. cbn [String.length substring]. rewrite IH. reflexivity.
Qed.

Example replace_examples :
  replace "pitch" "loudness" "000001-original-100-pitch.pt"
    = "000001-original-100-loudness.pt" /\
  replace "shifted-050" "original-100" "000001-original-100-pitch.pt"
    = "000001-original-100-pitch.pt" /\
  replace "aa" "b" "aaaaa" = "bba".
Proof. repeat split; reflexivity. Qed.

Example split_join_example :
  PyStr.join "-" (firstn 2 (skipn 1 (split "-" "000001-shifted-071")))
  = "shifted-071".
Proof. reflexivity. Qed.

Example format_03d_examples :
  map format_03d [5; 50; 141; 1000; -5]%Z = ["005"; "050"; "141"; "1000"; "-05"].
Proof. reflexivity. Qed.

End PyStrFacts.

Module PathlibFacts.
Import PyStr PyStrFacts Pathlib.

Lemma name_join (p : Path) (nm : string) : name (p // nm) = nm.
Proof. unfold name, join. apply last_last. Qed.

Lemma parent_join (p : Path) (nm : string) : parent (p // nm) = p.
Proof. unfold parent, join. apply removelast_last. Qed.

Lemma join_ne (p q : Path) (a b : string) : a <> b -> p // a <> q // b.
Proof. unfold join. intros H E. apply app_inj_tail in E as [_ E]. exact (H E). Qed.

Lemma join_name_ne (p q : Path) (s a b : string) :
  a <> b -> p // (s +:+ a) <> q // (s +:+ b).
Proof. intros H. apply join_ne. intros E. apply append_inj_r in E. exact (H E). Qed.

(** The stem of [s1 ++ s2] when the last dot is in [s2]. *)
Lemma stem_of_name_append (s1 s2 : string) (j : nat) :
  rfind "." s2 = Some j ->
  (0 <? String.length s1 + j)%nat = true ->
  (j <? String.length s2 - 1)%nat = true ->
  stem_of_name (s1 +:+ s2) = s1 +:+ take j s2.
Proof.
  intros Hj H0 H1. unfold stem_of_name, suffix_index.
  rewrite (rfind_skip _ s1 s2 j Hj), H0.
  rewrite length_append.
  apply Nat.ltb_lt in H1.
  destruct (Nat.ltb_spec (String.length s1 + j) (String.length s1 + String.length s2 - 1)) as [_|H];
    [|lia].
  cbn [andb]. apply take_append.
Qed.
Lemma rfind_absent (c : ascii) (s : string) :
  contains c s = false -> rfind c s = None.
Proof.
  induction s as [|a s IH]; [reflexivity|].
  cbn [contains rfind]. intros H. apply orb_false_elim in H as [Ha Hs].
  rewrite (IH Hs), Ha. reflexivity.
Qed.

(** A name without a dot is its own stem. *)
Lemma stem_of_name_plain (nm : string) :
  contains "." nm = false -> stem_of_name nm = nm.
Proof.
  intros H. unfold stem_of_name, suffix_index.
  rewrite (rfind_absent _ _ H). reflexivity.
Qed.

Example stem_examples :
  map stem_of_name ["000001-original-100-pitch.pt"; "a.b.c"; ".hidden"; "abc."; "abc"]
  = ["000001-original-100-pitch"; "a.b"; ".hidden"; "abc."; "abc"].
Proof. reflexivity. Qed.

Example with_suffix_example :
  with_suffix ["eval"; "000001-original-100-text.pt"] ".txt"
  = ["eval"; "000001-original-100-text.txt"].
Proof. reflexivity. Qed.

End PathlibFacts.

Module FilesFacts.
Import Pathlib Files.

Lemma copyfile_ok (src dst : Path) (c : Content) (fs : FS) :
  fs !! src = Some c -> src <> dst -> copyfile src dst fs = Ok (<[dst := c]> fs).
Proof.
  intros H Hne. unfold copyfile. rewrite H.
  destruct (decide (src = dst)); [contradiction|reflexivity].
Qed.

(** A loop of copies whose destinations are pairwise distinct and differ
    from every source: each destination ends up with the content its
    source had at the start, and no other path changes. *)
Lemma copy_loop (body : string -> FS -> result FS) (inp out : string -> Path)
  (features : list string) (fs : FS) :
  (forall f fs0, f ∈ features -> body f fs0 = copyfile (inp f) (out f) fs0) ->
  (forall f, f ∈ features -> is_Some (fs !! inp f)) ->
  (forall f g, f ∈ features -> g ∈ features -> inp f <> out g) ->
  NoDup (map out features) ->
  exists fs' : FS,
    for_fold body features fs = Ok fs' /\
    (forall f, f ∈ features -> fs' !! out f = fs !! inp f) /\
    (forall p, (forall f, f ∈ features -> p <> out f) -> fs' !! p = fs !! p).
Proof.
  revert fs. induction features as [|f features IH]; intros fs Hbody Hin Hio Hnd.
  - exists fs. split; [reflexivity|]. split; [|reflexivity].
    intros f Hf. apply elem_of_nil in Hf as [].
  - destruct (Hin f) as [c Hc]; [apply list_elem_of_here|].
    assert (Hstep : body f fs = Ok (<[out f := c]> fs)).
    { rewrite Hbody by apply list_elem_of_here.
      apply copyfile_ok; [exact Hc|].
      apply Hio; apply list_elem_of_here. }
    cbn [map] in Hnd. apply NoDup_cons in Hnd as [Hfresh Hnd].
    destruct (IH (<[out f := c]> fs)) as (fs' & Hrun & Hcopied & Hother).
    + intros g fs0 Hg. apply Hbody, list_elem_of_further, Hg.
    + intros g Hg. rewrite lookup_insert_ne.
      * apply Hin, list_elem_of_further, Hg.
      * intros E. apply (Hio g f); [apply list_elem_of_further, Hg|apply list_elem_of_here|].
        symmetry. exact E.
    + intros g h Hg Hh. apply Hio; apply list_elem_of_further; assumption.
    + exact Hnd.
    + exists fs'. split; [|split].
      * cbn [for_fold]. rewrite Hstep. exact Hrun.
      * intros g Hg. apply elem_of_cons in Hg as [->|Hg].
        -- rewrite Hother.
           ++ rewrite lookup_insert_eq. symmetry. exact Hc.
           ++ intros h Hh E. apply Hfresh. rewrite E.
              apply list_elem_of_fmap. exists h. split; [reflexivity|exact Hh].
        -- rewrite (Hcopied g Hg). apply lookup_insert_ne.
           intros E. apply (Hio g f); [apply list_elem_of_further, Hg|apply list_elem_of_here|].
           symmetry. exact E.
      * intros p Hp. rewrite Hother.
        -- apply lookup_insert_ne. intros E. apply (Hp f); [apply list_elem_of_here|].
           symmetry. exact E.
        -- intros g Hg. apply Hp, list_elem_of_further, Hg.
Qed.
(** A tensor is saved and a loop of copies follows: the saved tensor and
    the sources of the copies are still there at the end. *)
Lemma save_then_copy (body : string -> FS -> result FS)
  (inp out : string -> Path) (features : list string)
  (target : Path) (t : list R) (fs : FS) :
  (forall f fs0, f ∈ features -> body f fs0 = copyfile (inp f) (out f) fs0) ->
  (forall f, f ∈ features -> is_Some (fs !! inp f)) ->
  (forall f g, f ∈ features -> g ∈ features -> inp f <> out g) ->
  (forall f, f ∈ features -> target <> inp f /\ target <> out f) ->
  NoDup (map out features) ->
  exists fs' : FS,
    for_fold body features (torch_save t target fs) = Ok fs' /\
    fs' !! target = Some (Tensor t) /\
    (forall f, f ∈ features -> fs' !! out f = fs !! inp f) /\
    (forall p, p <> target -> (forall f, f ∈ features -> p <> out f) ->
               fs' !! p = fs !! p).
Proof.
  intros Hbody Hin Hio Htarget Hnd.
  destruct (copy_loop body inp out features (torch_save t target fs))
    as (fs' & Hrun & Hcopied & Hother); try assumption.
  - intros f Hf. unfold torch_save. rewrite lookup_insert_ne.
    + apply Hin, Hf.
    + apply (Htarget f Hf).
  - exists fs'. split; [exact Hrun|]. split; [|split].
    + rewrite Hother.
      * apply lookup_insert_eq.
      * intros f Hf. apply (Htarget f Hf).
    + intros f Hf. rewrite (Hcopied f Hf). apply lookup_insert_ne.
      apply (Htarget f Hf).
    + intros p Hp Hout. rewrite (Hother p Hout). apply lookup_insert_ne.
      congruence.
Qed.

End FilesFacts.

(* ===================================================================== *)
(** * The proofs for [promovits/evaluate] *)
(* ===================================================================== *)

Module ConditionsSpec.
Import PyStr PyStrFacts Pathlib PathlibFacts Files FilesFacts Torch TorchFacts Evaluate.

(** Evaluate the calls of [replace] whose subject is closed. *)
Ltac eval_closed stem :=
  repeat match goal with
    | |- context [replace ?a ?b ?c] =>
        lazymatch c with
        | context [stem] => fail
        | _ => let v := eval vm_compute in (replace a b c) in
               change (replace a b c) with v
        end
    end.

(** Move a replacement past the digits of the stem. *)
Ltac skip_stem Hdigits :=
  rewrite replace_skip by (apply contains_digits; [reflexivity|exact Hdigits]).

(** The stem of a name that is the digits [stem] followed by a closed
    tail. *)
Ltac stem_of_tail :=
  erewrite stem_of_name_append;
  [ | vm_compute; reflexivity | apply Nat.ltb_lt; lia | vm_compute; reflexivity ].

(** Split a membership in a list that is written out. *)
Ltac in_cases H :=
  rewrite !elem_of_cons, elem_of_nil in H;
  repeat (destruct H as [->|H]); [..|destruct H].

(** The names that the two loops compute for a copied feature. *)
Ltac copy_names stem Hdigits :=
  f_equal; f_equal;
  [ skip_stem Hdigits; eval_closed stem; skip_stem Hdigits; eval_closed stem;
    stem_of_tail; rewrite append_assoc; reflexivity
  | skip_stem Hdigits; eval_closed stem;
    stem_of_tail; rewrite append_assoc; reflexivity ].

Example percent_RATIOS : map Evaluate.percent RATIOS = ["050"; "071"; "141"; "200"].
Proof. reflexivity. Qed.

Lemma shifted_key_cases (ratio : Q) :
  ratio ∈ RATIOS -> "shifted-" +:+ percent ratio ∈ shifted_keys.
Proof.
  unfold RATIOS, shifted_keys. intros H.
  in_cases H; repeat first [apply list_elem_of_here | apply list_elem_of_further].
Qed.

Lemma scaled_key_cases (ratio : Q) :
  ratio ∈ RATIOS -> "scaled-" +:+ percent ratio ∈ scaled_keys.
Proof.
  unfold RATIOS, scaled_keys. intros H.
  in_cases H; repeat first [apply list_elem_of_here | apply list_elem_of_further].
Qed.

Lemma ratio_positive (ratio : Q) : ratio ∈ RATIOS -> (0 < Q2R ratio)%R.
Proof.
  unfold RATIOS. intros H. in_cases H; unfold Q2R; cbn; lra.
Qed.

Lemma shifted_tail_inj (f g : string) :
  f ∈ shifted_features -> g ∈ shifted_features ->
  f +:+ feature_suffix f = g +:+ feature_suffix g -> f = g.
Proof.
  unfold shifted_features. intros Hf Hg.
  in_cases Hf; in_cases Hg; intros E; first [reflexivity | discriminate E].
Qed.

Lemma scaled_tail_inj (f g : string) :
  f ∈ scaled_features -> g ∈ scaled_features ->
  f +:+ feature_suffix f = g +:+ feature_suffix g -> f = g.
Proof.
  unfold scaled_features. intros Hf Hg.
  in_cases Hf; in_cases Hg; intros E; first [reflexivity | discriminate E].
Qed.

(** The two masked assignments of lines 162 and 163 on one element. *)
Lemma clip_element (FMIN FMAX y : R) :
  (FMIN <= FMAX)%R ->
  let low := if Rltb y FMIN then FMIN else y in
  let w := if Rltb FMAX low then FMAX else low in
  ((y < FMIN)%R -> w = FMIN) /\
  ((FMAX < y)%R -> w = FMAX) /\
  ((FMIN <= y <= FMAX)%R -> w = y) /\
  (FMIN <= w <= FMAX)%R.
Proof.
  intros H. cbv zeta. unfold Rltb.
  destruct (Rlt_dec y FMIN); destruct (Rlt_dec FMAX _); repeat split; intros; lra.
Qed.

Lemma ln_2_pos : (0 < ln 2)%R.
Proof. rewrite <- ln_1. apply ln_increasing; lra. Qed.

Lemma log2_pos (r : R) : (1 < r)%R -> (0 < log2 r)%R.
Proof.
  intros H. unfold log2. apply Rdiv_lt_0_compat; [|apply ln_2_pos].
  rewrite <- ln_1. apply ln_increasing; lra.
Qed.

Lemma log2_neg (r : R) : (0 < r < 1)%R -> (log2 r < 0)%R.
Proof.
  intros H. unfold log2. pose proof ln_2_pos as H2.
  assert (Hr : (ln r < 0)%R) by (rewrite <- ln_1; apply ln_increasing; lra).
  unfold Rdiv. pose proof (Rinv_0_lt_compat _ H2) as Hi. nra.
Qed.

Section Utterance.

(** The files of one utterance: its stem is six digits, its original
    features are in [directory], and the derived conditions go to
    [condition]. *)
Variable stem : string.
Hypothesis stem_digits : all_digits stem = true.
Hypothesis stem_length : String.length stem = 6%nat.
Variables directory original_objective_directory : Path.

Let condition : Path := original_objective_directory // name directory.

Let original_name (feature : string) : string :=
  stem +:+ "-original-100-" +:+ feature +:+ feature_suffix feature.
Let condition_name (key feature : string) : string :=
  stem +:+ "-" +:+ key +:+ "-" +:+ feature +:+ feature_suffix feature.

Lemma shift_copy_names (key feature : string) (fs : FS) :
  key ∈ shifted_keys -> feature ∈ shifted_features ->
  shift_copy key (directory // (stem +:+ "-original-100-pitch.pt"))
    (condition // (stem +:+ "-" +:+ key +:+ "-pitch.pt")) feature fs
  = copyfile (directory // original_name feature)
      (condition // condition_name key feature) fs.
Proof.
  unfold shifted_keys, shifted_features, original_name, condition_name.
  intros Hkey Hfeature.
  unfold shift_copy, with_suffix, Pathlib.stem.
  rewrite !name_join, !parent_join.
  in_cases Hkey; in_cases Hfeature; copy_names stem stem_digits.
Qed.

Lemma scale_copy_names (key feature : string) (fs : FS) :
  key ∈ scaled_keys -> feature ∈ scaled_features ->
  scale_copy key (directory // (stem +:+ "-original-100-loudness.pt"))
    (condition // (stem +:+ "-" +:+ key +:+ "-loudness.pt")) feature fs
  = copyfile (directory // original_name feature)
      (condition // condition_name key feature) fs.
Proof.
  unfold scaled_keys, scaled_features, original_name, condition_name.
  intros Hkey Hfeature.
  unfold scale_copy, with_suffix, Pathlib.stem.
  rewrite !name_join, !parent_join.
  in_cases Hkey; in_cases Hfeature; copy_names stem stem_digits.
Qed.

(** No file of a derived condition has the name of an original file. *)
Lemma original_ne_condition (key tail tail' : string) :
  key ∈ (shifted_keys ++ scaled_keys)%list ->
  stem +:+ "-original-100-" +:+ tail <> stem +:+ "-" +:+ key +:+ tail'.
Proof.
  unfold shifted_keys, scaled_keys. cbn [app]. intros Hkey E.
  apply append_inj_r in E. in_cases Hkey; discriminate E.
Qed.

Lemma condition_names_NoDup (key : string) (features : list string) :
  NoDup features ->
  (forall f g, f ∈ features -> g ∈ features ->
               f +:+ feature_suffix f = g +:+ feature_suffix g -> f = g) ->
  NoDup (map (fun f => condition // condition_name key f) features).
Proof.
  intros Hnd Hinj. apply NoDup_fmap_2_strong; [|exact Hnd].
  intros f g Hf Hg E. apply app_inj_tail in E as [_ E].
  unfold condition_name in E. do 4 apply append_inj_r in E.
  exact (Hinj f g Hf Hg E).
Qed.

Lemma shifted_file_name (ratio : Q) :
  shifted_file original_objective_directory ratio
    (directory // (stem +:+ "-original-100-pitch.pt"))
  = condition //
      (stem +:+ "-" +:+ ("shifted-" +:+ percent ratio) +:+ "-pitch.pt").
Proof.
  unfold shifted_file, Pathlib.stem.
  rewrite name_join, parent_join. stem_of_tail.
  rewrite <- stem_length, take_length. reflexivity.
Qed.

Lemma scaled_file_name (ratio : Q) :
  scaled_file original_objective_directory ratio
    (directory // (stem +:+ "-original-100-loudness.pt"))
  = condition //
      (stem +:+ "-" +:+ ("scaled-" +:+ percent ratio) +:+ "-loudness.pt").
Proof.
  unfold scaled_file, Pathlib.stem.
  rewrite name_join, parent_join. stem_of_tail.
  rewrite <- stem_length, take_length. reflexivity.
Qed.

(** C3: for every ratio of the ratio set and every original pitch file
    (a stem of six digits followed by [-original-100-pitch.pt]), the loop
    body persists, under the key [shifted-<percent>], the original contour
    multiplied elementwise by the ratio, with every element below FMIN
    replaced by exactly FMIN and every element above FMAX by exactly FMAX,
    so that every persisted element lies in [FMIN, FMAX]; the loudness,
    periodicity, phonemes, text and voicing files of the condition hold what
    the files of the original hold, and no other file changes.
    FMIN <= FMAX is assumed of the two module constants. *)
Theorem C3_pitch_shift (FMIN FMAX : R) (ratio : Q) (original : list R)
  (fs : FS) :
  (FMIN <= FMAX)%R ->
  ratio ∈ RATIOS ->
  fs !! (directory // (stem +:+ "-original-100-pitch.pt"))
    = Some (Tensor original) ->
  (forall feature : string,
      feature ∈ ["loudness"; "periodicity"; "phonemes"; "text"; "voicing"] ->
      is_Some (fs !! (directory //
        (stem +:+ "-original-100-" +:+ feature +:+ feature_suffix feature)))) ->
  let key := "shifted-" +:+ percent ratio in
  exists (fs' : FS) (shifted : list R),
    shift_file FMIN FMAX original_objective_directory ratio
      (directory // (stem +:+ "-original-100-pitch.pt")) fs = Ok fs' /\
    fs' !! (condition // (stem +:+ "-" +:+ key +:+ "-pitch.pt"))
      = Some (Tensor shifted) /\
    length shifted = length original /\
    (forall (k : nat) (x : R),
        original !! k = Some x ->
        exists y : R,
          shifted !! k = Some y /\
          ((Q2R ratio * x < FMIN)%R -> y = FMIN) /\
          ((FMAX < Q2R ratio * x)%R -> y = FMAX) /\
          ((FMIN <= Q2R ratio * x <= FMAX)%R -> y = (Q2R ratio * x)%R) /\
          (FMIN <= y <= FMAX)%R) /\
    (forall feature : string,
        feature ∈ ["loudness"; "periodicity"; "phonemes"; "text"; "voicing"] ->
        fs' !! (condition //
                  (stem +:+ "-" +:+ key +:+ "-" +:+ feature +:+
                     feature_suffix feature))
        = fs !! (directory //
                  (stem +:+ "-original-100-" +:+ feature +:+
                     feature_suffix feature))) /\
    (forall p : Path,
        p <> condition // (stem +:+ "-" +:+ key +:+ "-pitch.pt") ->
        (forall feature : string,
            feature ∈ ["loudness"; "periodicity"; "phonemes"; "text"; "voicing"] ->
            p <> condition //
                   (stem +:+ "-" +:+ key +:+ "-" +:+ feature +:+
                      feature_suffix feature)) ->
        fs' !! p = fs !! p).
Proof.
  intros Hrange Hratio Hpitch Hfeatures key.
  pose proof (shifted_key_cases ratio Hratio) as Hkey. fold key in Hkey.
  assert (Hkey' : key ∈ (shifted_keys ++ scaled_keys)%list)
    by (apply elem_of_app; left; exact Hkey).
  unfold shift_file. rewrite shifted_file_name. fold key.
  unfold torch_load. rewrite Hpitch. cbn [mbind result_bind].
  set (shifted :=
         masked_assign (fun x => Rltb FMAX x) FMAX
           (masked_assign (fun x => Rltb x FMIN) FMIN
              (map (Rmult (Q2R ratio)) original))).
  destruct (save_then_copy
              (shift_copy key (directory // (stem +:+ "-original-100-pitch.pt"))
                 (condition // (stem +:+ "-" +:+ key +:+ "-pitch.pt")))
              (fun f => directory // original_name f)
              (fun f => condition // condition_name key f)
              shifted_features
              (condition // (stem +:+ "-" +:+ key +:+ "-pitch.pt"))
              shifted fs)
    as (fs' & Hrun & Hsaved & Hcopied & Hother).
  - intros f fs0 Hf. apply shift_copy_names; assumption.
  - exact Hfeatures.
  - intros f g _ _. apply join_ne, original_ne_condition, Hkey'.
  - intros f Hf. split; apply join_ne.
    + intros E. symmetry in E. revert E. apply original_ne_condition, Hkey'.
    + intros E. unfold condition_name in E. do 3 apply append_inj_r in E.
      unfold shifted_features in Hf. in_cases Hf; discriminate E.
  - apply condition_names_NoDup.
    + unfold shifted_features. apply NoDup_ListNoDup.
      repeat constructor; cbn; intuition discriminate.
    + exact shifted_tail_inj.
  - exists fs', shifted. split; [exact Hrun|]. split; [exact Hsaved|].
    split; [|split; [|split; [exact Hcopied|exact Hother]]].
    + unfold shifted, masked_assign. rewrite !length_map. reflexivity.
    + intros k x Hx. unfold shifted, masked_assign.
      rewrite !list_lookup_fmap, Hx. cbn [fmap option_fmap option_map].
      eexists. split; [reflexivity|].
      apply (clip_element FMIN FMAX (Q2R ratio * x)%R Hrange).
Qed.

(** C7: for every ratio of the ratio set and every original loudness file
    (a stem of six digits followed by [-original-100-loudness.pt]), the
    loop body persists, under the key [scaled-<percent>], the original
    contour with 10 * log2(ratio) added to every element, which raises it
    for a ratio above 1 and lowers it for a ratio below 1; the periodicity,
    phonemes, pitch, text and voicing files of the condition hold what the
    files of the original hold, and no other file changes. *)
Theorem C7_loudness_scale (ratio : Q) (original : list R) (fs : FS) :
  ratio ∈ RATIOS ->
  fs !! (directory // (stem +:+ "-original-100-loudness.pt"))
    = Some (Tensor original) ->
  (forall feature : string,
      feature ∈ ["periodicity"; "phonemes"; "pitch"; "text"; "voicing"] ->
      is_Some (fs !! (directory //
        (stem +:+ "-original-100-" +:+ feature +:+ feature_suffix feature)))) ->
  let key := "scaled-" +:+ percent ratio in
  exists (fs' : FS) (scaled : list R),
    scale_file original_objective_directory ratio
      (directory // (stem +:+ "-original-100-loudness.pt")) fs = Ok fs' /\
    fs' !! (condition // (stem +:+ "-" +:+ key +:+ "-loudness.pt"))
      = Some (Tensor scaled) /\
    length scaled = length original /\
    (forall (k : nat) (x : R),
        original !! k = Some x ->
        exists y : R,
          scaled !! k = Some y /\
          y = (x + 10 * log2 (Q2R ratio))%R /\
          ((1 < Q2R ratio)%R -> (x < y)%R) /\
          ((Q2R ratio < 1)%R -> (y < x)%R)) /\
    (forall feature : string,
        feature ∈ ["periodicity"; "phonemes"; "pitch"; "text"; "voicing"] ->
        fs' !! (condition //
                  (stem +:+ "-" +:+ key +:+ "-" +:+ feature +:+
                     feature_suffix feature))
        = fs !! (directory //
                  (stem +:+ "-original-100-" +:+ feature +:+
                     feature_suffix feature))) /\
    (forall p : Path,
        p <> condition // (stem +:+ "-" +:+ key +:+ "-loudness.pt") ->
        (forall feature : string,
            feature ∈ ["periodicity"; "phonemes"; "pitch"; "text"; "voicing"] ->
            p <> condition //
                   (stem +:+ "-" +:+ key +:+ "-" +:+ feature +:+
                      feature_suffix feature)) ->
        fs' !! p = fs !! p).
Proof.
  intros Hratio Hloud Hfeatures key.
  pose proof (scaled_key_cases ratio Hratio) as Hkey. fold key in Hkey.
  pose proof (ratio_positive ratio Hratio) as Hpos.
  assert (Hkey' : key ∈ (shifted_keys ++ scaled_keys)%list)
    by (apply elem_of_app; right; exact Hkey).
  unfold scale_file. rewrite scaled_file_name. fold key.
  unfold torch_load. rewrite Hloud. cbn [mbind result_bind].
  set (scaled := map (Rplus (10 * log2 (Q2R ratio))) original).
  destruct (save_then_copy
              (scale_copy key (directory // (stem +:+ "-original-100-loudness.pt"))
                 (condition // (stem +:+ "-" +:+ key +:+ "-loudness.pt")))
              (fun f => directory // original_name f)
              (fun f => condition // condition_name key f)
              scaled_features
              (condition // (stem +:+ "-" +:+ key +:+ "-loudness.pt"))
              scaled fs)
    as (fs' & Hrun & Hsaved & Hcopied & Hother).
  - intros f fs0 Hf. apply scale_copy_names; assumption.
  - exact Hfeatures.
  - intros f g _ _. apply join_ne, original_ne_condition, Hkey'.
  - intros f Hf. split; apply join_ne.
    + intros E. symmetry in E. revert E. apply original_ne_condition, Hkey'.
    + intros E. unfold condition_name in E. do 3 apply append_inj_r in E.
      unfold scaled_features in Hf. in_cases Hf; discriminate E.
  - apply condition_names_NoDup.
    + unfold scaled_features. apply NoDup_ListNoDup.
      repeat constructor; cbn; intuition discriminate.
    + exact scaled_tail_inj.
  - exists fs', scaled. split; [exact Hrun|]. split; [exact Hsaved|].
    split; [|split; [|split; [exact Hcopied|exact Hother]]].
    + unfold scaled. rewrite length_map. reflexivity.
    + intros k x Hx. unfold scaled.
      rewrite list_lookup_fmap, Hx. cbn [fmap option_fmap option_map].
      eexists. split; [reflexivity|]. split; [lra|]. split.
      * intros H. pose proof (log2_pos _ H). lra.
      * intros H. pose proof (log2_neg (Q2R ratio) (conj Hpos H)). lra.
Qed.

End Utterance.
Lemma utterance_features (feature : string) :
  feature ∈ ["loudness"; "periodicity"; "phonemes"; "pitch"; "text"; "voicing"] ->
  is_Some (Example.utterance !! (Example.speaker_directory //
    ("000001" +:+ "-original-100-" +:+ feature +:+ feature_suffix feature))).
Proof.
  intros H. in_cases H; eexists; reflexivity.
Qed.

Lemma C3_witness :
  exists (fs' : FS) (shifted : list R),
    shift_file 50 550 Example.original (2 # 1)
      (Example.speaker_directory // "000001-original-100-pitch.pt")
      Example.utterance = Ok fs' /\
    fs' !! (Example.original // "0001" // "000001-shifted-200-pitch.pt")
      = Some (Tensor shifted) /\
    length shifted = 3%nat /\
    fs' !! (Example.original // "0001" // "000001-shifted-200-text.txt")
      = Some (Text "hello").
Proof.
  assert (Hrange : (50 <= 550)%R) by lra.
  assert (Hratio : (2 # 1)%Q ∈ RATIOS).
  { unfold RATIOS. rewrite !elem_of_cons. tauto. }
  assert (Hpitch : Example.utterance
                     !! (Example.speaker_directory //
                           ("000001" +:+ "-original-100-pitch.pt"))
                   = Some (Tensor [30; 100; 400]%R)) by reflexivity.
  assert (Hfeatures : forall feature : string,
             feature ∈ ["loudness"; "periodicity"; "phonemes"; "text"; "voicing"] ->
             is_Some (Example.utterance !! (Example.speaker_directory //
               ("000001" +:+ "-original-100-" +:+ feature +:+
                  feature_suffix feature)))).
  { intros feature H. apply utterance_features.
    rewrite !elem_of_cons, elem_of_nil in H. rewrite !elem_of_cons. tauto. }
  destruct (C3_pitch_shift "000001" eq_refl eq_refl Example.speaker_directory
              Example.original 50 550 (2 # 1) [30; 100; 400]%R
              Example.utterance Hrange Hratio Hpitch Hfeatures)
    as (fs' & shifted & Hrun & Hsaved & Hlen & _ & Hcopied & _).
  exists fs', shifted. split; [exact Hrun|]. split; [exact Hsaved|].
  split; [exact Hlen|].
  apply (Hcopied "text"). rewrite !elem_of_cons. tauto.
Defined.

Lemma C7_witness :
  exists (fs' : FS) (scaled : list R),
    scale_file Example.original (5 # 10)
      (Example.speaker_directory // "000001-original-100-loudness.pt")
      Example.utterance = Ok fs' /\
    fs' !! (Example.original // "0001" // "000001-scaled-050-loudness.pt")
      = Some (Tensor scaled) /\
    length scaled = 3%nat /\
    fs' !! (Example.original // "0001" // "000001-scaled-050-pitch.pt")
      = Some (Tensor [30; 100; 400]%R).
Proof.
  assert (Hratio : (5 # 10)%Q ∈ RATIOS).
  { unfold RATIOS. rewrite !elem_of_cons. tauto. }
  assert (Hloud : Example.utterance
                    !! (Example.speaker_directory //
                          ("000001" +:+ "-original-100-loudness.pt"))
                  = Some (Tensor [-20; -30; -25]%R)) by reflexivity.
  assert (Hfeatures : forall feature : string,
             feature ∈ ["periodicity"; "phonemes"; "pitch"; "text"; "voicing"] ->
             is_Some (Example.utterance !! (Example.speaker_directory //
               ("000001" +:+ "-original-100-" +:+ feature +:+
                  feature_suffix feature)))).
  { intros feature H. apply utterance_features.
    rewrite !elem_of_cons, elem_of_nil in H. rewrite !elem_of_cons. tauto. }
  destruct (C7_loudness_scale "000001" eq_refl eq_refl Example.speaker_directory
              Example.original (5 # 10) [-20; -30; -25]%R
              Example.utterance Hratio Hloud Hfeatures)
    as (fs' & scaled & Hrun & Hsaved & Hlen & _ & Hcopied & _).
  exists fs', scaled. split; [exact Hrun|]. split; [exact Hsaved|].
  split; [exact Hlen|].
  apply (Hcopied "pitch"). rewrite !elem_of_cons. tauto.
Defined.

End ConditionsSpec.

Module AlignmentSpec.
Import Pathlib Files Evaluate.

Section Stage.

Variables objective_directory original_objective_directory : Path.
Variables HOPSIZE SAMPLE_RATE : Z.
Variable pysodic_from_files_to_files :
  list Path -> list Path -> list Path -> FS -> result FS.
Variable pyfoal_from_files_to_files :
  list Path -> list Path -> list Path -> FS -> result FS.
Variable alignment_to_indices : string -> R -> list R -> list Z.

Let prefix_of (file : Path) : Path :=
  objective_directory // name (parent file) // stem file.
Let text_of (file : Path) : Path :=
  original_objective_directory // name (parent file) //
    (stem file +:+ "-text.txt").
Let artifact (file : Path) : Path := alignment_file (prefix_of file).

(** For a prefix whose name has no dot, the alignment artifact is the
    text of the prefix followed by [-alignment.json]. *)
Lemma alignment_file_plain (prefix : Path) :
  PyStr.contains "." (name prefix) = false ->
  alignment_file prefix = fstring prefix "-alignment.json".
Proof.
  intros H. unfold alignment_file, fstring, stem.
  rewrite (PathlibFacts.stem_of_name_plain _ H). reflexivity.
Qed.

Lemma zip3_maps {A B C : Type} (f : A -> B) (g : A -> C) (l : list A) :
  zip3 (map f l) l (map g l) = map (fun a => (f a, a, g a)) l.
Proof.
  induction l as [|a l IH]; [reflexivity|].
  cbn [map zip3]. rewrite IH. reflexivity.
Qed.

Lemma failed_alignments_subset (value : list Path) (fs : FS) :
  failed_alignments objective_directory original_objective_directory value fs
  = map (fun file => (text_of file, file, artifact file)) (failed_subset objective_directory value fs).
Proof.
  unfold failed_alignments, text_files, output_prefixes, failed_subset.
  rewrite (zip3_maps _ _ value).
  induction value as [|file value IH]; [reflexivity|].
  cbn [map flat_map List.filter]. rewrite IH.
  destruct (negb _); reflexivity.
Qed.

Lemma unzip3_failed (l : list Path) :
  unzip3 (map (fun file => (text_of file, file, artifact file)) l)
  = (text_files original_objective_directory l, l,
     map (alignment_file) (output_prefixes objective_directory l)).
Proof.
  unfold unzip3, text_files, output_prefixes.
  rewrite !map_map. cbn [fst snd]. rewrite map_id. reflexivity.
Qed.

Lemma unlink_alignments_lookup (value : list Path) (fs : FS) (p : Path) :
  unlink_alignments objective_directory value fs !! p
  = if decide (p ∈ map alignment_file (output_prefixes objective_directory value))
    then None else fs !! p.
Proof.
  unfold unlink_alignments.
  generalize (output_prefixes objective_directory value) as l.
  intros l. revert fs. induction l as [|q l IH]; intros fs.
  - cbn. destruct (decide _) as [H|_]; [|reflexivity].
    apply elem_of_nil in H as [].
  - cbn [foldl map]. rewrite IH. unfold unlink.
    destruct (decide (p ∈ map alignment_file l)) as [Hin|Hout].
    + rewrite decide_True by (apply list_elem_of_further, Hin). reflexivity.
    + destruct (decide (p = alignment_file q)) as [->|Hne].
      * rewrite lookup_delete_eq.
        rewrite decide_True by apply list_elem_of_here. reflexivity.
      * rewrite lookup_delete_ne by congruence.
        rewrite decide_False; [reflexivity|].
        intros H. apply elem_of_cons in H as [H|H]; contradiction.
Qed.



End Stage.



End AlignmentSpec.

Module ObjectiveSpec.
Import Pathlib Files Evaluate Example.

(** C2: the evaluation of two files, the first of which has no artifact on
    disk.  The claim is that the exception of a file is caught and logged,
    the update of that file is skipped and the run goes on to the next file
    without aborting or blocking.  The code catches and prints the
    exception, then enters the debugger: with no command at its prompt the
    run is blocked at the first file, with the command quit it is aborted,
    and it only reaches the second file, whose update succeeds, when the
    operator types continue. *)
Theorem C2_debugger_stops_the_run :
  run [] =
    Blocked (mkEvalState nat nat counters counters
               {[ "reconstructed" := [] ]}
               [FileNotFoundError (missing_file "000001")] []) /\
  run [pdb_quit] =
    Aborted BdbQuit
      (mkEvalState nat nat counters counters
         {[ "reconstructed" := [] ]}
         [FileNotFoundError (missing_file "000001")] [pdb_quit]) /\
  (forall st, run [] <> Completed st) /\
  run [pdb_continue] =
    Completed
      (mkEvalState nat nat
         {[ "original-100" := 1%nat ]} {[ "original-100" := 1%nat ]}
         {[ "reconstructed" :=
              [("000001-original-100", 0%nat); ("000002-original-100", 1%nat)] ]}
         [FileNotFoundError (missing_file "000001")] []).
Proof.
  split; [|split; [|split]].
  - vm_compute. reflexivity.
  - vm_compute. reflexivity.
  - intros st H. vm_compute in H. discriminate H.
  - vm_compute. reflexivity.
Qed.
End ObjectiveSpec.

Module BenchmarkSpec.
Import Evaluate TorchFacts.

Lemma sum_counts_from (acc : Counts) (found : list Counts) :
  num_samples
    (foldl (fun results result =>
              mkCounts (num_samples results + num_samples result)
                (num_frames results + num_frames result)) acc found)
  = (num_samples acc + foldr Z.add 0 (map num_samples found))%Z.
Proof.
  revert acc. induction found as [|c found IH]; intros acc.
  - cbn. lia.
  - cbn [foldl map foldr]. rewrite IH. cbn [num_samples]. lia.
Qed.

Lemma sum_counts_samples (found : list Counts) :
  num_samples (sum_counts found) = foldr Z.add 0%Z (map num_samples found).
Proof. unfold sum_counts. rewrite sum_counts_from. reflexivity. Qed.


End BenchmarkSpec.

(* ===================================================================== *)
(** * Further properties of the interpolation, the loaders, the logging,
      the synthesis and the evaluation pipeline *)
(* ===================================================================== *)

Module InterpolateProps.
Import Torch TorchFacts Interpolate InterpolateSpec.
Open Scope R_scope.

Section Sampler.

Variable ppgs_edit_grid_sample : list R -> list R -> result (list R).

(** The position of the bracketing index of an entry inside the range of
    the sequence. *)
Lemma bracket_inside (n : nat) (x : R) :
  (2 <= n)%nat -> 0 <= x <= IZR (Z.of_nat n - 1) ->
  let i := bracket (arange n) x in
  (1 <= i <= Z.of_nat n - 1)%Z /\ IZR (i - 1) <= x <= IZR i.
Proof.
  intros Hn [H0 H1]. cbv zeta.
  destruct (searchsorted_arange n x) as (Hr & Hlo & Hhi).
  unfold bracket, clip. rewrite length_arange.
  set (s := searchsorted_right (arange n) x) in *.
  assert (Hs1 : (1 <= s)%Z).
  { destruct (Z_le_gt_dec 1 s) as [|Hs]; [assumption|].
    assert (Hx : x < IZR s) by (apply Hhi; lia).
    assert (s = 0%Z) as Hz by lia. rewrite Hz in Hx. lra. }
  split; [lia|].
  destruct (Z.eq_dec s (Z.of_nat n)) as [Hs|Hs].
  - replace (Z.min (Z.max s 1) (Z.of_nat n - 1)) with (Z.of_nat n - 1)%Z by lia.
    assert (Hx : IZR (s - 1) <= x) by (apply Hlo; lia).
    rewrite Hs in Hx. rewrite !minus_IZR in *. lra.
  - replace (Z.min (Z.max s 1) (Z.of_nat n - 1)) with s by lia.
    assert (Hx : IZR (s - 1) <= x) by (apply Hlo; lia).
    assert (Hx' : x < IZR s) by (apply Hhi; lia).
    lra.
Qed.

Lemma bracket_after (n : nat) (x : R) :
  (2 <= n)%nat -> IZR (Z.of_nat n - 1) <= x ->
  bracket (arange n) x = (Z.of_nat n - 1)%Z.
Proof.
  intros Hn Hx.
  destruct (searchsorted_arange n x) as (Hr & Hlo & Hhi).
  unfold bracket, clip. rewrite length_arange.
  set (s := searchsorted_right (arange n) x) in *.
  destruct (Z.eq_dec s (Z.of_nat n)) as [Hs|Hs]; [lia|].
  assert (Hx' : x < IZR s) by (apply Hhi; lia).
  assert (Hlt : IZR (Z.of_nat n - 1) < IZR s) by lra.
  apply lt_IZR in Hlt. lia.
Qed.

Lemma bracket_before (n : nat) (x : R) :
  (2 <= n)%nat -> x < 0 -> bracket (arange n) x = 1%Z.
Proof.
  intros Hn Hx.
  destruct (searchsorted_arange n x) as (Hr & Hlo & Hhi).
  unfold bracket, clip. rewrite length_arange.
  set (s := searchsorted_right (arange n) x) in *.
  destruct (Z.eq_dec s 0%Z) as [Hs|Hs]; [lia|].
  assert (Hx' : IZR (s - 1) <= x) by (apply Hlo; lia).
  assert (Hlt : IZR (s - 1) < IZR 0) by lra.
  apply lt_IZR in Hlt. lia.
Qed.

Lemma round_integer (k : Z) : round (IZR k) = k.
Proof.
  unfold round. rewrite (Int_part_between (IZR k) k) by lra.
  rewrite Rltb_true by lra. reflexivity.
Qed.

Lemma grid_sample_linear (sequence grid : list R) :
  grid_sample ppgs_edit_grid_sample sequence grid "linear"
  = for_each (linear_at sequence) grid.
Proof. reflexivity. Qed.

Lemma grid_sample_nearest (sequence grid : list R) :
  grid_sample ppgs_edit_grid_sample sequence grid "nearest"
  = for_each (nearest_at sequence) grid.
Proof. reflexivity. Qed.

(** [for_each] succeeds when its body does on every element, and relates
    the elements position by position. *)
Lemma for_each_pointwise {A B : Type} (f : A -> result B) (P : A -> B -> Prop)
  (l : list A) :
  (forall a, a ∈ l -> exists b, f a = Ok b /\ P a b) ->
  exists out : list B, for_each f l = Ok out /\ Forall2 P l out.
Proof.
  induction l as [|a l IH]; intros H.
  - exists []. split; [reflexivity|constructor].
  - destruct (H a) as (b & Hb & Pb); [apply list_elem_of_here|].
    destruct IH as (out & Hout & Pout).
    { intros a' Ha'. apply H, list_elem_of_further, Ha'. }
    exists (b :: out). cbn [for_each]. rewrite Hb, Hout.
    split; [reflexivity|constructor; assumption].
Qed.

(** X1: on a sequence of two frames or more, sampling at grid entries that
    are whole positions inside the sequence returns the frames at those
    positions, in the order of the grid, with the linear and with the
    nearest-neighbours method alike. *)
Theorem grid_sample_integer_grid (sequence : list R) (indices : list nat)
  (method : string) :
  (2 <= length sequence)%nat ->
  (forall k : nat, k ∈ indices -> (k < length sequence)%nat) ->
  method = "linear" \/ method = "nearest" ->
  exists out : list R,
    grid_sample ppgs_edit_grid_sample sequence
      (map (fun k => IZR (Z.of_nat k)) indices) method = Ok out /\
    Forall2 (fun k y => sequence !! k = Some y) indices out.
Proof.
  intros Hn Hin Hmethod.
  assert (Hgo : forall f : R -> result R,
             (forall k y, (k < length sequence)%nat -> sequence !! k = Some y ->
                          f (IZR (Z.of_nat k)) = Ok y) ->
             exists out,
               for_each f (map (fun k => IZR (Z.of_nat k)) indices) = Ok out /\
               Forall2 (fun k y => sequence !! k = Some y) indices out).
  { intros f Hf. clear Hmethod. induction indices as [|k indices IH].
    - exists []. split; [reflexivity|constructor].
    - assert (Hk : (k < length sequence)%nat) by (apply Hin, list_elem_of_here).
      destruct (lookup_lt_is_Some_2 sequence k Hk) as [y Hy].
      destruct IH as (out & Hout & Pout).
      { intros k' Hk'. apply Hin, list_elem_of_further, Hk'. }
      exists (y :: out). cbn [map for_each]. rewrite (Hf k y Hk Hy), Hout.
      split; [reflexivity|constructor; assumption]. }
  destruct Hmethod as [-> | ->].
  - rewrite grid_sample_linear. apply Hgo. intros k y Hk Hy.
    destruct (linear_at_bracket sequence (IZR (Z.of_nat k)) Hn)
      as (a & b & Ha & Hb & ->).
    unfold bracket in Ha, Hb |- *.
    rewrite length_arange, searchsorted_arange_at in Ha, Hb |- * by lia.
    unfold clip in Ha, Hb |- *. f_equal.
    destruct (Z.le_gt_cases (Z.of_nat k + 1) (Z.of_nat (length sequence) - 1))
      as [Hlt|Hlast].
    + replace (Z.min (Z.max (Z.of_nat k + 1) 1) (Z.of_nat (length sequence) - 1))
        with (Z.of_nat k + 1)%Z in * by lia.
      replace (Z.to_nat (Z.of_nat k + 1 - 1)) with k in Ha by lia.
      rewrite Hy in Ha. injection Ha as <-.
      rewrite plus_IZR, minus_IZR, plus_IZR. field.
    + replace (Z.min (Z.max (Z.of_nat k + 1) 1) (Z.of_nat (length sequence) - 1))
        with (Z.of_nat k) in * by lia.
      rewrite Nat2Z.id, Hy in Hb. injection Hb as <-.
      rewrite minus_IZR. field.
  - rewrite grid_sample_nearest. apply Hgo. intros k y Hk Hy.
    unfold nearest_at. rewrite round_integer. apply index_nonneg, Hy.
Qed.

(** Inside the range, one entry of the linear branch is a convex
    combination of the two frames that bracket it. *)
Lemma linear_at_convex (fp : list R) (x lo hi : R) :
  (2 <= length fp)%nat ->
  (forall y, y ∈ fp -> lo <= y <= hi) ->
  0 <= x <= IZR (Z.of_nat (length fp) - 1) ->
  exists y : R, linear_at fp x = Ok y /\ lo <= y <= hi.
Proof.
  intros Hn Hfp Hx.
  destruct (linear_at_bracket fp x Hn) as (a & b & Ha & Hb & ->).
  destruct (bracket_inside (length fp) x Hn Hx) as (_ & Hi).
  set (i := bracket (arange (length fp)) x) in *.
  apply list_elem_of_lookup_2, Hfp in Ha.
  apply list_elem_of_lookup_2, Hfp in Hb.
  eexists. split; [reflexivity|].
  rewrite minus_IZR in *.
  replace ((a * (IZR i - x) + b * (x - (IZR i - 1))) / 1)
    with (a * (IZR i - x) + b * (1 - (IZR i - x))) by field.
  assert (Hw : 0 <= IZR i - x <= 1) by lra.
  split; nra.
Qed.


(** X3: linear sampling does not clamp the grid.  An entry at or after the
    last position is sampled on the line through the last two frames, and
    an entry before the first position on the line through the first two
    frames. *)
Theorem grid_sample_linear_extrapolates (sequence : list R) (a b x : R) :
  (2 <= length sequence)%nat ->
  (IZR (Z.of_nat (length sequence) - 1) <= x ->
   sequence !! (length sequence - 2)%nat = Some a ->
   sequence !! (length sequence - 1)%nat = Some b ->
   grid_sample ppgs_edit_grid_sample sequence [x] "linear"
   = Ok [b + (b - a) * (x - IZR (Z.of_nat (length sequence) - 1))]) /\
  (x < 0 ->
   sequence !! 0%nat = Some a ->
   sequence !! 1%nat = Some b ->
   grid_sample ppgs_edit_grid_sample sequence [x] "linear"
   = Ok [a + (b - a) * x]).
Proof.
  intros Hn. split.
  - intros Hx Ha Hb. rewrite grid_sample_linear. cbn [for_each].
    destruct (linear_at_bracket sequence x Hn) as (a' & b' & Ha' & Hb' & ->).
    rewrite (bracket_after _ x Hn Hx) in *.
    replace (Z.to_nat (Z.of_nat (length sequence) - 1 - 1))
      with (length sequence - 2)%nat in Ha' by lia.
    replace (Z.to_nat (Z.of_nat (length sequence) - 1))
      with (length sequence - 1)%nat in Hb' by lia.
    rewrite Ha in Ha'. rewrite Hb in Hb'.
    injection Ha' as <-. injection Hb' as <-.
    cbn [mbind result_bind]. do 2 f_equal.
    rewrite !minus_IZR. field.
  - intros Hx Ha Hb. rewrite grid_sample_linear. cbn [for_each].
    destruct (linear_at_bracket sequence x Hn) as (a' & b' & Ha' & Hb' & ->).
    rewrite (bracket_before _ x Hn Hx) in *.
    change (Z.to_nat (1 - 1)) with 0%nat in Ha'.
    change (Z.to_nat 1) with 1%nat in Hb'.
    rewrite Ha in Ha'. rewrite Hb in Hb'.
    injection Ha' as <-. injection Hb' as <-.
    cbn [mbind result_bind]. do 2 f_equal.
    change (1 - 1)%Z with 0%Z. field.
Qed.

Lemma index_wraps {A : Type} (t : list A) (k : Z) (a : A) :
  (- Z.of_nat (length t) <= k < 0)%Z ->
  t !! Z.to_nat (Z.of_nat (length t) + k) = Some a ->
  index t k = Ok a.
Proof.
  intros Hk Ha. unfold index.
  destruct (Z.ltb_spec k 0) as [_|H]; [|lia].
  destruct (Z.leb_spec 0 (Z.of_nat (length t) + k)) as [_|H]; [|lia].
  destruct (Z.ltb_spec (Z.of_nat (length t) + k) (Z.of_nat (length t)))
    as [_|H]; [|lia].
  cbn [andb]. rewrite Ha. reflexivity.
Qed.

Lemma index_outside {A : Type} (t : list A) (k : Z) :
  (k < - Z.of_nat (length t) \/ Z.of_nat (length t) <= k)%Z ->
  index t k = Raise IndexError.
Proof.
  intros Hk. unfold index.
  destruct (Z.ltb_spec k 0) as [Hneg|Hpos].
  - destruct (Z.leb_spec 0 (Z.of_nat (length t) + k)) as [H|_]; [lia|].
    reflexivity.
  - destruct (Z.leb_spec 0 k) as [_|H]; [|lia].
    destruct (Z.ltb_spec k (Z.of_nat (length t))) as [H|_]; [lia|].
    reflexivity.
Qed.

(** X4: nearest-neighbours sampling at a whole position outside the
    sequence.  A negative position down to minus the length is counted
    from the end of the sequence, as Python indices are; a position below
    that, or at or after the length, raises IndexError. *)
Theorem grid_sample_nearest_outside (sequence : list R) (k : Z) :
  ((- Z.of_nat (length sequence) <= k < 0)%Z ->
   forall y : R,
     sequence !! Z.to_nat (Z.of_nat (length sequence) + k) = Some y ->
     grid_sample ppgs_edit_grid_sample sequence [IZR k] "nearest" = Ok [y]) /\
  ((k < - Z.of_nat (length sequence) \/ Z.of_nat (length sequence) <= k)%Z ->
   grid_sample ppgs_edit_grid_sample sequence [IZR k] "nearest"
   = Raise IndexError).
Proof.
  split.
  - intros Hk y Hy. rewrite grid_sample_nearest. cbn [for_each].
    unfold nearest_at. rewrite round_integer, (index_wraps _ _ y Hk Hy).
    reflexivity.
  - intros Hk. rewrite grid_sample_nearest. cbn [for_each].
    unfold nearest_at. rewrite round_integer, (index_outside _ _ Hk).
    reflexivity.
Qed.

Lemma log2_le (x y : R) : 0 < x -> x <= y -> log2 x <= log2 y.
Proof.
  intros Hx Hxy. unfold log2.
  assert (H2 : 0 < ln 2) by (rewrite <- ln_1; apply ln_increasing; lra).
  apply Rmult_le_compat_r; [left; apply Rinv_0_lt_compat, H2|].
  destruct Hxy as [Hlt| ->]; [left; apply ln_increasing; assumption|right; reflexivity].
Qed.


(** X6: with the linear or the nearest-neighbours method, an empty grid
    gives an empty result whatever the sequence is, and an empty sequence
    with a grid that is not empty raises IndexError. *)
Theorem grid_sample_empty (sequence grid : list R) (method : string) :
  method = "linear" \/ method = "nearest" ->
  grid_sample ppgs_edit_grid_sample sequence [] method = Ok [] /\
  (grid <> [] ->
   grid_sample ppgs_edit_grid_sample [] grid method = Raise IndexError).
Proof.
  intros [-> | ->].
  - split; [reflexivity|]. intros Hgrid. rewrite grid_sample_linear.
    destruct grid as [|x grid]; [contradiction|]. reflexivity.
  - split; [reflexivity|]. intros Hgrid. rewrite grid_sample_nearest.
    destruct grid as [|x grid]; [contradiction|].
    cbn [for_each]. unfold nearest_at.
    rewrite index_outside; [reflexivity|]. cbn [length].
    destruct (Z_lt_le_dec (round x) 0); [left|right]; lia.
Qed.

(** The linear branch returns a value for every grid entry when the
    sequence has two frames or more. *)
Lemma linear_at_total (fp : list R) (x : R) :
  (2 <= length fp)%nat -> exists y : R, linear_at fp x = Ok y.
Proof.
  intros Hn. destruct (linear_at_bracket fp x Hn) as (a & b & _ & _ & H).
  eexists. exact H.
Qed.

Lemma round_near (x : R) : Rabs (x - IZR (round x)) <= 1 / 2.
Proof.
  destruct (base_Int_part x) as [Hf1 Hf2].
  unfold round, Rltb.
  destruct (Rlt_dec _ _) as [Hlt|Hge].
  - apply Rabs_le. lra.
  - assert (Hup : Rabs (x - IZR (Int_part x + 1)) <= 1 / 2)
      by (rewrite plus_IZR; apply Rabs_le; lra).
    destruct (Rlt_dec _ _) as [Hgt|Hle]; [exact Hup|].
    destruct (Z.even _); [apply Rabs_le; lra|exact Hup].
Qed.

(** Inside the range, the nearest-neighbours branch returns the frame at
    the rounded position. *)
Lemma nearest_at_inside (fp : list R) (x : R) :
  0 <= x <= IZR (Z.of_nat (length fp) - 1) ->
  exists y : R,
    nearest_at fp x = Ok y /\ fp !! Z.to_nat (round x) = Some y.
Proof.
  intros Hx. pose proof (round_range x _ Hx) as Hr.
  destruct (lookup_lt_is_Some_2 fp (Z.to_nat (round x))) as [y Hy]; [lia|].
  exists y. split; [|exact Hy]. unfold nearest_at.
  apply index_lookup; [lia|exact Hy].
Qed.

(** X7: when every grid entry lies between the first and the last position
    of the sequence, nearest-neighbours sampling returns, for each grid
    entry, a frame of the sequence whose position is at most one half away
    from the entry. *)
Theorem grid_sample_nearest_selects (sequence grid : list R) :
  (forall x : R, x ∈ grid -> 0 <= x <= IZR (Z.of_nat (length sequence) - 1)) ->
  exists out : list R,
    grid_sample ppgs_edit_grid_sample sequence grid "nearest" = Ok out /\
    Forall2
      (fun x y =>
         exists k : nat,
           sequence !! k = Some y /\ Rabs (x - IZR (Z.of_nat k)) <= 1 / 2)
      grid out.
Proof.
  intros Hgrid. rewrite grid_sample_nearest.
  apply for_each_pointwise. intros x Hx.
  destruct (nearest_at_inside sequence x (Hgrid x Hx)) as (y & Hy & Hk).
  exists y. split; [exact Hy|]. exists (Z.to_nat (round x)).
  split; [exact Hk|].
  pose proof (round_range x _ (Hgrid x Hx)) as Hr.
  rewrite Z2Nat.id by lia. apply round_near.
Qed.

End Sampler.

Lemma grid_sample_integer_grid_witness :
  exists out : list R,
    grid_sample Example.first_frame [3; 5; 4]
      (map (fun k => IZR (Z.of_nat k)) [2; 0]%nat) "nearest" = Ok out /\
    Forall2 (fun k y => [3; 5; 4] !! k = Some y) [2; 0]%nat out.
Proof.
  apply (grid_sample_integer_grid Example.first_frame [3; 5; 4] [2; 0]%nat
           "nearest").
  - simpl. lia.
  - intros k Hk. rewrite !elem_of_cons, elem_of_nil in Hk. simpl. lia.
  - right. reflexivity.
Defined.


Lemma grid_sample_linear_extrapolates_witness :
  grid_sample Example.first_frame [3; 5; 4] [3] "linear"
  = Ok [4 + (4 - 5) * (3 - 2)] /\
  grid_sample Example.first_frame [3; 5; 4] [-1] "linear"
  = Ok [3 + (5 - 3) * -1].
Proof.
  assert (Hn : (2 <= length [3; 5; 4])%nat) by (simpl; lia).
  destruct (grid_sample_linear_extrapolates Example.first_frame [3; 5; 4] 5 4 3 Hn)
    as [Hafter _].
  destruct (grid_sample_linear_extrapolates Example.first_frame [3; 5; 4] 3 5 (-1) Hn)
    as [_ Hbefore].
  split.
  - apply Hafter; [|reflexivity|reflexivity].
    change (IZR (Z.of_nat (length [3; 5; 4]) - 1)) with 2. lra.
  - apply Hbefore; [lra|reflexivity|reflexivity].
Defined.

Lemma grid_sample_nearest_outside_witness :
  grid_sample Example.first_frame [3; 5; 4] [IZR (-1)] "nearest" = Ok [4] /\
  grid_sample Example.first_frame [3; 5; 4] [IZR 3] "nearest"
  = Raise IndexError.
Proof.
  split.
  - apply (proj1 (grid_sample_nearest_outside Example.first_frame [3; 5; 4] (-1)));
      [simpl; lia|reflexivity].
  - apply (proj2 (grid_sample_nearest_outside Example.first_frame [3; 5; 4] 3)).
    right. simpl. lia.
Defined.


Lemma grid_sample_empty_witness :
  grid_sample Example.first_frame [3; 5; 4] [] "nearest" = Ok [] /\
  grid_sample Example.first_frame [] [1 / 2] "nearest" = Raise IndexError.
Proof.
  destruct (grid_sample_empty Example.first_frame [3; 5; 4] [1 / 2] "nearest")
    as [Hgrid _]; [right; reflexivity|].
  destruct (grid_sample_empty Example.first_frame [] [1 / 2] "nearest")
    as [_ Hsequence]; [right; reflexivity|].
  split; [exact Hgrid|]. apply Hsequence. discriminate.
Defined.

Lemma grid_sample_nearest_selects_witness :
  exists out : list R,
    grid_sample Example.first_frame [3; 5; 4] [1 / 4; 2] "nearest" = Ok out /\
    Forall2
      (fun x y =>
         exists k : nat,
           [3; 5; 4] !! k = Some y /\ Rabs (x - IZR (Z.of_nat k)) <= 1 / 2)
      [1 / 4; 2] out.
Proof.
  apply (grid_sample_nearest_selects Example.first_frame [3; 5; 4] [1 / 4; 2]).
  intros x Hx. rewrite !elem_of_cons, elem_of_nil in Hx.
  change (IZR (Z.of_nat (length [3; 5; 4]) - 1)) with 2.
  destruct Hx as [->|[->|[]]]; lra.
Defined.

End InterpolateProps.

Module LoadProps.
Import Pathlib Files Torch TorchFacts Evaluate Load.

Lemma length_assign_odd (start : nat) (values interleaved : list R) :
  length (assign_odd start values interleaved) = length interleaved.
Proof.
  revert start interleaved. induction values as [|v values IH];
    intros start interleaved; [reflexivity|].
  cbn [assign_odd]. rewrite IH, length_insert. reflexivity.
Qed.

Lemma assign_odd_before (start : nat) (values interleaved : list R) (j : nat) :
  (j < 2 * start + 1)%nat ->
  assign_odd start values interleaved !! j = interleaved !! j.
Proof.
  revert start interleaved. induction values as [|v values IH];
    intros start interleaved Hj; [reflexivity|].
  cbn [assign_odd]. rewrite IH by lia.
  apply list_lookup_insert_ne. lia.
Qed.

Lemma assign_odd_even (start : nat) (values interleaved : list R) (k : nat) :
  assign_odd start values interleaved !! (2 * k)%nat = interleaved !! (2 * k)%nat.
Proof.
  revert start interleaved. induction values as [|v values IH];
    intros start interleaved; [reflexivity|].
  cbn [assign_odd]. rewrite IH.
  apply list_lookup_insert_ne. lia.
Qed.

Lemma assign_odd_odd (start : nat) (values interleaved : list R) (i : nat) (v : R) :
  values !! i = Some v ->
  (2 * (start + i) + 1 < length interleaved)%nat ->
  assign_odd start values interleaved !! (2 * (start + i) + 1)%nat = Some v.
Proof.
  revert start interleaved i. induction values as [|w values IH];
    intros start interleaved i Hv Hlen; [discriminate|].
  cbn [assign_odd]. destruct i as [|i].
  - injection Hv as ->. rewrite assign_odd_before by lia.
    replace (start + 0)%nat with start by lia.
    apply list_lookup_insert_eq. lia.
  - replace (start + S i)%nat with (S start + i)%nat by lia.
    apply IH; [exact Hv|]. rewrite length_insert. lia.
Qed.

(** X8: loading the phonemes of a file that holds a tensor returns a
    sequence of twice as many entries as there are runs of equal phonemes,
    plus one; every even position holds the blank 0 and the odd position
    2k+1 holds the phoneme of the run k. *)
Theorem phonemes_interleaved (file : Path) (loaded : list R) (fs : FS) :
  fs !! file = Some (Tensor loaded) ->
  exists out : list R,
    phonemes file fs = Ok out /\
    length out = (2 * length (unique_consecutive loaded) + 1)%nat /\
    (forall k : nat,
        (k <= length (unique_consecutive loaded))%nat ->
        out !! (2 * k)%nat = Some 0%R) /\
    (forall (k : nat) (v : R),
        unique_consecutive loaded !! k = Some v ->
        out !! (2 * k + 1)%nat = Some v).
Proof.
  intros Hfile. unfold phonemes, torch_load. rewrite Hfile.
  cbn [mbind result_bind].
  set (ph := unique_consecutive loaded).
  eexists. split; [reflexivity|]. split; [|split].
  - rewrite length_assign_odd, length_replicate. lia.
  - intros k Hk. rewrite assign_odd_even.
    apply lookup_replicate_2. lia.
  - intros k v Hv. pose proof (lookup_lt_Some _ _ _ Hv) as Hlt.
    apply (assign_odd_odd 0 ph _ k v Hv).
    rewrite length_replicate. lia.
Qed.

Lemma unique_consecutive_cons (x y : R) (t : list R) :
  unique_consecutive (x :: y :: t)
  = if Req_dec_T x y then unique_consecutive (y :: t)
    else x :: unique_consecutive (y :: t).
Proof. reflexivity. Qed.

Lemma unique_consecutive_head (x : R) (t : list R) :
  exists t', unique_consecutive (x :: t) = x :: t'.
Proof.
  revert x. induction t as [|y t IH]; intros x; [exists []; reflexivity|].
  rewrite unique_consecutive_cons. destruct (Req_dec_T x y) as [->|_].
  - apply IH.
  - eexists. reflexivity.
Qed.

(** X9: the deduplication used by the phoneme loader leaves no two equal
    neighbours, keeps exactly the values that occur in its input, returns a
    sequence without equal neighbours unchanged, and applying it twice is
    the same as applying it once. *)
Theorem unique_consecutive_runs (t : list R) :
  (forall (k : nat) (a b : R),
      unique_consecutive t !! k = Some a ->
      unique_consecutive t !! S k = Some b -> a <> b) /\
  (forall a : R, a ∈ unique_consecutive t <-> a ∈ t) /\
  ((forall (k : nat) (a b : R),
       t !! k = Some a -> t !! S k = Some b -> a <> b) ->
   unique_consecutive t = t) /\
  unique_consecutive (unique_consecutive t) = unique_consecutive t.
Proof.
  assert (Hruns : forall t (k : nat) (a b : R),
             unique_consecutive t !! k = Some a ->
             unique_consecutive t !! S k = Some b -> a <> b).
  { clear t. induction t as [|x t IH]; intros k a b Ha Hb; [discriminate|].
    destruct t as [|y t]; [discriminate|].
    rewrite unique_consecutive_cons in Ha, Hb.
    destruct (Req_dec_T x y) as [->|Hne]; [exact (IH k a b Ha Hb)|].
    destruct k as [|k]; [|exact (IH k a b Ha Hb)].
    injection Ha as <-. destruct (unique_consecutive_head y t) as [t' Ht'].
    rewrite Ht' in Hb. injection Hb as <-. exact Hne. }
  assert (Hfix : forall t,
             (forall (k : nat) (a b : R),
                 t !! k = Some a -> t !! S k = Some b -> a <> b) ->
             unique_consecutive t = t).
  { clear t. induction t as [|x t IH]; intros H; [reflexivity|].
    destruct t as [|y t]; [reflexivity|].
    rewrite unique_consecutive_cons.
    destruct (Req_dec_T x y) as [E|_].
    - exfalso. exact (H 0%nat x y eq_refl eq_refl E).
    - f_equal. apply IH. intros k a b Ha Hb. exact (H (S k) a b Ha Hb). }
  split; [apply Hruns|]. split; [|split; [apply Hfix|apply Hfix, Hruns]].
  induction t as [|x t IH]; intros a; [reflexivity|].
  destruct t as [|y t]; [reflexivity|].
  rewrite unique_consecutive_cons.
  destruct (Req_dec_T x y) as [->|_].
  - rewrite IH, !elem_of_cons. tauto.
  - rewrite elem_of_cons, IH, !elem_of_cons. tauto.
Qed.

Section Pitch.

Variables FMIN FMAX : R.

(** X10: when FMIN is at most FMAX, loading the pitch of a file that holds
    a tensor returns a contour of the same length whose every value lies in
    [FMIN, FMAX]; values that were inside the range are unchanged, and
    loading a file that holds the returned contour returns it again. *)
Theorem pitch_bounded (file : Path) (loaded : list R) (fs : FS) :
  (FMIN <= FMAX)%R ->
  fs !! file = Some (Tensor loaded) ->
  exists out : list R,
    pitch FMIN FMAX file fs = Ok out /\
    length out = length loaded /\
    (forall y : R, y ∈ out -> (FMIN <= y <= FMAX)%R) /\
    (forall (k : nat) (x : R),
        loaded !! k = Some x -> (FMIN <= x <= FMAX)%R -> out !! k = Some x) /\
    (forall fs' : FS,
        fs' !! file = Some (Tensor out) -> pitch FMIN FMAX file fs' = Ok out).
Proof.
  intros Hrange Hfile. unfold pitch, torch_load. rewrite Hfile.
  cbn [mbind result_bind]. eexists. split; [reflexivity|].
  assert (Hin : forall y : R,
             y ∈ masked_assign (fun x => Rltb FMAX x) FMAX
                   (masked_assign (fun x => Rltb x FMIN) FMIN loaded) ->
             (FMIN <= y <= FMAX)%R).
  { intros y Hy. unfold masked_assign in Hy.
    apply list_elem_of_fmap in Hy as (z & -> & Hz).
    apply list_elem_of_fmap in Hz as (x & -> & _).
    unfold Rltb. destruct (Rlt_dec x FMIN); destruct (Rlt_dec FMAX _); lra. }
  assert (Hid : forall t : list R,
             (forall y, y ∈ t -> (FMIN <= y <= FMAX)%R) ->
             masked_assign (fun x => Rltb FMAX x) FMAX
               (masked_assign (fun x => Rltb x FMIN) FMIN t) = t).
  { intros t Ht. unfold masked_assign. rewrite map_map.
    rewrite <- (map_id t) at 2. apply map_ext_in. intros x Hx.
    apply list_elem_of_In, Ht in Hx.
    rewrite (Rltb_false x FMIN) by lra. rewrite Rltb_false by lra. reflexivity. }
  split; [|split; [exact Hin|split]].
  - unfold masked_assign. rewrite !length_map. reflexivity.
  - intros k x Hx Hr. unfold masked_assign.
    rewrite !list_lookup_fmap, Hx. cbn.
    rewrite (Rltb_false x FMIN) by lra. rewrite Rltb_false by lra. reflexivity.
  - intros fs' Hfs'. rewrite Hfs'. cbn [mbind result_bind].
    f_equal. apply Hid, Hin.
Qed.

End Pitch.

Lemma phonemes_interleaved_witness :
  exists out : list R,
    phonemes ["cache"; "000001-phonemes.pt"]
      {[ ["cache"; "000001-phonemes.pt"] := Tensor [7; 7; 2]%R ]} = Ok out /\
    length out = (2 * length (unique_consecutive [7; 7; 2]%R) + 1)%nat.
Proof.
  assert (Hfile : ({[ ["cache"; "000001-phonemes.pt"] := Tensor [7; 7; 2]%R ]} : FS)
                   !! ["cache"; "000001-phonemes.pt"]
                 = Some (Tensor [7; 7; 2]%R)) by reflexivity.
  destruct (phonemes_interleaved ["cache"; "000001-phonemes.pt"] [7; 7; 2]%R
              _ Hfile) as (out & Hout & Hlen & _).
  exists out. split; [exact Hout|exact Hlen].
Defined.

Lemma unique_consecutive_runs_witness :
  unique_consecutive [1; 2]%R = [1; 2]%R.
Proof.
  apply (proj1 (proj2 (proj2 (unique_consecutive_runs [1; 2]%R)))).
  intros k a b Ha Hb. destruct k as [|k]; [|discriminate Hb].
  injection Ha as <-. injection Hb as <-. lra.
Defined.

Lemma pitch_bounded_witness :
  exists out : list R,
    pitch 50 550 ["cache"; "000001-pitch.pt"]
      {[ ["cache"; "000001-pitch.pt"] := Tensor [30; 100; 600]%R ]} = Ok out /\
    length out = 3%nat /\
    (forall y : R, y ∈ out -> (50 <= y <= 550)%R).
Proof.
  assert (Hrange : (50 <= 550)%R) by lra.
  assert (Hfile : ({[ ["cache"; "000001-pitch.pt"] := Tensor [30; 100; 600]%R ]} : FS)
                   !! ["cache"; "000001-pitch.pt"]
                 = Some (Tensor [30; 100; 600]%R)) by reflexivity.
  destruct (pitch_bounded 50 550 ["cache"; "000001-pitch.pt"] [30; 100; 600]%R
              _ Hrange Hfile) as (out & Hout & Hlen & Hin & _).
  exists out. split; [exact Hout|]. split; [exact Hlen|exact Hin].
Defined.

End LoadProps.

Module WriteProps.
Import Pathlib Write.

Section Tensorboard.

Variable Payload : Type.

Abbreviation attributes := (Write.attributes Payload).
Abbreviation entries := (Write.entries Payload).

Lemma add_all_same (k : kind) (directory : Path) (step : Z)
  (items : list (string * Payload)) (w : attributes) :
  directory = log_dir _ w ->
  add_all Payload k directory step items (Some w)
  = (Some (mkAttributes _ (summary _ w ++ entries k step items) directory),
     None).
Proof.
  revert w. induction items as [|item items IH]; intros w Hdir.
  - cbn. rewrite app_nil_r, Hdir. destruct w; reflexivity.
  - cbn [add_all]. unfold add, writer.
    destruct (decide (directory <> log_dir _ w)) as [H|_]; [contradiction|].
    rewrite IH by exact Hdir.
    cbn [summary log_dir]. unfold Write.entries. cbn [map].
    rewrite <- app_assoc. reflexivity.
Qed.

Lemma add_all_other (k : kind) (directory : Path) (step : Z)
  (item : string * Payload) (items : list (string * Payload)) (w : attributes) :
  directory <> log_dir _ w ->
  add_all Payload k directory step (item :: items) (Some w)
  = (Some w, Some (ValueError (changed directory (log_dir _ w)))).
Proof.
  intros Hne. cbn [add_all]. unfold add, writer.
  destruct (decide (directory <> log_dir _ w)) as [_|H]; [reflexivity|].
  contradiction.
Qed.

(** X11: once the writer exists, logging never changes its directory and
    only extends what was logged before; logging at least one item to
    another directory raises ValueError, with the message that names both
    directories, and logs nothing. *)
Theorem writer_directory_is_fixed (k : kind) (directory : Path) (step : Z)
  (items : list (string * Payload)) (w : attributes) :
  (exists (w' : attributes) (e : option exn),
      add_all Payload k directory step items (Some w) = (Some w', e) /\
      log_dir _ w' = log_dir _ w /\
      summary _ w `prefix_of` summary _ w') /\
  (directory <> log_dir _ w -> items <> [] ->
   add_all Payload k directory step items (Some w)
   = (Some w, Some (ValueError (changed directory (log_dir _ w))))).
Proof.
  split.
  - destruct (decide (directory = log_dir _ w)) as [->|Hne].
    + rewrite add_all_same by reflexivity. eexists _, None.
      split; [reflexivity|].
      split; [reflexivity|]. cbn. apply prefix_app_r. reflexivity.
    + destruct items as [|item items].
      * exists w, None. repeat split; reflexivity.
      * rewrite add_all_other by exact Hne. eexists w, _.
        repeat split; reflexivity.
  - intros Hne Hitems. destruct items as [|item items]; [contradiction|].
    apply add_all_other, Hne.
Qed.

(** X12: logging no item creates no writer; the first logging of at least
    one item creates the writer for its directory, holding one entry per
    item in the order of the items; logging to the directory of the writer
    appends one entry per item, in order, after what was logged before. *)
Theorem writer_logs_in_order (k : kind) (directory : Path) (step : Z)
  (items : list (string * Payload)) :
  add_all Payload k directory step [] None = (None, None) /\
  (items <> [] ->
   add_all Payload k directory step items None
   = (Some (mkAttributes _ (entries k step items) directory), None)) /\
  (forall w : attributes,
      directory = log_dir _ w ->
      add_all Payload k directory step items (Some w)
      = (Some (mkAttributes _ (summary _ w ++ entries k step items) directory),
         None)).
Proof.
  split; [reflexivity|]. split.
  - intros Hitems. destruct items as [|item items]; [contradiction|].
    cbn [add_all]. unfold add, writer. cbn [log_dir].
    destruct (decide (directory <> directory)) as [H|_]; [contradiction|].
    exact (add_all_same k directory step items (mkAttributes _ _ directory)
             eq_refl).
  - intros w Hdir. apply add_all_same, Hdir.
Qed.

End Tensorboard.

Lemma writer_directory_is_fixed_witness :
  add_all R Scalar ["runs"; "b"] 10 [("loss", 1%R)]
    (Some (mkAttributes R [] ["runs"; "a"]))
  = (Some (mkAttributes R [] ["runs"; "a"]),
     Some (ValueError
             "TensorBoard log directory runs/b has changed from previous runs/a")).
Proof.
  apply (proj2 (writer_directory_is_fixed R Scalar ["runs"; "b"] 10
                  [("loss", 1%R)] (mkAttributes R [] ["runs"; "a"])));
    discriminate.
Defined.

Lemma writer_logs_in_order_witness :
  add_all R Scalar ["runs"; "a"] 10 [("loss", 1%R); ("rate", 2%R)] None
  = (Some (mkAttributes R
             [mkEntry R Scalar "loss" 1%R 10; mkEntry R Scalar "rate" 2%R 10]
             ["runs"; "a"]),
     None).
Proof.
  apply (proj1 (proj2 (writer_logs_in_order R Scalar ["runs"; "a"] 10
                         [("loss", 1%R); ("rate", 2%R)]))).
  discriminate.
Defined.

End WriteProps.

Module SynthesizeProps.
Import Pathlib Files Synthesize.

Lemma length_zip6 {A B C D E F : Type} (a : list A) (b : list B) (c : list C)
  (d : list D) (e : list E) (f : list F) :
  length (zip6 a b c d e f)
  = Nat.min (length a) (Nat.min (length b) (Nat.min (length c)
      (Nat.min (length d) (Nat.min (length e) (length f))))).
Proof.
  revert b c d e f. induction a as [|x a IH]; intros b c d e f; [reflexivity|].
  destruct b as [|? b]; [cbn; lia|].
  destruct c as [|? c]; [cbn; lia|].
  destruct d as [|? d]; [cbn; lia|].
  destruct e as [|? e]; [cbn; lia|].
  destruct f as [|? f]; [cbn; lia|].
  cbn [zip6 length]. rewrite IH. lia.
Qed.

Lemma zip6_take {A B C D E F : Type} (n : nat) (a : list A) (b : list B)
  (c : list C) (d : list D) (e : list E) (f : list F) :
  (length (zip6 a b c d e f) <= n)%nat ->
  zip6 (take n a) (take n b) (take n c) (take n d) (take n e) (take n f)
  = zip6 a b c d e f.
Proof.
  revert n b c d e f. induction a as [|x a IH]; intros n b c d e f Hn.
  - rewrite take_nil. reflexivity.
  - destruct b as [|? b]; [rewrite (take_nil n); destruct (take n (x :: a)); reflexivity|].
    destruct c as [|? c];
      [rewrite (take_nil n); destruct (take n (x :: a)), (take n (_ :: b)); reflexivity|].
    destruct d as [|? d];
      [rewrite (take_nil n);
       destruct (take n (x :: a)), (take n (_ :: b)), (take n (_ :: c)); reflexivity|].
    destruct e as [|? e];
      [rewrite (take_nil n);
       destruct (take n (x :: a)), (take n (_ :: b)), (take n (_ :: c)),
         (take n (_ :: d)); reflexivity|].
    destruct f as [|? f];
      [rewrite (take_nil n);
       destruct (take n (x :: a)), (take n (_ :: b)), (take n (_ :: c)),
         (take n (_ :: d)), (take n (_ :: e)); reflexivity|].
    cbn [zip6 length] in Hn. destruct n as [|n]; [lia|].
    cbn [take firstn zip6]. rewrite IH by lia. reflexivity.
Qed.

Section Generate.

Variables Model Audio : Type.
Variable Generator : Device -> Model.
Variable Path_of_str : string -> Path.
Variable is_dir : Path -> bool.
Variable latest_path : Path -> Path.
Variable checkpoint_load : Path -> Model -> result Model.
Variable forward : Model -> list (list R) -> Z -> R -> R -> result Audio.
Variable load_ppg : Path -> nat -> FS -> result (list R).
Variable wav : Audio -> Content.

Abbreviation load_model :=
  (Synthesize.load_model Model Generator Path_of_str is_dir latest_path
     checkpoint_load).
Abbreviation reload :=
  (Synthesize.reload Model Generator Path_of_str is_dir latest_path
     checkpoint_load).
Abbreviation from_files_to_files :=
  (Synthesize.from_files_to_files Model Audio Generator Path_of_str is_dir
     latest_path checkpoint_load forward load_ppg wav).
Abbreviation synthesize_all :=
  (Synthesize.synthesize_all Model Audio Generator Path_of_str is_dir
     latest_path checkpoint_load forward load_ppg wav).
Abbreviation from_file_to_file :=
  (Synthesize.from_file_to_file Model Audio Generator Path_of_str is_dir
     latest_path checkpoint_load forward load_ppg wav).

(** X13: batched synthesis without speakers processes as many utterances
    as the shortest of its five lists of files has entries: the run is the
    same as the run on the five lists cut to that length, and the files
    beyond it are ignored without an error. *)
Theorem from_files_to_files_truncates
  (pitch_files periodicity_files loudness_files ppg_files output_files
     : list Path)
  (formant_ratio loudness_ratio : R) (checkpoint : checkpoint_arg)
  (gpu : option Z) (w : world Model) :
  let n := Nat.min (length pitch_files) (Nat.min (length periodicity_files)
             (Nat.min (length loudness_files) (Nat.min (length ppg_files)
                (length output_files)))) in
  from_files_to_files pitch_files periodicity_files loudness_files ppg_files
    output_files None formant_ratio loudness_ratio checkpoint gpu w
  = from_files_to_files (take n pitch_files) (take n periodicity_files)
      (take n loudness_files) (take n ppg_files) (take n output_files)
      None formant_ratio loudness_ratio checkpoint gpu w.
Proof.
  intros n. unfold Synthesize.from_files_to_files. f_equal.
  rewrite <- (zip6_take n pitch_files).
  - f_equal. rewrite length_take.
    assert (Nat.min n (length pitch_files) = n) as -> by lia.
    rewrite take_replicate. f_equal. lia.
  - rewrite length_zip6, length_replicate. lia.
Qed.

Lemma bool_decide_ne_refl {A : Type} `{EqDecision A} (a : A) :
  bool_decide (a <> a) = false.
Proof. apply bool_decide_eq_false. intros H. exact (H eq_refl). Qed.

(** X14: after a call that returned a model for a checkpoint given as the
    path of a file, a second call with the same checkpoint and device
    returns the same model, leaves the state as it is and loads nothing;
    the first call itself loaded the checkpoint at most once. *)
Theorem load_model_hits_after_file (p : Path) (device : Device)
  (st st' : state Model) (model : Model) :
  is_dir p = false ->
  load_model (AsPath p) device st = (st', Ok model) ->
  load_model (AsPath p) device st' = (st', Ok model) /\
  (loaded _ st' = loaded _ st \/ loaded _ st' = (loaded _ st ++ [p])%list).
Proof.
  intros Hfile Hcall.
  assert (Hreload : reload (AsPath p) device st = (st', Ok model) ->
                    load_model (AsPath p) device st' = (st', Ok model) /\
                    loaded _ st' = (loaded _ st ++ [p])%list).
  { unfold Synthesize.reload. rewrite Hfile.
    destruct (checkpoint_load p (Generator device)) as [m|e]; [|discriminate].
    intros H. injection H as <- <-. split; [|reflexivity].
    unfold Synthesize.load_model. cbn [attributes cached_checkpoint cached_device
      cached_model checkpoint_differs].
    rewrite !bool_decide_ne_refl. reflexivity. }
  unfold Synthesize.load_model in Hcall.
  destruct (attributes _ st) as [c|] eqn:Hattr.
  - destruct (checkpoint_differs (cached_checkpoint _ c) (AsPath p)
              || bool_decide (cached_device _ c <> device)) eqn:Hmiss.
    + destruct (Hreload Hcall) as [H1 H2]. split; [exact H1|right; exact H2].
    + injection Hcall as <- <-. split; [|left; reflexivity].
      unfold Synthesize.load_model. rewrite Hattr, Hmiss. reflexivity.
  - destruct (Hreload Hcall) as [H1 H2]. split; [exact H1|right; exact H2].
Qed.

(** X15: the cache of the generator is never hit by a checkpoint given as a
    string, which is loaded on every call; nor by a checkpoint given as a
    directory whose latest checkpoint is another path, as long as the
    cached path is not the directory itself, which every such call
    preserves. *)
Theorem load_model_never_hits (device : Device) (st : state Model) :
  (forall s : string,
      load_model (AsStr s) device st = reload (AsStr s) device st) /\
  (forall p : Path,
      is_dir p = true ->
      latest_path p <> p ->
      (forall c, attributes _ st = Some c -> cached_checkpoint _ c <> p) ->
      load_model (AsPath p) device st = reload (AsPath p) device st /\
      (forall c, attributes _ (fst (load_model (AsPath p) device st)) = Some c ->
                 cached_checkpoint _ c <> p)).
Proof.
  split.
  - intros s. unfold Synthesize.load_model.
    destruct (attributes _ st); reflexivity.
  - intros p Hdir Hne Hinv.
    assert (Hmiss : load_model (AsPath p) device st
                    = reload (AsPath p) device st).
    { unfold Synthesize.load_model.
      destruct (attributes _ st) as [c|] eqn:Hattr; [|reflexivity].
      cbn [checkpoint_differs].
      rewrite (bool_decide_eq_true_2 _ (Hinv c eq_refl)). reflexivity. }
    split; [exact Hmiss|]. rewrite Hmiss. unfold Synthesize.reload.
    rewrite Hdir. destruct (checkpoint_load _ _); cbn [fst attributes].
    + intros c Hc. injection Hc as <-. exact Hne.
    + exact Hinv.
Qed.

Lemma reload_loaded (checkpoint : checkpoint_arg) (device : Device)
  (st st' : state Model) (model : Model) :
  reload checkpoint device st = (st', Ok model) ->
  exists resolved,
    loaded _ st' = (loaded _ st ++ [resolved])%list /\
    attributes _ st' = Some (mkCache _ model resolved device).
Proof.
  unfold Synthesize.reload. destruct (checkpoint_load _ _); [|discriminate].
  intros H. injection H as <- <-. eexists. split; reflexivity.
Qed.

Lemma from_file_to_file_completed
  (item : Path * Path * Path * Path * Path * Z)
  (formant_ratio loudness_ratio : R) (checkpoint : checkpoint_arg)
  (gpu : option Z) (st st' : state Model) (fs fs' : FS) :
  from_file_to_file item formant_ratio loudness_ratio checkpoint gpu (st, fs)
  = ((st', fs'), None) ->
  exists model generated,
    load_model checkpoint gpu st = (st', Ok model) /\
    fs' = <[item.1.2 := wav generated]> fs.
Proof.
  destruct item as [[[[[pitch_file periodicity_file] loudness_file] ppg_file]
                      output_file] speaker].
  unfold Synthesize.from_file_to_file, Synthesize.from_file,
    Synthesize.generate.
  destruct (_ ≫= _) as [features|e]; [|discriminate].
  destruct (load_model checkpoint gpu st) as [st1 [model|e]]; [|discriminate].
  destruct (forward _ _ _ _ _) as [generated|e]; [|discriminate].
  intros H. injection H as <- <-. exists model, generated.
  split; reflexivity.
Qed.

(** X16: when the loop over the utterances of a batch ends without an
    exception, every output file of the batch holds generated audio and no
    other path of the file system has changed. *)
Theorem synthesize_all_writes_outputs
  (items : list (Path * Path * Path * Path * Path * Z))
  (formant_ratio loudness_ratio : R) (checkpoint : checkpoint_arg)
  (gpu : option Z) (w w' : world Model) :
  synthesize_all items formant_ratio loudness_ratio checkpoint gpu w
  = (w', None) ->
  (forall item, item ∈ items ->
     exists generated, snd w' !! (item.1.2) = Some (wav generated)) /\
  (forall path, path ∉ map (fun item => item.1.2) items ->
     snd w' !! path = snd w !! path).
Proof.
  revert w. induction items as [|item items IH]; intros [st fs] Hrun.
  - injection Hrun as <-. split; [intros item Hin; inversion Hin|reflexivity].
  - cbn [Synthesize.synthesize_all] in Hrun.
    destruct (from_file_to_file item _ _ _ _ _) as [[st1 fs1] [e|]] eqn:Hone;
      [discriminate|].
    apply from_file_to_file_completed in Hone as (model & generated & _ & ->).
    destruct (IH _ Hrun) as [Hout Hrest]. cbn [snd] in *. split.
    + intros item' Hin. apply elem_of_cons in Hin as [->|Hin];
        [|exact (Hout _ Hin)].
      destruct (decide (item.1.2 ∈ map (fun item => item.1.2) items))
        as [Hlater|Hlater].
      * apply list_elem_of_fmap in Hlater as (item' & Heq & Hin).
        rewrite Heq. exact (Hout _ Hin).
      * rewrite (Hrest _ Hlater), lookup_insert_eq. eexists. reflexivity.
    + intros path Hpath. cbn [map] in Hpath.
      apply not_elem_of_cons in Hpath as [Hne Hpath].
      rewrite (Hrest _ Hpath), lookup_insert_ne by congruence. reflexivity.
Qed.

(** X17: a batch that ends without an exception loads the checkpoint once
    per utterance when the checkpoint is given as a string, and exactly
    once in all when it is given as the path of a file, the batch is not
    empty and no model was cached before. *)
Theorem synthesize_all_loads
  (items : list (Path * Path * Path * Path * Path * Z))
  (formant_ratio loudness_ratio : R) (gpu : option Z) (w w' : world Model) :
  (forall s : string,
     synthesize_all items formant_ratio loudness_ratio (AsStr s) gpu w
     = (w', None) ->
     loaded _ (fst w')
     = (loaded _ (fst w) ++
        replicate (length items)
          (if is_dir (Path_of_str s) then latest_path (Path_of_str s)
           else Path_of_str s))%list) /\
  (forall p : Path,
     is_dir p = false ->
     attributes _ (fst w) = None ->
     items <> [] ->
     synthesize_all items formant_ratio loudness_ratio (AsPath p) gpu w
     = (w', None) ->
     loaded _ (fst w') = (loaded _ (fst w) ++ [p])%list).
Proof.
  split.
  - intros s. revert w.
    induction items as [|item items IH]; intros [st fs] Hrun.
    + injection Hrun as <-. cbn. rewrite app_nil_r. reflexivity.
    + cbn [Synthesize.synthesize_all] in Hrun.
      destruct (from_file_to_file item _ _ _ _ _) as [[st1 fs1] [e|]] eqn:Hone;
        [discriminate|].
      apply from_file_to_file_completed in Hone as (model & generated & Hload & _).
      rewrite (IH _ Hrun). cbn [fst length replicate].
      unfold Synthesize.load_model in Hload.
      assert (Hreload : reload (AsStr s) gpu st = (st1, Ok model)).
      { destruct (attributes _ st); exact Hload. }
      unfold Synthesize.reload in Hreload.
      destruct (checkpoint_load _ _); [|discriminate].
      injection Hreload as <- _. cbn [loaded].
      rewrite <- app_assoc. reflexivity.
  - intros p Hfile Hfresh Hitems Hrun.
    assert (Hhits : forall items (w w' : world Model) c,
               attributes _ (fst w) = Some c ->
               cached_checkpoint _ c = p -> cached_device _ c = gpu ->
               synthesize_all items formant_ratio loudness_ratio (AsPath p)
                 gpu w = (w', None) ->
               loaded _ (fst w') = loaded _ (fst w)).
    { clear. intros items. induction items as [|item items IH];
        intros [st fs] w' c Hc Hck Hdev Hrun.
      - injection Hrun as <-. reflexivity.
      - cbn [Synthesize.synthesize_all] in Hrun.
        destruct (from_file_to_file item _ _ _ _ _) as [[st1 fs1] [e|]] eqn:Hone;
          [discriminate|].
        apply from_file_to_file_completed in Hone
          as (model & generated & Hload & _).
        cbn [fst] in Hc. unfold Synthesize.load_model in Hload.
        rewrite Hc in Hload. cbn [checkpoint_differs] in Hload.
        rewrite Hck, Hdev, !bool_decide_ne_refl in Hload.
        injection Hload as <- _.
        exact (IH (st, fs1) w' c Hc Hck Hdev Hrun). }
    destruct items as [|item items]; [congruence|]. destruct w as [st fs].
    cbn [Synthesize.synthesize_all] in Hrun.
    destruct (from_file_to_file item _ _ _ _ _) as [[st1 fs1] [e|]] eqn:Hone;
      [discriminate|].
    apply from_file_to_file_completed in Hone as (model & generated & Hload & _).
    cbn [fst] in Hfresh |- *. unfold Synthesize.load_model in Hload.
    rewrite Hfresh in Hload. unfold Synthesize.reload in Hload.
    rewrite Hfile in Hload.
    destruct (checkpoint_load _ _); [|discriminate].
    injection Hload as <- _.
    eapply Hhits in Hrun; [|reflexivity..]. exact Hrun.
Qed.

End Generate.

Lemma load_model_hits_after_file_witness :
  let st' := mkState nat (Some (mkCache nat 1%nat ["model.pt"] None))
               [["model.pt"]] in
  Synthesize.load_model nat Samples.Generator Samples.Path_of_str
    Samples.is_dir Samples.latest_path Samples.checkpoint_load
    (AsPath ["model.pt"]) None st' = (st', Ok 1%nat).
Proof.
  intros st'.
  apply (load_model_hits_after_file nat Samples.Generator Samples.Path_of_str
           Samples.is_dir Samples.latest_path Samples.checkpoint_load
           ["model.pt"] None (mkState nat None []) st' 1%nat);
    reflexivity.
Defined.

Lemma load_model_never_hits_witness :
  Synthesize.load_model nat Samples.Generator Samples.Path_of_str
    Samples.is_dir Samples.latest_path Samples.checkpoint_load
    (AsPath ["runs"]) None
    (mkState nat (Some (mkCache nat 1%nat ["runs"; "generator-00250000.pt"] None))
       [["runs"; "generator-00250000.pt"]])
  = (mkState nat (Some (mkCache nat 1%nat ["runs"; "generator-00250000.pt"] None))
       [["runs"; "generator-00250000.pt"]; ["runs"; "generator-00250000.pt"]],
     Ok 1%nat).
Proof.
  destruct (proj2 (load_model_never_hits nat Samples.Generator
                     Samples.Path_of_str Samples.is_dir Samples.latest_path
                     Samples.checkpoint_load None
                     (mkState nat
                        (Some (mkCache nat 1%nat
                                 ["runs"; "generator-00250000.pt"] None))
                        [["runs"; "generator-00250000.pt"]]))
              ["runs"]) as [Hmiss _].
  - reflexivity.
  - discriminate.
  - intros c Hc. injection Hc as <-. discriminate.
  - rewrite Hmiss. reflexivity.
Defined.

Lemma synthesize_all_writes_outputs_witness :
  exists generated : nat,
    snd (fst (Samples.synthesize (AsPath ["model.pt"])
                [Samples.item "000001-original-100.wav"]))
      !! (Example.subjective // "0001" // "000001-original-100.wav")
    = Some (Samples.wav generated).
Proof.
  assert (Hrun : Samples.synthesize (AsPath ["model.pt"])
                   [Samples.item "000001-original-100.wav"]
                 = (fst (Samples.synthesize (AsPath ["model.pt"])
                           [Samples.item "000001-original-100.wav"]), None))
    by reflexivity.
  apply (proj1 (synthesize_all_writes_outputs nat nat Samples.Generator
                  Samples.Path_of_str Samples.is_dir Samples.latest_path
                  Samples.checkpoint_load Samples.forward Samples.load_ppg
                  Samples.wav _ _ _ _ _ _ _ Hrun)
           (Samples.item "000001-original-100.wav")).
  apply list_elem_of_here.
Defined.

Lemma synthesize_all_loads_witness :
  loaded nat (fst (fst (Samples.synthesize (AsStr "model.pt")
                          [Samples.item "a.wav"; Samples.item "b.wav"])))
  = [["model.pt"]; ["model.pt"]] /\
  loaded nat (fst (fst (Samples.synthesize (AsPath ["model.pt"])
                          [Samples.item "a.wav"; Samples.item "b.wav"])))
  = [["model.pt"]].
Proof.
  split.
  - assert (Hrun : Samples.synthesize (AsStr "model.pt")
                     [Samples.item "a.wav"; Samples.item "b.wav"]
                   = (fst (Samples.synthesize (AsStr "model.pt")
                             [Samples.item "a.wav"; Samples.item "b.wav"]), None))
      by reflexivity.
    exact (proj1 (synthesize_all_loads nat nat Samples.Generator
                    Samples.Path_of_str Samples.is_dir Samples.latest_path
                    Samples.checkpoint_load Samples.forward Samples.load_ppg
                    Samples.wav _ _ _ _ Samples.fresh _) "model.pt" Hrun).
  - assert (Hrun : Samples.synthesize (AsPath ["model.pt"])
                     [Samples.item "a.wav"; Samples.item "b.wav"]
                   = (fst (Samples.synthesize (AsPath ["model.pt"])
                             [Samples.item "a.wav"; Samples.item "b.wav"]), None))
      by reflexivity.
    assert (Hitems : [Samples.item "a.wav"; Samples.item "b.wav"] <> [])
      by discriminate.
    exact (proj2 (synthesize_all_loads nat nat Samples.Generator
                    Samples.Path_of_str Samples.is_dir Samples.latest_path
                    Samples.checkpoint_load Samples.forward Samples.load_ppg
                    Samples.wav _ _ _ _ Samples.fresh _)
             ["model.pt"] eq_refl eq_refl Hitems Hrun).
Defined.

End SynthesizeProps.

Module AdaptProps.
Import Torch TorchFacts Adapt.
Open Scope R_scope.

Lemma fold_peak_scale (c m : R) (audio : list R) :
  0 <= c ->
  fold_left (fun m y => Rmax m (Rabs y)) (map (fun x => x * c) audio) (m * c)
  = fold_left (fun m y => Rmax m (Rabs y)) audio m * c.
Proof.
  intros Hc. revert m. induction audio as [|y audio IH]; intros m; [reflexivity|].
  cbn [map fold_left]. rewrite <- IH. f_equal.
  rewrite Rabs_mult, (Rabs_pos_eq c Hc).
  unfold Rmax. destruct (Rle_dec (m * c) (Rabs y * c)), (Rle_dec m (Rabs y));
    try reflexivity; nra.
Qed.

Lemma fold_peak_bound (m : R) (audio : list R) :
  let top := fold_left (fun m y => Rmax m (Rabs y)) audio m in
  m <= top /\ Forall (fun y => Rabs y <= top) audio /\
  (top = m \/ Exists (fun y => Rabs y = top) audio).
Proof.
  revert m. induction audio as [|y audio IH]; intros m; cbn [fold_left].
  - cbv zeta. split; [lra|]. split; [constructor|left; reflexivity].
  - cbv zeta. specialize (IH (Rmax m (Rabs y))). cbv zeta in IH.
    destruct IH as (Hle & Hall & Hex).
    pose proof (Rmax_l m (Rabs y)). pose proof (Rmax_r m (Rabs y)).
    split; [lra|]. split; [constructor; [lra|exact Hall]|].
    destruct Hex as [Heq|Hex]; [|right; right; exact Hex].
    rewrite Heq. unfold Rmax. destruct (Rle_dec m (Rabs y)).
    + right. left. reflexivity.
    + left. reflexivity.
Qed.

(** X18: the peak of an audio signal that is not empty is the largest
    absolute value of its samples.  A signal whose peak is at least 0.35 is
    left as it is; a signal whose peak is positive and below 0.35 is scaled,
    sample by sample, to a signal of the same length whose peak is exactly
    0.35. *)
Theorem increase_volume_peak (audio : list R) (maximum : R) :
  peak audio = Ok maximum ->
  0 <= maximum /\
  Forall (fun x => Rabs x <= maximum) audio /\
  Exists (fun x => Rabs x = maximum) audio /\
  (35 / 100 <= maximum -> increase_volume audio = Ok audio) /\
  (0 < maximum < 35 / 100 ->
   exists louder,
     increase_volume audio = Ok louder /\
     length louder = length audio /\
     peak louder = Ok (35 / 100)).
Proof.
  intros Hpeak. destruct audio as [|x audio]; [discriminate|].
  cbn [peak] in Hpeak. injection Hpeak as Hmax.
  pose proof (fold_peak_bound (Rabs x) audio) as Hb. cbv zeta in Hb.
  rewrite Hmax in Hb. destruct Hb as (Hle & Hall & Hex).
  pose proof (Rabs_pos x) as Hx.
  split; [lra|]. split; [constructor; assumption|].
  split; [destruct Hex as [->|Hex]; [left; reflexivity|right; exact Hex]|].
  unfold increase_volume. cbn [peak]. rewrite Hmax.
  change (Ok maximum ≫= ?f) with (f maximum). cbv beta.
  split.
  - intros Hloud. rewrite Rltb_false by lra. reflexivity.
  - intros Hquiet. rewrite Rltb_true by lra.
    eexists. split; [reflexivity|].
    split; [apply length_map|].
    cbn [map peak]. f_equal.
    assert (Hc : 0 <= 35 / 100 / maximum).
    { apply Rlt_le, Rdiv_lt_0_compat; lra. }
    rewrite Rabs_mult, (Rabs_pos_eq _ Hc), fold_peak_scale by exact Hc.
    rewrite Hmax. field. lra.
Qed.

Lemma increase_volume_peak_witness :
  exists louder,
    increase_volume [1 / 10; - (7 / 100)] = Ok louder /\
    length louder = 2%nat /\ peak louder = Ok (35 / 100).
Proof.
  assert (Hpeak : peak [1 / 10; - (7 / 100)] = Ok (1 / 10)).
  { cbn [peak fold_left]. f_equal.
    rewrite Rabs_Ropp, !Rabs_pos_eq by lra. apply Rmax_left. lra. }
  apply (increase_volume_peak _ _ Hpeak). lra.
Defined.

End AdaptProps.

Module DiscriminatorProps.
Import Discriminator.
Open Scope Z_scope.

(** X19: for a positive period and a signal of t samples, the reshaping of
    the period discriminator raises when 0 < t and 2 * t <= period;
    otherwise it appends fewer samples than the period, so that the padded
    length is rows * period with rows the ceiling of t / period.  With six
    samples or more it succeeds for each of the periods 2, 3, 5, 7, 11. *)
Theorem pad_to_period_shape (period t : Z) :
  0 < period -> 0 <= t ->
  (0 < t /\ 2 * t <= period ->
   pad_to_period period t
   = Raise (RuntimeError "padding size should be less than the input")) /\
  (t = 0 \/ period < 2 * t ->
   exists n_pad rows,
     pad_to_period period t = Ok (n_pad, (rows, period)) /\
     0 <= n_pad < period /\
     rows * period = t + n_pad /\
     rows = (t + period - 1) / period) /\
  (period ∈ periods -> 6 <= t ->
   exists shape, pad_to_period period t = Ok shape).
Proof.
  intros Hperiod Ht.
  pose proof (Z.mod_pos_bound t period Hperiod) as Hmod.
  pose proof (Z.div_mod t period ltac:(lia)) as Hdiv.
  assert (Hok : t = 0 \/ period < 2 * t ->
     exists n_pad rows,
       pad_to_period period t = Ok (n_pad, (rows, period)) /\
       0 <= n_pad < period /\
       rows * period = t + n_pad /\
       rows = (t + period - 1) / period).
  { intros Hlong. unfold pad_to_period.
    destruct (Z.eqb_spec (t mod period) 0) as [E|E]; cbn [negb andb].
    - rewrite Z.add_0_r.
      assert (Hexact : t / period * period = t) by lia.
      rewrite (proj2 (Z.eqb_eq _ _) Hexact).
      eexists _, _. split; [reflexivity|]. split; [lia|]. split; [lia|].
      apply (Z.div_unique _ _ _ (period - 1)); lia.
    - assert (Hlt : (t <=? period - t mod period) = false).
      { apply Z.leb_gt. destruct Hlong as [->|Hlong].
        - rewrite Z.mod_0_l in E by lia. lia.
        - destruct (Z_lt_le_dec t period) as [Hs|Hs].
          + rewrite Z.mod_small in * by lia. lia.
          + lia. }
      rewrite Hlt.
      assert (Hq : (t + (period - t mod period)) / period = t / period + 1).
      { symmetry. apply (Z.div_unique _ _ _ 0); lia. }
      rewrite Hq.
      assert (Hexact : (t / period + 1) * period = t + (period - t mod period))
        by lia.
      rewrite (proj2 (Z.eqb_eq _ _) Hexact).
      eexists _, _. split; [reflexivity|]. split; [lia|]. split; [lia|].
      apply (Z.div_unique _ _ _ (t mod period - 1)); lia. }
  split; [|split; [exact Hok|]].
  - intros [Hpos Hshort]. unfold pad_to_period.
    rewrite Z.mod_small by lia.
    destruct (Z.eqb_spec t 0) as [E|E]; [lia|]. cbn [negb andb].
    rewrite (proj2 (Z.leb_le _ _)) by lia. reflexivity.
  - intros Hin Hlen.
    assert (Hbound : period <= 11).
    { unfold periods in Hin. rewrite !elem_of_cons, elem_of_nil in Hin. lia. }
    destruct Hok as (n_pad & rows & Heq & _); [right; lia|].
    eexists. exact Heq.
Qed.

Lemma pad_to_period_shape_witness :
  pad_to_period 11 5
  = Raise (RuntimeError "padding size should be less than the input") /\
  (exists n_pad rows,
     pad_to_period 11 6 = Ok (n_pad, (rows, 11)) /\
     0 <= n_pad < 11 /\ rows * 11 = 6 + n_pad /\ rows = (6 + 11 - 1) / 11).
Proof.
  split.
  - apply (pad_to_period_shape 11 5); lia.
  - apply (pad_to_period_shape 11 6); lia.
Defined.

End DiscriminatorProps.

Module PipelineProps.
Import PyStr PyStrFacts Pathlib PathlibFacts Files FilesFacts Torch TorchFacts.
Import Evaluate ConditionsSpec Pipeline.

Lemma contains_append (c : ascii) (s1 s2 : string) :
  contains c (s1 +:+ s2) = contains c s1 || contains c s2.
Proof.
  induction s1 as [|a s1 IH]; [reflexivity|].
  rewrite append_cons. cbn [contains]. rewrite IH, orb_assoc. reflexivity.
Qed.

Lemma split_absent (c : ascii) (s : string) :
  contains c s = false -> split c s = [s].
Proof.
  induction s as [|a s IH]; [reflexivity|].
  cbn [contains split]. intros H. apply orb_false_elim in H as [Ha Hs].
  rewrite Ha, (IH Hs). reflexivity.
Qed.

Lemma split_skip (c : ascii) (s1 s2 : string) :
  contains c s1 = false ->
  split c (s1 +:+ String c s2) = s1 :: split c s2.
Proof.
  induction s1 as [|a s1 IH]; intros H.
  - rewrite append_nil. cbn [split]. rewrite Ascii.eqb_refl. reflexivity.
  - cbn [contains] in H. apply orb_false_elim in H as [Ha Hs].
    rewrite append_cons. cbn [split]. rewrite Ha, (IH Hs). reflexivity.
Qed.

Lemma eqb_length_ne (a b : string) :
  String.length a <> String.length b -> String.eqb a b = false.
Proof.
  intros H. destruct (String.eqb_spec a b) as [->|_]; [contradiction|reflexivity].
Qed.

Lemma drop_append (s1 s2 : string) (j : nat) :
  (j <= String.length s2)%nat ->
  drop (String.length s1 + j) (s1 +:+ s2) = drop j s2.
Proof.
  intros Hj. unfold drop. rewrite length_append.
  replace (String.length s1 + String.length s2 - (String.length s1 + j))%nat
    with (String.length s2 - j)%nat by lia.
  induction s1 as [|a s1 IH]; [reflexivity|].
  rewrite append_cons. cbn [String.length Nat.add substring]. exact IH.
Qed.

(** The suffix of [s1 ++ s2] when the last dot is in [s2]. *)
Lemma suffix_of_name_append (s1 s2 : string) (j : nat) :
  rfind "." s2 = Some j ->
  (0 <? String.length s1 + j)%nat = true ->
  (j <? String.length s2 - 1)%nat = true ->
  suffix_of_name (s1 +:+ s2) = drop j s2.
Proof.
  intros Hj H0 H1. unfold suffix_of_name, suffix_index.
  rewrite (rfind_skip _ s1 s2 j Hj), H0, length_append.
  apply Nat.ltb_lt in H1.
  destruct (Nat.ltb_spec (String.length s1 + j)
              (String.length s1 + String.length s2 - 1)) as [_|H]; [|lia].
  cbn [andb]. apply drop_append. lia.
Qed.

(** A speaker and an utterance, joined by a separator, are two components
    of the path. *)
Lemma joinpath_stem (p : Path) (speaker utterance tail : string) :
  all_digits speaker = true -> speaker <> "" ->
  all_digits utterance = true ->
  contains "/" tail = false -> (2 <= String.length tail)%nat ->
  joinpath p (speaker +:+ "/" +:+ utterance +:+ tail)
  = p // speaker // (utterance +:+ tail).
Proof.
  intros Hspeaker Hne Hutt Htail Hlen. unfold joinpath, Pathlib.join.
  rewrite <- app_assoc. f_equal.
  change ("/" +:+ utterance +:+ tail) with (String "/" (utterance +:+ tail)).
  rewrite split_skip by (apply contains_digits; [reflexivity|exact Hspeaker]).
  rewrite split_absent.
  2:{ rewrite contains_append, Htail, orb_false_r.
      apply contains_digits; [reflexivity|exact Hutt]. }
  cbn [List.filter].
  assert (Hs : negb (String.eqb speaker "") && negb (String.eqb speaker ".")
               = true).
  { destruct speaker as [|a speaker]; [contradiction|].
    cbn [all_digits] in Hspeaker. apply andb_prop in Hspeaker as [Ha _].
    cbn [String.eqb]. destruct (Ascii.eqb_spec a ".") as [->|_];
      [discriminate Ha|reflexivity]. }
  rewrite Hs.
  rewrite !(eqb_length_ne (utterance +:+ tail))
    by (rewrite length_append; cbn [String.length]; lia).
  reflexivity.
Qed.

(** X20: for a stem made of a speaker and an utterance, both of digits, the
    copy of a cached feature file, text file or alignment file goes to the
    directory of the speaker under the name
    [<utterance>-original-100-<feature><suffix>], where the feature of a
    [.txt] file is [text] and that of a [.json] file is [alignment]. *)
Theorem original_file_names (original_objective_directory cache : Path)
  (speaker utterance : string) :
  all_digits speaker = true -> speaker <> "" ->
  all_digits utterance = true ->
  let stem := speaker +:+ "/" +:+ utterance in
  (forall feature : string,
     feature ∈ ["loudness"; "periodicity"; "phonemes"; "pitch"; "voicing"] ->
     original_file original_objective_directory stem
       (cache // speaker // (utterance +:+ "-100-" +:+ feature +:+ ".pt"))
     = original_objective_directory // speaker //
         (utterance +:+ "-original-100-" +:+ feature +:+ ".pt")) /\
  original_file original_objective_directory stem
    (cache // speaker // (utterance +:+ "-100.txt"))
  = original_objective_directory // speaker //
      (utterance +:+ "-original-100-text.txt") /\
  original_file original_objective_directory stem
    (cache // speaker // (utterance +:+ "-100.json"))
  = original_objective_directory // speaker //
      (utterance +:+ "-original-100-alignment.json").
Proof.
  intros Hspeaker Hne Hutt stem.
  assert (Hdash : contains "-" utterance = false)
    by (apply contains_digits; [reflexivity|exact Hutt]).
  split; [|split].
  - intros feature Hfeature. unfold original_file, Pathlib.suffix, Pathlib.stem.
    rewrite name_join.
    in_cases Hfeature.
    all: erewrite suffix_of_name_append;
      [ | vm_compute; reflexivity | apply Nat.ltb_lt; lia | vm_compute; reflexivity ].
    all: match goal with
         | |- context [drop ?j ?t] =>
             let v := eval vm_compute in (drop j t) in
             change (drop j t) with v
         end.
    all: cbn [String.eqb Ascii.eqb Bool.eqb].
    all: stem_of_tail.
    all: match goal with
         | |- context [take ?j ?t] =>
             let v := eval vm_compute in (take j t) in
             change (take j t) with v
         end.
    all: change ("-100-" +:+ ?f) with (String "-" ("100-" +:+ f)).
    all: rewrite split_skip by exact Hdash.
    all: cbn [List.last PyStr.split Ascii.eqb Bool.eqb append].
    all: unfold stem; rewrite !append_assoc.
    all: apply joinpath_stem;
      first [assumption | reflexivity | apply Nat.leb_le; reflexivity].
  - unfold original_file, Pathlib.suffix, Pathlib.stem. rewrite name_join.
    erewrite suffix_of_name_append;
      [ | vm_compute; reflexivity | apply Nat.ltb_lt; lia | vm_compute; reflexivity ].
    cbn [String.eqb Ascii.eqb Bool.eqb].
    unfold stem; rewrite !append_assoc.
    apply joinpath_stem;
      first [assumption | reflexivity | apply Nat.leb_le; reflexivity].
  - unfold original_file, Pathlib.suffix, Pathlib.stem. rewrite name_join.
    erewrite suffix_of_name_append;
      [ | vm_compute; reflexivity | apply Nat.ltb_lt; lia | vm_compute; reflexivity ].
    cbn [String.eqb Ascii.eqb Bool.eqb].
    unfold stem; rewrite !append_assoc.
    apply joinpath_stem;
      first [assumption | reflexivity | apply Nat.leb_le; reflexivity].
Qed.

(** A loop that loads, transforms and saves one tensor per feature: when
    no destination is a source and the destinations are pairwise distinct,
    each destination ends up with the transform of what its source held at
    the start, and no other path changes. *)
Lemma transform_loop (body : string -> FS -> result FS)
  (inp out : string -> Path) (tr : string -> list R -> result (list R))
  (orig res : string -> list R) (features : list string) (fs : FS) :
  (forall f fs0, f ∈ features ->
     body f fs0 = (x ← torch_load (inp f) fs0; y ← tr f x;
                   Ok (torch_save y (out f) fs0))) ->
  (forall f, f ∈ features -> fs !! inp f = Some (Tensor (orig f))) ->
  (forall f, f ∈ features -> tr f (orig f) = Ok (res f)) ->
  (forall f g, f ∈ features -> g ∈ features -> inp f <> out g) ->
  NoDup (map out features) ->
  exists fs' : FS,
    for_fold body features fs = Ok fs' /\
    (forall f, f ∈ features -> fs' !! out f = Some (Tensor (res f))) /\
    (forall p, (forall f, f ∈ features -> p <> out f) -> fs' !! p = fs !! p).
Proof.
  revert fs.
  induction features as [|f features IH]; intros fs Hbody Hin Htr Hio Hnd.
  - exists fs. split; [reflexivity|]. split; [|reflexivity].
    intros f Hf. apply elem_of_nil in Hf as [].
  - assert (Hstep : body f fs = Ok (torch_save (res f) (out f) fs)).
    { rewrite Hbody by apply list_elem_of_here. unfold torch_load.
      rewrite Hin by apply list_elem_of_here. cbn [mbind result_bind].
      rewrite Htr by apply list_elem_of_here. reflexivity. }
    cbn [map] in Hnd. apply NoDup_cons in Hnd as [Hfresh Hnd].
    destruct (IH (torch_save (res f) (out f) fs)) as (fs' & Hrun & Hsaved & Hother).
    + intros g fs0 Hg. apply Hbody, list_elem_of_further, Hg.
    + intros g Hg. unfold torch_save. rewrite lookup_insert_ne.
      * apply Hin, list_elem_of_further, Hg.
      * intros E. apply (Hio g f);
          [apply list_elem_of_further, Hg|apply list_elem_of_here|].
        symmetry. exact E.
    + intros g Hg. apply Htr, list_elem_of_further, Hg.
    + intros g h Hg Hh. apply Hio; apply list_elem_of_further; assumption.
    + exact Hnd.
    + exists fs'. split; [|split].
      * cbn [for_fold]. rewrite Hstep. exact Hrun.
      * intros g Hg. apply elem_of_cons in Hg as [->|Hg]; [|exact (Hsaved g Hg)].
        rewrite Hother.
        -- apply lookup_insert_eq.
        -- intros h Hh E. apply Hfresh. rewrite E.
           apply list_elem_of_fmap. exists h. split; [reflexivity|exact Hh].
      * intros p Hp. rewrite Hother.
        -- apply lookup_insert_ne. intros E.
           apply (Hp f); [apply list_elem_of_here|]. symmetry. exact E.
        -- intros g Hg. apply Hp, list_elem_of_further, Hg.
Qed.

Section Stretch.

Variable ppgs_edit_grid_sample : list R -> list R -> result (list R).

Abbreviation stretch_feature := (Pipeline.stretch_feature ppgs_edit_grid_sample).

(** Stretching returns one frame per grid entry when the grid stays inside
    a feature of two frames or more. *)
Lemma stretch_feature_total (feature : string) (original_feature grid : list R) :
  (2 <= length original_feature)%nat ->
  (forall x : R, x ∈ grid ->
     (0 <= x <= IZR (Z.of_nat (length original_feature) - 1))%R) ->
  exists stretched : list R,
    stretch_feature feature original_feature grid = Ok stretched /\
    length stretched = length grid.
Proof.
  intros Hn Hgrid.
  assert (Hlinear : forall fp : list R, (2 <= length fp)%nat ->
            exists out, for_each (Interpolate.linear_at fp) grid = Ok out /\
                        length out = length grid).
  { intros fp Hfp.
    destruct (InterpolateProps.for_each_pointwise (Interpolate.linear_at fp)
                (fun _ _ => True) grid) as (out & Hout & Hall).
    { intros x _. destruct (InterpolateProps.linear_at_total fp x Hfp) as [y Hy].
      exists y. split; [exact Hy|exact I]. }
    exists out. split; [exact Hout|]. symmetry. exact (Forall2_length _ _ _ Hall). }
  unfold Pipeline.stretch_feature.
  destruct (_ || _).
  - exact (Hlinear original_feature Hn).
  - destruct (_ || _).
    + destruct (InterpolateProps.for_each_pointwise
                  (Interpolate.nearest_at original_feature)
                  (fun _ _ => True) grid) as (out & Hout & Hall).
      { intros x Hx.
        destruct (InterpolateProps.nearest_at_inside original_feature x
                    (Hgrid x Hx)) as (y & Hy & _).
        exists y. split; [exact Hy|exact I]. }
      exists out. split; [exact Hout|].
      symmetry. exact (Forall2_length _ _ _ Hall).
    + unfold Interpolate.pitch.
      destruct (Hlinear (map log2 original_feature)) as (out & Hout & Hlen);
        [rewrite length_map; exact Hn|].
      exists (map exp2 out).
      change (Interpolate.grid_sample ppgs_edit_grid_sample
                (map log2 original_feature) grid "linear")
        with (for_each (Interpolate.linear_at (map log2 original_feature)) grid).
      rewrite Hout. split; [reflexivity|]. rewrite length_map. exact Hlen.
Qed.

Section Utterance.

Variable stem : string.
Hypothesis stem_digits : all_digits stem = true.
Hypothesis stem_length : String.length stem = 6%nat.
Variables directory original_objective_directory : Path.

Let condition : Path := original_objective_directory // name directory.

Lemma grid_file_name (ratio : Q) :
  grid_file original_objective_directory ratio
    (directory // (stem +:+ "-original-100-alignment.json"))
  = condition //
      (stem +:+ "-" +:+ ("stretched-" +:+ percent ratio) +:+ "-grid.pt").
Proof.
  unfold grid_file, Pathlib.stem.
  rewrite name_join, parent_join. stem_of_tail.
  rewrite <- stem_length, take_length. reflexivity.
Qed.

Lemma stretch_save_names (ratio : Q) (grid : list R) (feature : string) (fs : FS) :
  ratio ∈ RATIOS ->
  feature ∈ ["loudness"; "periodicity"; "phonemes"; "pitch"; "voicing"] ->
  let key := "stretched-" +:+ percent ratio in
  stretch_save ppgs_edit_grid_sample key
    (condition // (stem +:+ "-" +:+ key +:+ "-grid.pt")) grid feature fs
  = (x ← torch_load
           (condition // (stem +:+ "-original-100-" +:+ feature +:+ ".pt")) fs;
     y ← stretch_feature feature x grid;
     Ok (torch_save y
           (condition // (stem +:+ "-" +:+ key +:+ "-" +:+ feature +:+ ".pt"))
           fs)).
Proof.
  intros Hratio Hfeature key. unfold stretch_save, key.
  rewrite !name_join, !parent_join. cbv zeta.
  unfold RATIOS in Hratio.
  in_cases Hratio; in_cases Hfeature.
  all: match goal with
       | |- context [percent ?q] =>
           let v := eval vm_compute in ("stretched-" +:+ percent q) in
           change ("stretched-" +:+ percent q) with v
       end.
  all: repeat (skip_stem stem_digits; eval_closed stem).
  all: reflexivity.
Qed.

Let original_name (tail : string) : Path :=
  condition // (stem +:+ "-original-100-" +:+ tail).
Let stretched_name (ratio : Q) (tail : string) : Path :=
  condition // (stem +:+ "-" +:+ ("stretched-" +:+ percent ratio) +:+ "-" +:+ tail).

Lemma original_ne_stretched (ratio : Q) (tail tail' : string) :
  original_name tail <> stretched_name ratio tail'.
Proof.
  unfold original_name, stretched_name. apply join_name_ne.
  intros E. discriminate E.
Qed.

Lemma stretched_name_inj (ratio : Q) (tail tail' : string) :
  stretched_name ratio tail = stretched_name ratio tail' -> tail = tail'.
Proof.
  unfold stretched_name. intros E. apply app_inj_tail in E as [_ E].
  do 4 apply append_inj_r in E. exact E.
Qed.

Lemma stretch_text_names (ratio : Q) (fs : FS) :
  ratio ∈ RATIOS ->
  let key := "stretched-" +:+ percent ratio in
  let grid_file := condition // (stem +:+ "-" +:+ key +:+ "-grid.pt") in
  with_suffix
    (parent grid_file //
       replace "grid" "text" (replace key "original-100" (name grid_file)))
    ".txt" = original_name "text.txt" /\
  with_suffix
    (parent grid_file // replace "grid" "text" (name grid_file)) ".txt"
  = stretched_name ratio "text.txt".
Proof.
  intros Hratio key grid_file. unfold grid_file, key, with_suffix, Pathlib.stem,
    original_name, stretched_name.
  rewrite !name_join, !parent_join. unfold RATIOS in Hratio.
  in_cases Hratio.
  all: match goal with
       | |- context [percent ?q] =>
           let v := eval vm_compute in ("stretched-" +:+ percent q) in
           change ("stretched-" +:+ percent q) with v
       end.
  all: repeat (skip_stem stem_digits; eval_closed stem).
  all: split; stem_of_tail; rewrite append_assoc; reflexivity.
Qed.

(** X21: for a ratio of the ratio set and an original alignment of a stem
    of six digits, when the five original features of the utterance hold
    tensors of the same number of frames, two or more, the text file exists
    and the grid stays between the first and the last frame, the loop body
    of the time-stretching returns: it saves the grid, saves for each
    feature the original stretched along the grid with the method of the
    feature, with one frame per grid entry, copies the text, and changes no
    other file. *)
Theorem stretch_file_outputs (ratio : Q) (grid : list R)
  (original : string -> list R) (frames : nat) (fs : FS) :
  ratio ∈ RATIOS ->
  (2 <= frames)%nat ->
  (forall x : R, x ∈ grid -> (0 <= x <= IZR (Z.of_nat frames - 1))%R) ->
  (forall feature : string,
     feature ∈ ["loudness"; "periodicity"; "phonemes"; "pitch"; "voicing"] ->
     fs !! (condition // (stem +:+ "-original-100-" +:+ feature +:+ ".pt"))
       = Some (Tensor (original feature)) /\
     length (original feature) = frames) ->
  is_Some (fs !! (condition // (stem +:+ "-original-100-" +:+ "text.txt"))) ->
  let key := "stretched-" +:+ percent ratio in
  exists fs' : FS,
    stretch_file original_objective_directory ppgs_edit_grid_sample ratio
      (directory // (stem +:+ "-original-100-alignment.json")) grid fs
    = Ok fs' /\
    fs' !! (condition // (stem +:+ "-" +:+ key +:+ "-" +:+ "grid.pt"))
      = Some (Tensor grid) /\
    (forall feature : string,
       feature ∈ ["loudness"; "periodicity"; "phonemes"; "pitch"; "voicing"] ->
       exists stretched : list R,
         stretch_feature feature (original feature) grid = Ok stretched /\
         length stretched = length grid /\
         fs' !! (condition //
                   (stem +:+ "-" +:+ key +:+ "-" +:+ feature +:+ ".pt"))
           = Some (Tensor stretched)) /\
    fs' !! (condition // (stem +:+ "-" +:+ key +:+ "-" +:+ "text.txt"))
      = fs !! (condition // (stem +:+ "-original-100-" +:+ "text.txt")) /\
    (forall p : Path,
       (forall tail : string,
          tail ∈ ["grid.pt"; "loudness.pt"; "periodicity.pt"; "phonemes.pt";
                  "pitch.pt"; "voicing.pt"; "text.txt"] ->
          p <> condition // (stem +:+ "-" +:+ key +:+ "-" +:+ tail)) ->
       fs' !! p = fs !! p).
Proof.
  intros Hratio Hframes Hgrid Hfeatures [text Htext] key.
  set (features := ["loudness"; "periodicity"; "phonemes"; "pitch"; "voicing"])
    in *.
  fold (original_name "text.txt") in Htext |- *.
  fold (stretched_name ratio "grid.pt") (stretched_name ratio "text.txt").
  set (res := fun f =>
         match stretch_feature f (original f) grid with
         | Ok y => y
         | Raise _ => []
         end).
  assert (Hres : forall f, f ∈ features ->
            stretch_feature f (original f) grid = Ok (res f) /\
            length (res f) = length grid).
  { intros f Hf. destruct (Hfeatures f Hf) as [_ Hlen].
    destruct (stretch_feature_total f (original f) grid) as (y & Hy & Hylen).
    - rewrite Hlen. exact Hframes.
    - rewrite Hlen. exact Hgrid.
    - unfold res. rewrite Hy. split; [reflexivity|exact Hylen]. }
  assert (Htails : forall f, f ∈ features ->
            f +:+ ".pt" ∈ ["grid.pt"; "loudness.pt"; "periodicity.pt";
                           "phonemes.pt"; "pitch.pt"; "voicing.pt"; "text.txt"]
            /\ f +:+ ".pt" <> "grid.pt" /\ f +:+ ".pt" <> "text.txt").
  { intros f Hf. unfold features in Hf. in_cases Hf.
    all: split; [|split; discriminate].
    all: repeat first [apply list_elem_of_here | apply list_elem_of_further]. }
  unfold stretch_file. rewrite grid_file_name. fold key. cbv zeta.
  destruct (stretch_text_names ratio fs Hratio) as [Hin Hout].
  fold key in Hin, Hout. rewrite Hin, Hout.
  change (condition // (stem +:+ "-" +:+ key +:+ "-grid.pt"))
    with (stretched_name ratio "grid.pt").
  fold features.
  destruct (transform_loop
              (stretch_save ppgs_edit_grid_sample key
                 (stretched_name ratio "grid.pt") grid)
              (fun f => original_name (f +:+ ".pt"))
              (fun f => stretched_name ratio (f +:+ ".pt"))
              (fun f x => stretch_feature f x grid)
              original res features
              (torch_save grid (stretched_name ratio "grid.pt") fs))
    as (fs1 & Hrun & Hsaved & Hother).
  - intros f fs0 Hf. apply (stretch_save_names ratio grid f fs0 Hratio Hf).
  - intros f Hf. unfold torch_save. rewrite lookup_insert_ne.
    + apply (Hfeatures f Hf).
    + intros E. symmetry in E. exact (original_ne_stretched _ _ _ E).
  - intros f Hf. apply (Hres f Hf).
  - intros f g _ _. apply original_ne_stretched.
  - apply NoDup_fmap_2_strong.
    + intros f g Hf Hg E. apply stretched_name_inj in E.
      unfold features in Hf, Hg.
      in_cases Hf; in_cases Hg; first [reflexivity | discriminate E].
    + unfold features. apply NoDup_ListNoDup.
      repeat constructor; cbn; intuition discriminate.
  - rewrite Hrun. cbn [mbind result_bind].
    assert (Htext1 : fs1 !! original_name "text.txt" = Some text).
    { rewrite Hother.
      - unfold torch_save. rewrite lookup_insert_ne; [exact Htext|].
        intros E. symmetry in E. exact (original_ne_stretched _ _ _ E).
      - intros f _. apply original_ne_stretched. }
    rewrite (copyfile_ok _ _ text fs1 Htext1 (original_ne_stretched _ _ _)).
    eexists. split; [reflexivity|]. split; [|split; [|split]].
    + rewrite lookup_insert_ne
        by (intros E; apply stretched_name_inj in E; discriminate E).
      rewrite Hother.
      * apply lookup_insert_eq.
      * intros f Hf E. apply stretched_name_inj in E.
        destruct (Htails f Hf) as (_ & Hne & _). congruence.
    + intros f Hf. destruct (Hres f Hf) as [Hok Hlen].
      exists (res f). split; [exact Hok|]. split; [exact Hlen|].
      rewrite lookup_insert_ne.
      * rewrite <- (Hsaved f Hf). unfold stretched_name.
        rewrite !append_assoc. reflexivity.
      * intros E.
        assert (E' : stretched_name ratio "text.txt"
                     = stretched_name ratio (f +:+ ".pt")).
        { rewrite E. unfold stretched_name. rewrite !append_assoc. reflexivity. }
        apply stretched_name_inj in E'.
        destruct (Htails f Hf) as (_ & _ & Hne). congruence.
    + rewrite lookup_insert_eq. symmetry. exact Htext.
    + intros p Hp.
      assert (Hp' : forall tail,
                tail ∈ ["grid.pt"; "loudness.pt"; "periodicity.pt"; "phonemes.pt";
                        "pitch.pt"; "voicing.pt"; "text.txt"] ->
                p <> stretched_name ratio tail).
      { intros tail Htail. exact (Hp tail Htail). }
      rewrite lookup_insert_ne.
      2:{ intros E. symmetry in E. revert E. apply Hp'.
          repeat first [apply list_elem_of_here | apply list_elem_of_further]. }
      rewrite Hother.
      * unfold torch_save. apply lookup_insert_ne.
        intros E. symmetry in E. revert E. apply Hp'.
        repeat first [apply list_elem_of_here | apply list_elem_of_further].
      * intros f Hf. apply Hp'. apply (Htails f Hf).
Qed.

End Utterance.
End Stretch.

Section Metrics.

Variable Prosody : Type.
Variable metric_fn : Prosody.

(** X22: the default metrics hold a fresh accumulator for [original-100]
    and for every condition [<word>-<percent>] where the word is scaled,
    shifted or stretched and the percent is that of a ratio of the ratio
    set, and for no other key. *)
Theorem default_metrics_conditions (condition : string) :
  let generated :=
    condition = "original-100" \/
    exists (prefix : string) (ratio : Q),
      prefix ∈ ["scaled"; "shifted"; "stretched"] /\ ratio ∈ RATIOS /\
      condition = prefix +:+ "-" +:+ percent ratio in
  (generated -> default_metrics Prosody metric_fn !! condition = Some metric_fn) /\
  (is_Some (default_metrics Prosody metric_fn !! condition) -> generated).
Proof.
  cbv zeta. split.
  - intros [->|(prefix & ratio & Hprefix & Hratio & ->)]; [reflexivity|].
    unfold RATIOS in Hratio. in_cases Hprefix; in_cases Hratio; reflexivity.
  - assert (Hmap : default_metrics Prosody metric_fn
                   = list_to_map (map (fun key => (key, metric_fn))
      ["original-100"; "scaled-050"; "scaled-071"; "scaled-141"; "scaled-200";
       "shifted-050"; "shifted-071"; "shifted-141"; "shifted-200";
       "stretched-050"; "stretched-071"; "stretched-141"; "stretched-200"]))
      by reflexivity.
    rewrite Hmap. intros [m Hm].
    apply elem_of_list_to_map_2, list_elem_of_fmap in Hm as (key & Hpair & Hkey).
    injection Hpair as -> _.
    assert (Hr : forall q : Q, q ∈ [5 # 10; 717 # 1000; 1414 # 1000; 2 # 1]%Q
                 -> q ∈ RATIOS) by (intros q H; exact H).
    in_cases Hkey; [left; reflexivity|..]; right.
    all: first
      [ exists "scaled", (5 # 10)%Q; split; [|split; [|reflexivity]]
      | exists "scaled", (717 # 1000)%Q; split; [|split; [|reflexivity]]
      | exists "scaled", (1414 # 1000)%Q; split; [|split; [|reflexivity]]
      | exists "scaled", (2 # 1)%Q; split; [|split; [|reflexivity]]
      | exists "shifted", (5 # 10)%Q; split; [|split; [|reflexivity]]
      | exists "shifted", (717 # 1000)%Q; split; [|split; [|reflexivity]]
      | exists "shifted", (1414 # 1000)%Q; split; [|split; [|reflexivity]]
      | exists "shifted", (2 # 1)%Q; split; [|split; [|reflexivity]]
      | exists "stretched", (5 # 10)%Q; split; [|split; [|reflexivity]]
      | exists "stretched", (717 # 1000)%Q; split; [|split; [|reflexivity]]
      | exists "stretched", (1414 # 1000)%Q; split; [|split; [|reflexivity]]
      | exists "stretched", (2 # 1)%Q; split; [|split; [|reflexivity]] ].
    all: unfold RATIOS;
      repeat first [apply list_elem_of_here | apply list_elem_of_further].
Qed.

End Metrics.

Lemma default_metrics_conditions_witness :
  default_metrics nat 0%nat !! "stretched-141" = Some 0%nat.
Proof.
  apply (proj1 (default_metrics_conditions nat 0%nat "stretched-141")).
  right. exists "stretched", (1414 # 1000)%Q.
  split; [|split; [|reflexivity]].
  - repeat first [apply list_elem_of_here | apply list_elem_of_further].
  - unfold RATIOS.
    repeat first [apply list_elem_of_here | apply list_elem_of_further].
Defined.

Lemma original_file_names_witness :
  original_file Example.original "0001/000001"
    (["cache"; "vctk"] // "0001" // "000001-100-pitch.pt")
  = Example.original // "0001" // "000001-original-100-pitch.pt".
Proof.
  assert (Hspeaker : "0001" <> "") by discriminate.
  apply (proj1 (original_file_names Example.original ["cache"; "vctk"]
                  "0001" "000001" eq_refl Hspeaker eq_refl) "pitch").
  repeat first [apply list_elem_of_here | apply list_elem_of_further].
Defined.

Lemma stretch_file_outputs_witness :
  exists fs' : FS,
    stretch_file Example.original Example.first_frame (5 # 10)
      (Example.speaker_directory // "000001-original-100-alignment.json")
      [0; 1 / 2; 2]%R Example.utterance = Ok fs' /\
    fs' !! (Example.original // "0001" // "000001-stretched-050-grid.pt")
      = Some (Tensor [0; 1 / 2; 2]%R) /\
    fs' !! (Example.original // "0001" // "000001-stretched-050-text.txt")
      = Some (Text "hello").
Proof.
  pose (original := fun feature : string =>
          if String.eqb feature "loudness" then [-20; -30; -25]%R
          else if String.eqb feature "pitch" then [30; 100; 400]%R
          else if String.eqb feature "phonemes" then [3; 3; 7]%R
          else [1; 0; 1]%R).
  assert (Hratio : (5 # 10)%Q ∈ RATIOS) by apply list_elem_of_here.
  assert (Hframes : (2 <= 3)%nat) by lia.
  assert (Hgrid : forall x : R, x ∈ [0; 1 / 2; 2]%R ->
                    (0 <= x <= IZR (Z.of_nat 3 - 1))%R).
  { intros x Hx. rewrite !elem_of_cons, elem_of_nil in Hx.
    change (IZR (Z.of_nat 3 - 1)) with 2%R.
    destruct Hx as [->|[->|[->|[]]]]; lra. }
  assert (Hfeatures : forall feature : string,
            feature ∈ ["loudness"; "periodicity"; "phonemes"; "pitch"; "voicing"] ->
            Example.utterance
              !! (Example.original // name Example.speaker_directory //
                    ("000001" +:+ "-original-100-" +:+ feature +:+ ".pt"))
            = Some (Tensor (original feature)) /\
            length (original feature) = 3%nat).
  { intros feature Hfeature. in_cases Hfeature; split; reflexivity. }
  assert (Htext : is_Some (Example.utterance
            !! (Example.original // name Example.speaker_directory //
                  ("000001" +:+ "-original-100-" +:+ "text.txt"))))
    by (eexists; reflexivity).
  destruct (stretch_file_outputs Example.first_frame "000001" eq_refl eq_refl
              Example.speaker_directory Example.original (5 # 10)
              [0; 1 / 2; 2]%R original 3%nat Example.utterance
              Hratio Hframes Hgrid Hfeatures Htext)
    as (fs' & Hrun & Hsaved & _ & Hcopied & _).
  exists fs'. split; [exact Hrun|]. split; [exact Hsaved|].
  etransitivity; [exact Hcopied|reflexivity].
Defined.

End PipelineProps.

Module ObjectiveProps.
Import PyStr PyStrFacts Pathlib PathlibFacts Files FilesFacts Evaluate.
Import PipelineProps.

Lemma append_nil_r (s : string) : s +:+ "" = s.
Proof.
  induction s as [|a s IH]; [reflexivity|]. rewrite append_cons, IH. reflexivity.
Qed.

(** The stem of an audio file whose name has no other dot. *)
Lemma stem_of_wav (s : string) :
  contains "." s = false -> s <> "" -> stem_of_name (s +:+ ".wav") = s.
Proof.
  intros Hdot Hne.
  rewrite (stem_of_name_append s ".wav" 0); [apply append_nil_r|reflexivity| |reflexivity].
  apply Nat.ltb_lt. destruct s; [contradiction|cbn [String.length]; lia].
Qed.

(** The condition that lines 444 reads off a stem [utterance-word-percent]. *)
Lemma condition_of_stem (utterance word percent : string) :
  all_digits utterance = true -> contains "-" word = false ->
  all_digits percent = true ->
  PyStr.join "-"
    (firstn 2 (skipn 1 (split "-" (utterance +:+ "-" +:+ word +:+ "-" +:+ percent))))
  = word +:+ "-" +:+ percent.
Proof.
  intros Hutt Hword Hpct.
  change ("-" +:+ word +:+ "-" +:+ percent)
    with (String "-" (word +:+ String "-" percent)).
  rewrite split_skip by (apply contains_digits; [reflexivity|exact Hutt]).
  rewrite split_skip by exact Hword.
  rewrite split_absent by (apply contains_digits; [reflexivity|exact Hpct]).
  reflexivity.
Qed.

Section Objective.

Variables objective_directory original_objective_directory : Path.
Variable Prosody : Type.
Variable Score : Type.
Variable Prosody_new : Prosody.
Variable Prosody_update : list (list R) -> Prosody -> result Prosody.
Variable Prosody_call : Prosody -> Score.

Abbreviation EvalState := (Evaluate.EvalState Prosody Score).
Abbreviation evaluate_file :=
  (Evaluate.evaluate_file objective_directory original_objective_directory
     Prosody Score Prosody_new Prosody_update Prosody_call).
Abbreviation evaluate_files :=
  (Evaluate.evaluate_files objective_directory original_objective_directory
     Prosody Score Prosody_new Prosody_update Prosody_call).
Abbreviation try_update :=
  (Evaluate.try_update Prosody Score Prosody_update).
Abbreviation stdin := (Evaluate.stdin Prosody Score).
Abbreviation stdout := (Evaluate.stdout Prosody Score).
Abbreviation raw := (Evaluate.raw Prosody Score).
Abbreviation metrics := (Evaluate.metrics Prosody Score).
Abbreviation speaker_metrics := (Evaluate.speaker_metrics Prosody Score).

(** The body of [try] leaves the output, the commands and the raw results
    as they are. *)
Lemma try_update_frame (predicted_prefix target_prefix : Path) (fs : FS)
  (file_metrics : Prosody) (st : EvalState) :
  let '(st', _, _) :=
    try_update predicted_prefix target_prefix fs file_metrics st in
  stdout st' = stdout st /\ stdin st' = stdin st /\ raw st' = raw st.
Proof.
  unfold Evaluate.try_update.
  destruct (load_args _ _ _) as [args|e]; [|repeat split].
  destruct (update_in _ _ _ _ _) as [d|e]; [|repeat split].
  cbn [Evaluate.speaker_metrics Evaluate.metrics Evaluate.raw Evaluate.stdout
       Evaluate.stdin].
  destruct (update_in _ _ _ _ _) as [d'|e]; [|repeat split].
  destruct (Prosody_update _ _); repeat split.
Qed.

(** One iteration: what is printed, what is read at the prompt and what is
    appended to the raw results. *)
Lemma evaluate_file_step (fs : FS) (key : string) (file : Path)
  (st : EvalState) :
  match evaluate_file fs key file st with
  | Completed st' =>
      (exists score : Score,
         raw st' = <[key := (default [] (raw st !! key)
                             ++ [(stem file, score)])%list]> (raw st)) /\
      ((stdout st' = stdout st /\ stdin st' = stdin st) \/
       (exists error : exn,
          stdout st' = (stdout st ++ [error])%list /\
          stdin st = pdb_continue :: stdin st'))
  | Aborted e st' =>
      e = BdbQuit /\ raw st' = raw st /\
      (exists error : exn, stdout st' = (stdout st ++ [error])%list) /\
      (exists commands, stdin st = pdb_quit :: commands) /\
      stdin st' = stdin st
  | Blocked st' =>
      raw st' = raw st /\
      (exists error : exn, stdout st' = (stdout st ++ [error])%list) /\
      stdin st = [] /\ stdin st' = []
  end.
Proof.
  unfold Evaluate.evaluate_file.
  pose proof (try_update_frame
                (objective_directory // name (parent file) // stem file)
                (original_objective_directory // name (parent file) // stem file)
                fs Prosody_new st) as Hframe.
  destruct (try_update _ _ _ _ _) as [[st1 file_metrics] [error|]].
  - destruct Hframe as (Hout & Hin & Hraw).
    cbn [Evaluate.stdin Evaluate.stdout Evaluate.raw Evaluate.metrics
         Evaluate.speaker_metrics].
    destruct (stdin st1) as [|[|] commands] eqn:Hcommands.
    + cbn [Evaluate.stdin Evaluate.stdout Evaluate.raw].
      rewrite <- Hin, Hout, Hraw. repeat split; eauto.
    + cbn [append_raw Evaluate.stdin Evaluate.stdout Evaluate.raw
           Evaluate.metrics Evaluate.speaker_metrics].
      rewrite Hraw, Hout, <- Hin. split; [eexists; reflexivity|].
      right. eexists. split; reflexivity.
    + cbn [Evaluate.stdin Evaluate.stdout Evaluate.raw].
      rewrite <- Hin, Hout, Hraw. repeat split; eauto.
  - destruct Hframe as (Hout & Hin & Hraw).
    cbn [append_raw Evaluate.stdin Evaluate.stdout Evaluate.raw
         Evaluate.metrics Evaluate.speaker_metrics].
    rewrite Hraw. split; [eexists; reflexivity|]. left. split; assumption.
Qed.

(** What a run has printed and read at the prompt when it ends. *)
Let accounted (st : EvalState) (run : outcome EvalState) : Prop :=
  match run with
  | Completed st' =>
      exists errors : list exn,
        stdout st' = (stdout st ++ errors)%list /\
        stdin st = (replicate (length errors) pdb_continue ++ stdin st')%list
  | Aborted e st' =>
      e = BdbQuit /\
      exists (errors : list exn) (error : exn) (commands : list pdb_command),
        stdout st' = (stdout st ++ errors ++ [error])%list /\
        stdin st
        = (replicate (length errors) pdb_continue ++ pdb_quit :: commands)%list
  | Blocked st' =>
      exists (errors : list exn) (error : exn),
        stdout st' = (stdout st ++ errors ++ [error])%list /\
        stdin st = replicate (length errors) pdb_continue
  end.

Lemma accounted_step (fs : FS) (key : string) (file : Path) (st : EvalState) :
  accounted st (evaluate_file fs key file st).
Proof.
  pose proof (evaluate_file_step fs key file st) as H. unfold accounted.
  destruct (evaluate_file fs key file st) as [st'|e st'|st'].
  - destruct H as [_ [[Hout Hin]|(error & Hout & Hin)]].
    + exists []. rewrite app_nil_r. split; [exact Hout|]. rewrite Hin. reflexivity.
    + exists [error]. split; [exact Hout|]. rewrite Hin. reflexivity.
  - destruct H as (-> & _ & (error & Hout) & (commands & Hin) & _).
    split; [reflexivity|]. exists [], error, commands.
    split; [exact Hout|exact Hin].
  - destruct H as (_ & (error & Hout) & Hin & _).
    exists [], error. split; [exact Hout|exact Hin].
Qed.

Lemma accounted_loop {A : Type} (body : A -> EvalState -> outcome EvalState)
  (l : list A) (st : EvalState) :
  (forall a st, accounted st (body a st)) -> accounted st (run_loop body l st).
Proof.
  intros Hbody. revert st. induction l as [|a l IH]; intros st.
  - exists []. rewrite app_nil_r. split; reflexivity.
  - cbn [run_loop]. pose proof (Hbody a st) as Ha.
    destruct (body a st) as [st1|e st1|st1]; [|exact Ha|exact Ha].
    destruct Ha as (errors1 & Hout1 & Hin1).
    pose proof (IH st1) as Hl. unfold accounted in Hl |- *.
    destruct (run_loop body l st1) as [st'|e st'|st'].
    + destruct Hl as (errors & Hout & Hin). exists (errors1 ++ errors)%list.
      rewrite Hout, Hout1, Hin1, Hin, length_app, replicate_add, !app_assoc.
      split; reflexivity.
    + destruct Hl as (-> & errors & error & commands & Hout & Hin).
      split; [reflexivity|].
      exists (errors1 ++ errors)%list, error, commands.
      rewrite Hout, Hout1, Hin1, Hin, length_app, replicate_add, !app_assoc.
      split; reflexivity.
    + destruct Hl as (errors & error & Hout & Hin).
      exists (errors1 ++ errors)%list, error.
      rewrite Hout, Hout1, Hin1, Hin, length_app, replicate_add, !app_assoc.
      split; reflexivity.
Qed.

(** X23: in the objective evaluation every printed exception is followed by
    one prompt of the debugger.  A run that completes has read one
    [continue] per printed exception; a run that is aborted ends with
    BdbQuit at the first [quit]; a run that blocks has printed one
    exception more than there were commands, all of them [continue]. *)
Theorem debugger_prompt_per_error (fs : FS) (files : list (string * list Path))
  (st : EvalState) :
  match evaluate_files fs files st with
  | Completed st' =>
      exists errors : list exn,
        stdout st' = (stdout st ++ errors)%list /\
        stdin st = (replicate (length errors) pdb_continue ++ stdin st')%list
  | Aborted e st' =>
      e = BdbQuit /\
      exists (errors : list exn) (error : exn) (commands : list pdb_command),
        stdout st' = (stdout st ++ errors ++ [error])%list /\
        stdin st
        = (replicate (length errors) pdb_continue ++ pdb_quit :: commands)%list
  | Blocked st' =>
      exists (errors : list exn) (error : exn),
        stdout st' = (stdout st ++ errors ++ [error])%list /\
        stdin st = replicate (length errors) pdb_continue
  end.
Proof.
  change (accounted st (evaluate_files fs files st)).
  unfold Evaluate.evaluate_files. apply accounted_loop.
  intros [key value] st0.
  pose proof (accounted_loop (evaluate_file fs key) value
                (mkEvalState Prosody Score (metrics st0) (speaker_metrics st0)
                   (<[key := []]> (raw st0)) (stdout st0) (stdin st0))
                (accounted_step fs key)) as H.
  exact H.
Qed.

(** The loop over the files of one condition appends one entry per file
    under the key of the condition and leaves the other keys alone. *)
Lemma raw_entries_loop (fs : FS) (key : string) (value : list Path)
  (st st' : EvalState) :
  run_loop (evaluate_file fs key) value st = Completed st' ->
  (exists entries : list (string * Score),
     raw st' !! key = Some (default [] (raw st !! key) ++ entries)%list /\
     map fst entries = map stem value) \/
  (value = [] /\ raw st' = raw st).
Proof.
  revert st. induction value as [|file value IH]; intros st Hrun.
  - right. injection Hrun as <-. split; reflexivity.
  - left. cbn [run_loop] in Hrun.
    pose proof (evaluate_file_step fs key file st) as Hstep.
    destruct (evaluate_file fs key file st) as [st1| |]; [|discriminate..].
    destruct Hstep as [[score Hraw] _].
    destruct (IH st1 Hrun) as [(entries & Hentries & Hnames)|[-> Hsame]].
    + exists ((stem file, score) :: entries). rewrite Hentries, Hraw.
      rewrite lookup_insert_eq. cbn [from_option map fst]. unfold Datatypes.id.
      rewrite <- app_assoc, Hnames. split; reflexivity.
    + exists [(stem file, score)]. rewrite Hsame, Hraw, lookup_insert_eq.
      split; reflexivity.
Qed.

Lemma raw_other_loop (fs : FS) (key other : string) (value : list Path)
  (st st' : EvalState) :
  other <> key ->
  run_loop (evaluate_file fs key) value st = Completed st' ->
  raw st' !! other = raw st !! other.
Proof.
  intros Hne. revert st. induction value as [|file value IH]; intros st Hrun.
  - injection Hrun as <-. reflexivity.
  - cbn [run_loop] in Hrun.
    pose proof (evaluate_file_step fs key file st) as Hstep.
    destruct (evaluate_file fs key file st) as [st1| |]; [|discriminate..].
    destruct Hstep as [[score Hraw] _].
    rewrite (IH st1 Hrun), Hraw. apply lookup_insert_ne. congruence.
Qed.

(** X24: when the objective evaluation completes, the raw results of every
    condition hold exactly one entry per file of the condition, in the
    order of the files and named by the stem of the file, whether or not
    the update of the file raised. *)
Theorem raw_entry_per_file (fs : FS) (files : list (string * list Path))
  (st st' : EvalState) :
  NoDup (map fst files) ->
  evaluate_files fs files st = Completed st' ->
  forall (key : string) (value : list Path),
    (key, value) ∈ files ->
    exists entries : list (string * Score),
      raw st' !! key = Some entries /\ map fst entries = map stem value.
Proof.
  revert st. induction files as [|[key0 value0] files IH]; intros st Hnd Hrun.
  - intros key value Hin. inversion Hin.
  - cbn [map fst] in Hnd. apply NoDup_cons in Hnd as [Hfresh Hnd].
    unfold Evaluate.evaluate_files in Hrun. cbn [run_loop] in Hrun.
    destruct (run_loop (evaluate_file fs key0) value0 _) as [st1| |] eqn:Hinner;
      [|discriminate..].
    fold (evaluate_files fs files st1) in Hrun.
    intros key value Hin. apply elem_of_cons in Hin as [Heq|Hin].
    + injection Heq as -> ->.
      assert (Hlater : raw st' !! key0 = raw st1 !! key0).
      { clear -Hfresh Hrun. revert st1 Hrun Hfresh.
        induction files as [|[key1 value1] files IH]; intros st1 Hrun Hfresh.
        - injection Hrun as <-. reflexivity.
        - unfold Evaluate.evaluate_files in Hrun. cbn [run_loop] in Hrun.
          destruct (run_loop (evaluate_file fs key1) value1 _) as [st2| |]
            eqn:Hinner; [|discriminate..].
          fold (evaluate_files fs files st2) in Hrun.
          cbn [map fst] in Hfresh. apply not_elem_of_cons in Hfresh as [Hne Hfresh].
          rewrite (IH st2 Hrun Hfresh).
          rewrite (raw_other_loop fs key1 key0 value1 _ st2 Hne Hinner).
          cbn [Evaluate.raw]. apply lookup_insert_ne. congruence. }
      rewrite Hlater.
      destruct (raw_entries_loop fs key0 value0 _ st1 Hinner)
        as [(entries & Hentries & Hnames)|[-> Hsame]].
      * cbn [Evaluate.raw] in Hentries. rewrite lookup_insert_eq in Hentries.
        exists entries. split; [exact Hentries|exact Hnames].
      * exists []. rewrite Hsame. cbn [Evaluate.raw].
        rewrite lookup_insert_eq. split; reflexivity.
    + exact (IH st1 Hnd Hrun key value Hin).
Qed.

(** X25: for a file named [<utterance>-<word>-<percent>.wav], when the ten
    feature tensors load, the update of the metrics succeeds on them and
    both metric dictionaries have the condition [<word>-<percent>], the
    iteration completes without printing and without a prompt: the two
    accumulators of the condition are updated and the raw entry of the file
    holds the scores of the updated file accumulator. *)
Theorem update_without_prompt (fs : FS) (key : string) (directory : Path)
  (speaker utterance word percent : string) (args : list (list R))
  (st : EvalState) :
  all_digits utterance = true ->
  contains "-" word = false -> contains "." word = false ->
  all_digits percent = true ->
  let stem := utterance +:+ "-" +:+ word +:+ "-" +:+ percent in
  let condition := word +:+ "-" +:+ percent in
  load_args (objective_directory // speaker // stem)
    (original_objective_directory // speaker // stem) fs = Ok args ->
  (forall m : Prosody, exists m' : Prosody, Prosody_update args m = Ok m') ->
  is_Some (metrics st !! condition) ->
  is_Some (speaker_metrics st !! condition) ->
  exists m m' s s' file_metrics : Prosody,
    metrics st !! condition = Some m /\ Prosody_update args m = Ok m' /\
    speaker_metrics st !! condition = Some s /\ Prosody_update args s = Ok s' /\
    Prosody_update args Prosody_new = Ok file_metrics /\
    evaluate_file fs key (directory // speaker // (stem +:+ ".wav")) st
    = Completed
        (mkEvalState Prosody Score
           (<[condition := m']> (metrics st))
           (<[condition := s']> (speaker_metrics st))
           (<[key := (default [] (raw st !! key)
                      ++ [(stem, Prosody_call file_metrics)])%list]> (raw st))
           (stdout st) (stdin st)).
Proof.
  intros Hutt Hdash Hdot Hpct stem condition Hload Hupdate [m Hm] [s Hs].
  destruct (Hupdate m) as [m' Hm'].
  destruct (Hupdate s) as [s' Hs'].
  destruct (Hupdate Prosody_new) as [file_metrics Hfile].
  exists m, m', s, s', file_metrics.
  repeat (split; [assumption|]).
  assert (Hplain : contains "." stem = false).
  { unfold stem. rewrite !contains_append, Hdot.
    rewrite (contains_digits "." utterance eq_refl Hutt).
    rewrite (contains_digits "." percent eq_refl Hpct). reflexivity. }
  assert (Hne : stem <> "").
  { unfold stem. intros E. apply (f_equal String.length) in E.
    rewrite !length_append in E. cbn [String.length] in E. lia. }
  unfold Evaluate.evaluate_file, Pathlib.stem.
  rewrite !name_join, !parent_join, !name_join, (stem_of_wav stem Hplain Hne).
  unfold Evaluate.try_update. rewrite Hload.
  unfold Pathlib.stem. rewrite name_join, (stem_of_name_plain stem Hplain).
  assert (Hcond : PyStr.join "-" (firstn 2 (skipn 1 (split "-" stem)))
                  = condition)
    by exact (condition_of_stem _ _ _ Hutt Hdash Hpct).
  rewrite Hcond. unfold update_in, getitem.
  rewrite Hm. cbn [mbind result_bind]. rewrite Hm'. cbn [mbind result_bind].
  cbn [Evaluate.speaker_metrics Evaluate.metrics Evaluate.raw Evaluate.stdout
       Evaluate.stdin].
  rewrite Hs. cbn [mbind result_bind]. rewrite Hs'. cbn [mbind result_bind].
  rewrite Hfile. reflexivity.
Qed.

End Objective.

Lemma raw_entry_per_file_witness :
  exists (st' : Evaluate.EvalState nat nat) (entries : list (string * nat)),
    Example.run [pdb_continue] = Completed st' /\
    Evaluate.raw nat nat st' !! "reconstructed" = Some entries /\
    map fst entries = ["000001-original-100"; "000002-original-100"].
Proof.
  assert (Hrun : Example.run [pdb_continue]
                 = Completed
                     (mkEvalState nat nat
                        {[ "original-100" := 1%nat ]} {[ "original-100" := 1%nat ]}
                        {[ "reconstructed" :=
                             [("000001-original-100", 0%nat);
                              ("000002-original-100", 1%nat)] ]}
                        [FileNotFoundError (Example.missing_file "000001")] []))
    by (vm_compute; reflexivity).
  assert (Hkeys : NoDup (map fst Example.two_files)).
  { apply NoDup_cons. split; [apply not_elem_of_nil|apply NoDup_nil_2]. }
  destruct (raw_entry_per_file Example.objective Example.original nat nat
              0%nat Example.counter_update (fun n => n) Example.second_only
              Example.two_files (Example.start [pdb_continue]) _ Hkeys Hrun
              "reconstructed"
              [Example.subjective // "0001" // "000001-original-100.wav";
               Example.subjective // "0001" // "000002-original-100.wav"])
    as (entries & Hentries & Hnames); [apply list_elem_of_here|].
  eexists _, entries. split; [exact Hrun|]. split; [exact Hentries|exact Hnames].
Defined.

Lemma update_without_prompt_witness :
  exists st' : Evaluate.EvalState nat nat,
    Evaluate.evaluate_file Example.objective Example.original nat nat 0%nat
      Example.counter_update (fun n => n) Example.second_only "reconstructed"
      (Example.subjective // "0001" // "000002-original-100.wav")
      (Example.start [])
    = Completed st'.
Proof.
  assert (Hload : load_args
                    (Example.objective // "0001"
                       // ("000002" +:+ "-" +:+ "original" +:+ "-" +:+ "100"))
                    (Example.original // "0001"
                       // ("000002" +:+ "-" +:+ "original" +:+ "-" +:+ "100"))
                    Example.second_only
                  = Ok (replicate 10 [1; 2]%R)) by reflexivity.
  assert (Hupdate : forall m : nat, exists m' : nat,
             Example.counter_update (replicate 10 [1; 2]%R) m = Ok m')
    by (intros m; eexists; reflexivity).
  assert (Hmetrics : is_Some (Example.counters !! ("original" +:+ "-" +:+ "100")))
    by (eexists; reflexivity).
  destruct (update_without_prompt Example.objective Example.original nat nat
              0%nat Example.counter_update (fun n => n) Example.second_only
              "reconstructed" Example.subjective "0001" "000002" "original"
              "100" (replicate 10 [1; 2]%R) (Example.start [])
              eq_refl eq_refl eq_refl eq_refl Hload Hupdate Hmetrics Hmetrics)
    as (m & m' & s & s' & file_metrics & _ & _ & _ & _ & _ & Hrun).
  eexists. exact Hrun.
Defined.

End ObjectiveProps.

Module AlignmentProps.
Import PyStr PyStrFacts Pathlib PathlibFacts Files FilesFacts Evaluate.
Import ConditionsSpec AlignmentSpec PipelineProps ObjectiveProps.

Section Stage.

Variables objective_directory original_objective_directory : Path.
Variables HOPSIZE SAMPLE_RATE : Z.
Variable pysodic_from_files_to_files :
  list Path -> list Path -> list Path -> FS -> result FS.
Variable pyfoal_from_files_to_files :
  list Path -> list Path -> list Path -> FS -> result FS.
Variable alignment_to_indices : string -> R -> list R -> list Z.

Abbreviation convert_alignment :=
  (Evaluate.convert_alignment HOPSIZE SAMPLE_RATE alignment_to_indices).
Abbreviation retry_alignments :=
  (Evaluate.retry_alignments objective_directory original_objective_directory
     HOPSIZE SAMPLE_RATE pyfoal_from_files_to_files alignment_to_indices).

Let indices_file (file : Path) : Path :=
  parent file // (replace "alignment" "phonemes" (stem file) +:+ ".pt").

(** One conversion saves a tensor to the indices file of its alignment and
    keeps the tensors that are saved already. *)
Lemma convert_alignment_saves (file : Path) (fs fs' : FS) :
  convert_alignment file fs = Ok fs' ->
  (exists indices, fs' !! indices_file file = Some (Tensor indices)) /\
  (forall p t, fs !! p = Some (Tensor t) ->
               exists t', fs' !! p = Some (Tensor t')).
Proof.
  unfold Evaluate.convert_alignment. fold (indices_file file).
  destruct (match fs !! file with Some (Blob data) => Ok data | _ => _ end)
    as [alignment|e]; [|discriminate].
  cbn [mbind result_bind].
  destruct (torch_load _ fs) as [pitch|e]; [|discriminate].
  cbn [mbind result_bind]. intros H. injection H as <-. unfold torch_save. split.
  - eexists. apply lookup_insert_eq.
  - intros p t Hp. destruct (decide (p = indices_file file)) as [->|Hne].
    + eexists. apply lookup_insert_eq.
    + exists t. rewrite lookup_insert_ne by congruence. exact Hp.
Qed.

Lemma convert_loop_saves (outputs : list Path) (fs fs' : FS) :
  for_fold convert_alignment outputs fs = Ok fs' ->
  (forall output, output ∈ outputs ->
     exists indices, fs' !! indices_file output = Some (Tensor indices)) /\
  (forall p t, fs !! p = Some (Tensor t) ->
               exists t', fs' !! p = Some (Tensor t')).
Proof.
  revert fs. induction outputs as [|output outputs IH]; intros fs Hrun.
  - injection Hrun as <-. split; [intros o Ho; inversion Ho|eauto].
  - cbn [for_fold] in Hrun.
    destruct (convert_alignment output fs) as [fs1|e] eqn:Hone; [|discriminate].
    cbn [mbind result_bind] in Hrun.
    destruct (convert_alignment_saves _ _ _ Hone) as [[indices Hsaved] Hkept].
    destruct (IH fs1 Hrun) as [Hall Hkept'].
    split.
    + intros o Ho. apply elem_of_cons in Ho as [->|Ho]; [|exact (Hall o Ho)].
      exact (Hkept' _ _ Hsaved).
    + intros p t Hp. destruct (Hkept p t Hp) as [t' Hp'].
      exact (Hkept' _ _ Hp').
Qed.

(** The files of one generated utterance of a condition. *)
Lemma generated_names (directory : Path) (speaker utterance key : string) :
  all_digits utterance = true ->
  (key = "original-100" \/
   exists (word : string) (ratio : Q),
     word ∈ ["scaled"; "shifted"; "stretched"] /\ ratio ∈ RATIOS /\
     key = word +:+ "-" +:+ percent ratio) ->
  let file := directory // speaker // (utterance +:+ "-" +:+ key +:+ ".wav") in
  let prefix := objective_directory // speaker // (utterance +:+ "-" +:+ key) in
  objective_directory // name (parent file) // stem file = prefix /\
  indices_file (alignment_file prefix) = fstring prefix "-phonemes.pt".
Proof.
  intros Hutt Hkey file prefix.
  assert (Hcases : key ∈
    ["original-100"; "scaled-050"; "scaled-071"; "scaled-141"; "scaled-200";
     "shifted-050"; "shifted-071"; "shifted-141"; "shifted-200";
     "stretched-050"; "stretched-071"; "stretched-141"; "stretched-200"]).
  { destruct Hkey as [->|(word & ratio & Hword & Hratio & ->)];
      [apply list_elem_of_here|].
    unfold RATIOS in Hratio. in_cases Hword; in_cases Hratio.
    all: repeat first [apply list_elem_of_here | apply list_elem_of_further]. }
  clear Hkey.
  assert (Hdot : contains "." (utterance +:+ "-" +:+ key) = false).
  { rewrite contains_append, (contains_digits "." utterance eq_refl Hutt).
    in_cases Hcases; reflexivity. }
  assert (Hne : utterance +:+ "-" +:+ key <> "").
  { intros E. apply (f_equal String.length) in E.
    rewrite !length_append in E. cbn [String.length] in E. lia. }
  split.
  - unfold file, prefix, Pathlib.stem.
    rewrite parent_join, !name_join.
    assert (Hname : utterance +:+ "-" +:+ key +:+ ".wav"
                    = (utterance +:+ "-" +:+ key) +:+ ".wav")
      by (rewrite !append_assoc; reflexivity).
    rewrite Hname, (stem_of_wav _ Hdot Hne). reflexivity.
  - unfold indices_file, alignment_file, fstring, prefix, Pathlib.stem.
    rewrite !parent_join, !name_join, (stem_of_name_plain _ Hdot).
    f_equal. stem_of_tail. rewrite !append_assoc.
    in_cases Hcases.
    all: skip_stem Hutt; eval_closed utterance; rewrite !append_assoc;
      reflexivity.
Qed.


End Stage.


End AlignmentProps.

Module CountsProps.
Import Evaluate Pipeline.
Open Scope Z_scope.

Lemma sum_counts_fields (acc : Counts) (found : list Counts) :
  let total :=
    foldl (fun results result =>
             mkCounts (num_samples results + num_samples result)
               (num_frames results + num_frames result)) acc found in
  num_samples total = num_samples acc + foldr Z.add 0 (map num_samples found) /\
  num_frames total = num_frames acc + foldr Z.add 0 (map num_frames found).
Proof.
  revert acc. induction found as [|c found IH]; intros acc; cbv zeta.
  - cbn. lia.
  - cbn [foldl map foldr]. destruct (IH (mkCounts (num_samples acc + num_samples c)
                                           (num_frames acc + num_frames c)))
      as [Hs Hf].
    rewrite Hs, Hf. cbn [num_samples num_frames]. lia.
Qed.



End CountsProps.
